(** * cachelayer: a cache-aside layer over Redis

    Shallow embedding of the serialising Redis wrappers
    ([jsonSerializer.go]), the whole-collection cache ([fullRedisCache.go])
    and the MongoDB coordinator ([mongoredis/redismongo.go]), together with
    the properties the specification states about them.

    Go code that talks to Redis or to a backend is embedded as a state
    transformer over a [World]: the backend state, the Redis server and the
    trace of calls issued so far.  A Go [error] is a value ([None] is
    [nil]); a run-time panic is a separate outcome. *)

From stdpp Require Import base option list gmap strings.
From Stdlib Require Import ZArith Ascii.

Open Scope Z_scope.
Open Scope string_scope.
Open Scope list_scope.

(** ** Go values *)

Module Go.

(** The error values that flow through the code.  [RedisNil] is go-redis's
    [redis.Nil], [ErrNoDocuments] is [mongo.ErrNoDocuments]; both are
    compared with [==] in the source. *)
Inductive err : Type :=
| RedisNil
| RedisConn
| RedisWrongType
| RedisInvalidExpire
| ErrNoDocuments
| SerializeErr (msg : string)
| BackendErr (msg : string)
| ErrorsNew (msg : string).

#[global] Instance err_eq_dec : EqDecision err.
Proof. solve_decision. Defined.

(** [error]: [None] is [nil]. *)
Definition error : Type := option err.

Definition is_nil (e : error) : bool :=
  match e with None => true | Some _ => false end.

(** [time.Duration], an [int64] count of nanoseconds. *)
Definition Duration : Type := Z.

(** A call either returns or panics. *)
Inductive outcome (A : Type) : Type :=
| Done (a : A)
| Panic (msg : string).
#[global] Arguments Done {A} a.
#[global] Arguments Panic {A} msg.

End Go.
Export Go.

(** ** The Redis server behind [*redis.Client]

    The cache store wire contract: GET, SET-with-expiry, MSET, EXPIRE, DEL,
    EXISTS, HSET, HGET, HMGET, and pipelines.  A key holds a string or a
    hash and an optional time-to-live.  Connectivity failures are scripted:
    every command sent to the server consumes one flag of [faults], and a
    [true] flag makes that command fail with [RedisConn] and change
    nothing (an exhausted script means no failure). *)

Module Redis.

Inductive rvalue : Type :=
| RString (s : string)
| RHash (h : gmap string string).

Record entry : Type := Entry { e_val : rvalue; e_ttl : option Duration }.

Record t : Type := Server { keyspace : gmap string entry; faults : list bool }.

(** What a pipeline can hold before it is executed. *)
Inductive queued : Type :=
| QExpire (key : string) (ttl : Duration)
| QSetEX (key value : string) (ttl : Duration).

(** Commands as they appear on the wire (what the trace records). *)
Inductive cmd : Type :=
| CGet (key : string)
| CSetEX (key value : string) (ttl : Duration)
| CMSet (pairs : gmap string string)
| CMGet (keys : list string)
| CExpire (key : string) (ttl : Duration)
| CDel (keys : list string)
| CExists (key : string)
| CHGet (key field : string)
| CHMGet (key : string) (fields : list string)
| CHSet (key : string) (args : list string)
| CExec (batch : list queued).

Definition next_fault (r : t) : bool * t :=
  match faults r with
  | [] => (false, r)
  | b :: fs => (b, Server (keyspace r) fs)
  end.

(** The next command reaches the server. *)
Definition reachable (r : t) : Prop := hd false (faults r) = false.

Definition with_keyspace (r : t) (ks : gmap string entry) : t :=
  Server ks (faults r).

(** Runs [body] on the key space unless the connection fails. *)
Definition send {A : Type} (r : t) (on_fault : A)
    (body : gmap string entry → A * gmap string entry) : A * t :=
  let '(failed, r1) := next_fault r in
  if failed then (on_fault, r1)
  else let '(a, ks) := body (keyspace r1) in (a, with_keyspace r1 ks).

(** GET: [redis.Nil] for a missing key. *)
Definition Get (key : string) (r : t) : (string * error) * t :=
  send r ("", Some RedisConn) (λ ks,
    match ks !! key with
    | None => (("", Some RedisNil), ks)
    | Some (Entry (RString v) _) => ((v, None), ks)
    | Some (Entry (RHash _) _) => (("", Some RedisWrongType), ks)
    end).

(** SETEX: the server rejects a non-positive expire time. *)
Definition SetEX (key value : string) (ttl : Duration) (r : t) : error * t :=
  send r (Some RedisConn) (λ ks,
    if (ttl <=? 0)%Z then (Some RedisInvalidExpire, ks)
    else (None, <[key := Entry (RString value) (Some ttl)]> ks)).

(** MSET: every pair is written at once, as a string without expiry. *)
Definition MSet (pairs : gmap string string) (r : t) : error * t :=
  send r (Some RedisConn) (λ ks,
    (None, ((λ v, Entry (RString v) None) <$> pairs) ∪ ks)).

(** MGET: one slot per key, [nil] ([None]) for a key that is missing or
    does not hold a string. *)
Definition MGet (keys : list string) (r : t)
    : (list (option string) * error) * t :=
  send r ([], Some RedisConn) (λ ks,
    ((map (λ k, match ks !! k with
                | Some (Entry (RString v) _) => Some v
                | _ => None
                end) keys, None), ks)).

Definition expire_key (key : string) (ttl : Duration)
    (ks : gmap string entry) : gmap string entry :=
  match ks !! key with
  | None => ks
  | Some (Entry v _) =>
      if (ttl <=? 0)%Z then delete key ks else <[key := Entry v (Some ttl)]> ks
  end.

(** EXPIRE: no error when the key is missing. *)
Definition Expire (key : string) (ttl : Duration) (r : t) : error * t :=
  send r (Some RedisConn) (λ ks, (None, expire_key key ttl ks)).

Definition del_keys (keys : list string) (ks : gmap string entry)
    : gmap string entry :=
  foldr delete ks keys.

(** DEL: deleting a missing key is not an error. *)
Definition Del (keys : list string) (r : t) : error * t :=
  send r (Some RedisConn) (λ ks, (None, del_keys keys ks)).

Definition Exists (key : string) (r : t) : (Z * error) * t :=
  send r (0, Some RedisConn) (λ ks,
    match ks !! key with
    | None => ((0, None), ks)
    | Some _ => ((1, None), ks)
    end).

(** HGET: [redis.Nil] for a missing key or field. *)
Definition HGet (key field : string) (r : t) : (string * error) * t :=
  send r ("", Some RedisConn) (λ ks,
    match ks !! key with
    | None => (("", Some RedisNil), ks)
    | Some (Entry (RString _) _) => (("", Some RedisWrongType), ks)
    | Some (Entry (RHash h) _) =>
        match h !! field with
        | None => (("", Some RedisNil), ks)
        | Some v => ((v, None), ks)
        end
    end).

(** HMGET: one slot per requested field, [nil] ([None]) for a field the
    hash does not have; a missing key is an empty hash. *)
Definition HMGet (key : string) (fields : list string) (r : t)
    : (list (option string) * error) * t :=
  send r ([], Some RedisConn) (λ ks,
    match ks !! key with
    | None => ((map (λ _, None) fields, None), ks)
    | Some (Entry (RString _) _) => (([], Some RedisWrongType), ks)
    | Some (Entry (RHash h) _) => ((map (λ f, h !! f) fields, None), ks)
    end).

(** Field/value pairs are set left to right. *)
Fixpoint hset_args (args : list string) (h : gmap string string)
    : gmap string string :=
  match args with
  | f :: v :: rest => hset_args rest (<[f := v]> h)
  | _ => h
  end.

(** HSET: creates the hash when the key is missing, keeps its expiry
    otherwise. *)
Definition HSet (key : string) (args : list string) (r : t) : error * t :=
  send r (Some RedisConn) (λ ks,
    match ks !! key with
    | None => (None, <[key := Entry (RHash (hset_args args ∅)) None]> ks)
    | Some (Entry (RString _) _) => (Some RedisWrongType, ks)
    | Some (Entry (RHash h) ttl) =>
        (None, <[key := Entry (RHash (hset_args args h)) ttl]> ks)
    end).

(** A pipeline queues commands locally; nothing is sent before [Exec],
    so the command returned by [p.Expire] carries no error yet. *)
Definition Pipeline : Type := list queued.

Definition pipe_Expire (p : Pipeline) (key : string) (ttl : Duration)
    : error * Pipeline :=
  (None, p ++ [QExpire key ttl]).

Definition run_queued (c : queued) (ks : gmap string entry)
    : gmap string entry :=
  match c with
  | QExpire key ttl => expire_key key ttl ks
  | QSetEX key value ttl =>
      if (ttl <=? 0)%Z then ks
      else <[key := Entry (RString value) (Some ttl)]> ks
  end.

(** EXEC: the queued commands reach the server in one round trip. *)
Definition Exec (p : Pipeline) (r : t) : error * t :=
  send r (Some RedisConn) (λ ks, (None, foldl (λ acc c, run_queued c acc) ks p)).

(** An entry with its time-to-live set anew. *)
Definition with_ttl (ttl : Duration) (e : entry) : entry :=
  Entry (e_val e) (Some ttl).

(** The string a key holds, if it holds one. *)
Definition string_at (ks : gmap string entry) (key : string) : option string :=
  match ks !! key with
  | Some (Entry (RString v) _) => Some v
  | _ => None
  end.

(** The field of the hash a key holds, if it holds a hash with that field. *)
Definition field_at (ks : gmap string entry) (key field : string) : option string :=
  match ks !! key with
  | Some (Entry (RHash h) _) => h !! field
  | _ => None
  end.

(** The key does not hold a string (it is missing or holds a hash). *)
Definition not_a_string (ks : gmap string entry) (key : string) : Prop :=
  ∀ v t, ks !! key ≠ Some (Entry (RString v) t).

(** [p.SetEX] on a pipeline: queued like [p.Expire]. *)
Definition pipe_SetEX (p : Pipeline) (key value : string) (ttl : Duration)
    : error * Pipeline :=
  (None, p ++ [QSetEX key value ttl]).

End Redis.

(** ** Worlds and effectful code *)

Module Sim.

(** Calls on the backing store: the [FullDBCache] interface and the
    operations of [*mongo.Collection] the coordinator uses. *)
Inductive backend_call : Type :=
| DbCreate | DbSave | DbUpdate | DbDelete | DbGet | DbList | DbListAll
| MgFindOne | MgFind | MgInsertOne | MgFindOneAndReplace | MgDeleteMany
| MgUpdateOne | MgNewObjectID.

Inductive event : Type :=
| Backend (c : backend_call)
| Cache (c : Redis.cmd).

Record World (DB : Type) : Type :=
  mkWorld { backend : DB; redis : Redis.t; trace : list event }.
#[global] Arguments mkWorld {DB} _ _ _.
#[global] Arguments backend {DB} _.
#[global] Arguments redis {DB} _.
#[global] Arguments trace {DB} _.

Definition M (DB A : Type) : Type := World DB → outcome A * World DB.

#[global] Instance M_ret {DB} : MRet (M DB) := λ A a w, (Done a, w).

#[global] Instance M_bind {DB} : MBind (M DB) := λ A B f m w,
  match m w with
  | (Done a, w1) => f a w1
  | (Panic msg, w1) => (Panic msg, w1)
  end.

Definition panic {DB A} (msg : string) : M DB A := λ w, (Panic msg, w).

(** One command sent to Redis. *)
Definition cache_call {DB A} (c : Redis.cmd) (f : Redis.t → A * Redis.t)
    : M DB A := λ w,
  let '(a, r) := f (redis w) in
  (Done a, mkWorld (backend w) r (trace w ++ [Cache c])).

(** One call on the backing store. *)
Definition backend_do {DB A} (c : backend_call) (f : DB → A * DB)
    : M DB A := λ w,
  let '(a, b) := f (backend w) in
  (Done a, mkWorld b (redis w) (trace w ++ [Backend c])).

(** The cache commands of a trace, in order. *)
Definition cache_cmds (tr : list event) : list Redis.cmd :=
  omap (λ e, match e with Cache c => Some c | Backend _ => None end) tr.

Definition backend_calls (tr : list event) : list backend_call :=
  omap (λ e, match e with Backend c => Some c | Cache _ => None end) tr.

(** From [w] to [w'] the Redis server kept its state and received no
    command. *)
Definition cache_untouched {DB} (w w' : World DB) : Prop :=
  redis w' = redis w ∧ cache_cmds (trace w') = cache_cmds (trace w).

End Sim.
Export Sim.

(** ** Zero values and the serializer *)

Class GoZero (A : Type) : Type := zero : A.
#[global] Hint Mode GoZero ! : typeclass_instances.

(** [Serializer]: [Marshal] takes any value ([interface{}]); [Unmarshal]
    fills the pointed-to [T], which may be left partly filled on error. *)
Record Serializer (Any T : Type) : Type := mkSerializer {
  Marshal : Any → string * error;
  Unmarshal : string → T → T * error;
}.
#[global] Arguments Marshal {Any T} _ _.
#[global] Arguments Unmarshal {Any T} _ _ _.

(** ** [RedisJson[T]] (jsonSerializer.go) *)

Module RedisJson.
Section defs.
Context {DB Any T : Type} `{!GoZero T}.
(** Conversion of a [T] to [interface{}]. *)
Context (box : T → Any).

Record t : Type := mk { serializer : Serializer Any T; ttl : Duration }.

Definition GetJson (s : t) (key : string) : M DB (T * bool * error) :=
  let r : T := zero in
  '(y, err) ← cache_call (Redis.CGet key) (Redis.Get key);
  match err with
  | Some e =>
      if decide (e = RedisNil) then mret (r, false, None)
      else mret (r, false, Some e)
  | None =>
      let '(r, err) := Unmarshal (serializer s) y r in
      mret (r, true, err)
  end.

Definition SetJson (s : t) (key : string) (obj : T) : M DB error :=
  let '(y, err) := Marshal (serializer s) (box obj) in
  match err with
  | Some e => mret (Some e)
  | None => cache_call (Redis.CSetEX key y (ttl s)) (Redis.SetEX key y (ttl s))
  end.

(** The queueing loop of [Expires]. *)
Fixpoint Expires_loop (s : t) (keys : list string) (p : Redis.Pipeline)
    : error + Redis.Pipeline :=
  match keys with
  | [] => inr p
  | v :: rest =>
      let '(err, p) := Redis.pipe_Expire p v (ttl s) in
      match err with
      | Some e => inl (Some e)
      | None => Expires_loop s rest p
      end
  end.

Definition Expires (s : t) (keys : list string) : M DB error :=
  if decide (length keys = 0%nat) then mret None
  else
    match Expires_loop s keys [] with
    | inl err => mret err
    | inr p => cache_call (Redis.CExec p) (Redis.Exec p)
    end.

(** The marshalling loop of [MSetJson] over the entries of [objMap], in
    the order the runtime iterates the map. *)
Fixpoint MSetJson_loop (s : t) (entries : list (string * Any))
    (objJsonMap : gmap string string) (keys : list string)
    : error + (gmap string string * list string) :=
  match entries with
  | [] => inr (objJsonMap, keys)
  | (k, v) :: rest =>
      let '(y, err) := Marshal (serializer s) v in
      let objJsonMap := <[k := y]> objJsonMap in
      match err with
      | Some e => inl (Some e)
      | None => MSetJson_loop s rest objJsonMap (keys ++ [k])
      end
  end.

(** [objMap] is given by its entries in iteration order. *)
Definition MSetJson (s : t) (objMap : list (string * Any)) : M DB error :=
  if decide (length objMap = 0%nat) then mret None
  else
    match MSetJson_loop s objMap ∅ [] with
    | inl err => mret err
    | inr (objJsonMap, keys) =>
        err ← cache_call (Redis.CMSet objJsonMap) (Redis.MSet objJsonMap);
        match err with
        | Some e => mret (Some e)
        | None => Expires s keys
        end
    end.

Definition SetNull (s : t) (key : string) : M DB error :=
  cache_call (Redis.CSetEX key "null" (ttl s)) (Redis.SetEX key "null" (ttl s)).

(** The decoding loop of [MGetJson]: a [nil] slot is recorded as missed
    and left at the zero value. *)
Fixpoint MGetJson_loop (s : t) (vs : list (option string)) (i : nat)
    (r : list T) (missedIndexes : list nat) : err * list nat + list T * list nat :=
  match vs with
  | [] => inr (r, missedIndexes)
  | v :: rest =>
      let t : T := zero in
      match v with
      | None => MGetJson_loop s rest (S i) (<[i := t]> r) (missedIndexes ++ [i])
      | Some str =>
          let '(t, err) := Unmarshal (serializer s) str t in
          match err with
          | Some e => inl (e, missedIndexes)
          | None => MGetJson_loop s rest (S i) (<[i := t]> r) missedIndexes
          end
      end
  end.

(** The loop of [MGetJson] that refreshes the time-to-live key by key. *)
Fixpoint MGetJson_expire (s : t) (keys : list string) : M DB error :=
  match keys with
  | [] => mret None
  | key :: rest =>
      err ← cache_call (Redis.CExpire key (ttl s)) (Redis.Expire key (ttl s));
      match err with
      | Some e => mret (Some e)
      | None => MGetJson_expire s rest
      end
  end.

(** [fmt.Printf] of the raw reply, which writes to standard output only,
    is left out. *)
Definition MGetJson (s : t) (keys : list string)
    : M DB (list T * list nat * error) :=
  if decide (length keys = 0%nat) then mret ([], [], None)
  else
    '(vs, err) ← cache_call (Redis.CMGet keys) (Redis.MGet keys);
    match err with
    | Some e => mret ([], [], Some e)
    | None =>
        match MGetJson_loop s vs 0 (replicate (length keys) zero) [] with
        | inl (e, missedIndexes) => mret ([], missedIndexes, Some e)
        | inr (r, missedIndexes) =>
            err ← MGetJson_expire s keys;
            mret (r, missedIndexes, err)
        end
    end.

(** Vocabulary for statements about [MSetJson]: an entry that marshals
    without error, the map of marshalled entries, and the pipeline that
    sets the time-to-live of each key. *)
Definition marshals (s : t) (kv : string * Any) : Prop :=
  (Marshal (serializer s) kv.2).2 = None.

Definition marshalled (s : t) (entries : list (string * Any))
    (acc : gmap string string) : gmap string string :=
  foldl (λ m kv, <[kv.1 := (Marshal (serializer s) kv.2).1]> m) acc entries.

Definition expire_batch (s : t) (keys : list string) : Redis.Pipeline :=
  map (λ k, Redis.QExpire k (ttl s)) keys.


(** A reply that [MGetJson] can decode. *)
Definition decodes (s : t) (v : option string) : Prop :=
  ∀ y, v = Some y → (Unmarshal (serializer s) y zero).2 = None.

(** The queueing loop of [MSetNull]. *)
Fixpoint MSetNull_loop (s : t) (keys : list string) (p : Redis.Pipeline)
    : error + Redis.Pipeline :=
  match keys with
  | [] => inr p
  | v :: rest =>
      let '(err, p) := Redis.pipe_SetEX p v "null" (ttl s) in
      match err with
      | Some e => inl (Some e)
      | None => MSetNull_loop s rest p
      end
  end.

Definition MSetNull (s : t) (keys : list string) : M DB error :=
  if decide (length keys = 0%nat) then mret None
  else
    match MSetNull_loop s keys [] with
    | inl err => mret err
    | inr p => cache_call (Redis.CExec p) (Redis.Exec p)
    end.

(** The pipeline [MSetNull] sends. *)
Definition null_batch (s : t) (keys : list string) : Redis.Pipeline :=
  map (λ k, Redis.QSetEX k "null" (ttl s)) keys.

End defs.
#[global] Arguments t : clear implicits.
End RedisJson.

(** ** Entities and the helpers declared outside these files *)

(** [Table[I]]: what an entity exposes. [Indexes] is a slice of [Index]. *)
Class Table (T I Index : Type) : Type := mkTable {
  GetID : T → I;
  ListIndexes : T → list Index;
}.
#[global] Hint Mode Table ! - - : typeclass_instances.

(** Helpers of the package that the three files call but do not define;
    they are taken as given. *)
Class Helpers (I Index : Type) : Type := mkHelpers {
  IsNullID : I → bool;
  Stringify : I → string;
  NewIndex : string → I → Index;
}.
#[global] Hint Mode Helpers ! - : typeclass_instances.

(** [CacheBase]: the fields the constructors fill in. *)
Record CacheBase : Type :=
  mkCacheBase { prefix : string; table : string; idField : string }.

(** Modelled from the spec: [Indexes.Merge] is declared outside these
    files; the invalidation set on update is the union of the index sets
    before and after (duplicates are removed from the keys afterwards). *)
Definition Merge {Index : Type} (a b : list Index) : list Index := a ++ b.

(** Modelled from the spec: [UniqueStrings] is declared outside these
    files; it deduplicates the keys. *)
Definition UniqueStrings (keys : list string) : list string := remove_dups keys.

(** ** [strings.ToLower]

    ASCII-only strings are lowered byte by byte; any other string goes
    through [strings.Map] with [unicode.ToLower].  Statements that do not
    depend on what happens to such a string leave it open ([UnicodeLower]);
    [unicode_lower_of] is what the Go library does, given the lower-case
    table of [unicode.CaseRanges] for the runes above ASCII. *)

Module Strings.

Class UnicodeLower : Type := unicode_map_lower : string → string.

Definition is_ascii_byte (c : ascii) : bool := (N_of_ascii c <? 128)%N.

Definition is_upper (c : ascii) : bool :=
  ((65 <=? N_of_ascii c) && (N_of_ascii c <=? 90))%N.

Definition lower_byte (c : ascii) : ascii :=
  if is_upper c then ascii_of_N (N_of_ascii c + 32) else c.

Fixpoint isASCII (s : string) : bool :=
  match s with
  | EmptyString => true
  | String c rest => is_ascii_byte c && isASCII rest
  end.

Fixpoint hasUpper (s : string) : bool :=
  match s with
  | EmptyString => false
  | String c rest => is_upper c || hasUpper rest
  end.

Fixpoint lower_ascii (s : string) : string :=
  match s with
  | EmptyString => EmptyString
  | String c rest => String (lower_byte c) (lower_ascii rest)
  end.

Definition ToLower `{!UnicodeLower} (s : string) : string :=
  if isASCII s then (if hasUpper s then lower_ascii s else s)
  else unicode_map_lower s.

(** *** [unicode/utf8]

    Runes are integers; a string is its bytes. *)

Local Open Scope Z_scope.

Definition RuneError : Z := 0xFFFD.
Definition MaxRune : Z := 0x10FFFF.

Definition byte_of (c : ascii) : Z := Z.of_N (N_of_ascii c).

(** [byte(x)]: the low eight bits. *)
Definition to_byte (x : Z) : ascii := ascii_of_N (Z.to_N (Z.land x 0xFF)).

Definition uint32 (r : Z) : Z := r mod 2 ^ 32.

(** The table [first] with its [acceptRanges]: what a leading byte
    announces. *)
Inductive lead : Type :=
| LeadASCII
| LeadInvalid
| LeadOf (size : nat) (lo hi : Z).

Definition first (s0 : Z) : lead :=
  if s0 <? 0x80 then LeadASCII
  else if s0 <? 0xC2 then LeadInvalid
  else if s0 <? 0xE0 then LeadOf 2 0x80 0xBF
  else if s0 =? 0xE0 then LeadOf 3 0xA0 0xBF
  else if s0 =? 0xED then LeadOf 3 0x80 0x9F
  else if s0 <? 0xF0 then LeadOf 3 0x80 0xBF
  else if s0 =? 0xF0 then LeadOf 4 0x90 0xBF
  else if s0 <? 0xF4 then LeadOf 4 0x80 0xBF
  else if s0 =? 0xF4 then LeadOf 4 0x80 0x8F
  else LeadInvalid.

Definition continuation (x : Z) : bool := (0x80 <=? x) && (x <=? 0xBF).

(** The rune at the start of [s] and its width in bytes; a byte that
    starts no well-formed sequence is [RuneError] of width 1.  The [range]
    loop over a string decodes the same way. *)
Definition DecodeRuneInString (s : string) : Z * nat :=
  match s with
  | EmptyString => (RuneError, 0%nat)
  | String c0 t0 =>
      let s0 := byte_of c0 in
      match first s0 with
      | LeadASCII => (s0, 1%nat)
      | LeadInvalid => (RuneError, 1%nat)
      | LeadOf sz lo hi =>
          if (String.length s <? sz)%nat then (RuneError, 1%nat)
          else
            match t0 with
            | EmptyString => (RuneError, 1%nat)
            | String c1 t1 =>
                let s1 := byte_of c1 in
                if (s1 <? lo) || (hi <? s1) then (RuneError, 1%nat)
                else if (sz <=? 2)%nat then
                  (Z.lor (Z.shiftl (Z.land s0 0x1F) 6) (Z.land s1 0x3F), 2%nat)
                else
                  match t1 with
                  | EmptyString => (RuneError, 1%nat)
                  | String c2 t2 =>
                      let s2 := byte_of c2 in
                      if negb (continuation s2) then (RuneError, 1%nat)
                      else if (sz <=? 3)%nat then
                        (Z.lor (Z.lor (Z.shiftl (Z.land s0 0x0F) 12)
                                      (Z.shiftl (Z.land s1 0x3F) 6))
                               (Z.land s2 0x3F), 3%nat)
                      else
                        match t2 with
                        | EmptyString => (RuneError, 1%nat)
                        | String c3 t3 =>
                            let s3 := byte_of c3 in
                            if negb (continuation s3) then (RuneError, 1%nat)
                            else
                              (Z.lor (Z.lor (Z.lor (Z.shiftl (Z.land s0 0x07) 18)
                                                   (Z.shiftl (Z.land s1 0x3F) 12))
                                            (Z.shiftl (Z.land s2 0x3F) 6))
                                     (Z.land s3 0x3F), 4%nat)
                        end
                  end
            end
      end
  end.

Definition units3 (r : Z) : string :=
  String (to_byte (Z.lor 0xE0 (Z.shiftr r 12)))
    (String (to_byte (Z.lor 0x80 (Z.land (Z.shiftr r 6) 0x3F)))
       (String (to_byte (Z.lor 0x80 (Z.land r 0x3F))) "")).

(** [Builder.WriteRune], that is [utf8.AppendRune]: the bytes appended. *)
Definition WriteRune (r : Z) : string :=
  let i := uint32 r in
  if i <=? 0x7F then String (to_byte r) ""
  else if i <=? 0x7FF then
    String (to_byte (Z.lor 0xC0 (Z.shiftr r 6)))
      (String (to_byte (Z.lor 0x80 (Z.land r 0x3F))) "")
  else if (MaxRune <? i) || ((0xD800 <=? i) && (i <=? 0xDFFF)) then
    units3 RuneError
  else if i <=? 0xFFFF then units3 r
  else
    String (to_byte (Z.lor 0xF0 (Z.shiftr r 18)))
      (String (to_byte (Z.lor 0x80 (Z.land (Z.shiftr r 12) 0x3F)))
         (String (to_byte (Z.lor 0x80 (Z.land (Z.shiftr r 6) 0x3F)))
            (String (to_byte (Z.lor 0x80 (Z.land r 0x3F))) ""))).

Definition RuneLen (r : Z) : Z :=
  if r <? 0 then -1
  else if r <=? 0x7F then 1
  else if r <=? 0x7FF then 2
  else if (0xD800 <=? r) && (r <=? 0xDFFF) then -1
  else if r <=? 0xFFFF then 3
  else if r <=? MaxRune then 4
  else -1.

Definition ValidRune (r : Z) : bool :=
  if (0 <=? r) && (r <? 0xD800) then true
  else if (0xDFFF <? r) && (r <=? MaxRune) then true
  else false.

(** *** [strings.Map] *)

(** What the second loop writes for a mapped rune: nothing when it is
    negative, one byte below [RuneSelf], [WriteRune] otherwise. *)
Definition written (r : Z) : string :=
  if 0 <=? r then (if r <? 0x80 then String (to_byte r) "" else WriteRune r)
  else "".

(** The second loop, over what is left of [s]; [skip] counts the bytes of
    the current rune still to pass. *)
Fixpoint Map_rest (mapping : Z → Z) (skip : nat) (s : string) : string :=
  match s with
  | EmptyString => EmptyString
  | String _ rest =>
      match skip with
      | S k => Map_rest mapping k rest
      | O =>
          let '(c, size) := DecodeRuneInString s in
          let r := mapping c in
          (if 0 <=? r
           then (if r <? 0x80 then String (to_byte r) "" else WriteRune r)
           else "")
          +:+ Map_rest mapping (size - 1) rest
      end
  end.

(** The first loop: it passes the runes the mapping leaves as they are
    and stops at the first that changes, or at a byte that is no rune;
    there it copies what it passed, writes the mapped rune and leaves the
    rest to the second loop.  [None] when it reaches the end: nothing was
    written. *)
Fixpoint Map_first (mapping : Z → Z) (skip : nat) (s : string) : option string :=
  match s with
  | EmptyString => None
  | String b rest =>
      match skip with
      | S k => String b <$> Map_first mapping k rest
      | O =>
          let '(c, size) := DecodeRuneInString s in
          let r := mapping c in
          if (r =? c) && negb (c =? RuneError)
          then String b <$> Map_first mapping (size - 1) rest
          else
            let width := if c =? RuneError then Z.of_nat size else RuneLen c in
            if (c =? RuneError) && negb (width =? 1) && (r =? c)
            then String b <$> Map_first mapping (size - 1) rest
            else
              Some ((if 0 <=? r then WriteRune r else "")
                    +:+ Map_rest mapping (Z.to_nat width - 1) rest)
      end
  end.

Definition Map (mapping : Z → Z) (s : string) : string :=
  match Map_first mapping 0 s with
  | None => s
  | Some out => out
  end.

(** *** [unicode.ToLower]

    [To_LowerCase] is [unicode.To(unicode.LowerCase, r)], the look-up in
    [unicode.CaseRanges]. *)
Definition unicode_ToLower (To_LowerCase : Z → Z) (r : Z) : Z :=
  if r <=? 0x7F then
    (if (0x41 <=? r) && (r <=? 0x5A) then r + (0x61 - 0x41) else r)
  else To_LowerCase r.

Definition unicode_lower_of (To_LowerCase : Z → Z) : UnicodeLower :=
  Map (unicode_ToLower To_LowerCase).

(** A lower-case table maps a valid rune above ASCII to a valid rune that
    [unicode.ToLower] leaves as it is. *)
Definition lower_table (To_LowerCase : Z → Z) : Prop :=
  ∀ r, 0x7F < r → ValidRune r = true →
    ValidRune (To_LowerCase r) = true
    ∧ unicode_ToLower To_LowerCase (To_LowerCase r) = To_LowerCase r.

End Strings.

(** ** [RedisHashJson[T, I]] (jsonSerializer.go) *)

Module RedisHashJson.
Section defs.
Context {DB Any T I Index : Type}.
Context `{!GoZero T, !Table T I Index, !Helpers I Index}.
Context (box : T → Any).

Record t : Type := mk { serializer : Serializer Any T; ttl : Duration }.

Definition HGetJson (s : t) (key : string) (id : I) : M DB (T * bool * error) :=
  let idStr := Stringify id in
  let r : T := zero in
  '(raw, err) ← cache_call (Redis.CHGet key idStr) (Redis.HGet key idStr);
  match err with
  | Some e =>
      if decide (e = RedisNil) then mret (r, false, None)
      else mret (r, false, Some e)
  | None =>
      let '(r, err) := Unmarshal (serializer s) raw r in
      mret (r, true, err)
  end.

(** The decoding loop of [HMGetJson]: [v.(string)] panics on a [nil]
    slot; a decoding error ends the loop with what was decoded so far. *)
Fixpoint HMGetJson_loop (s : t) (raw : list (option string)) (r : list T)
    : outcome (list T) :=
  match raw with
  | [] => Done r
  | v :: rest =>
      match v with
      | None => Panic "interface conversion: interface {} is nil, not string"
      | Some str =>
          let '(t, err) := Unmarshal (serializer s) str zero in
          match err with
          | Some _ => Done r
          | None => HMGetJson_loop s rest (r ++ [t])
          end
      end
  end.

Definition HMGetJson (s : t) (key : string) (ids : list I)
    : M DB (list T * error) :=
  if decide (length ids = 0%nat) then mret ([], None)
  else
    let idStrs := map Stringify ids in
    let r : list T := [] in
    '(raw, err) ← cache_call (Redis.CHMGet key idStrs) (Redis.HMGet key idStrs);
    match err with
    | Some e =>
        if decide (e = RedisNil) then mret (r, None) else mret (r, Some e)
    | None =>
        match HMGetJson_loop s raw r with
        | Done r => mret (r, None)
        | Panic msg => panic msg
        end
    end.

(** The loop of [HSetJson] filling [args] with id, JSON, id, JSON, ... *)
Fixpoint HSetJson_loop (s : t) (objs : list T) (args : list string)
    : error + list string :=
  match objs with
  | [] => inr args
  | v :: rest =>
      let '(y, err) := Marshal (serializer s) (box v) in
      match err with
      | Some e => inl (Some e)
      | None => HSetJson_loop s rest (args ++ [Stringify (GetID v); y])
      end
  end.

Definition HSetJson (s : t) (key : string) (objs : list T) : M DB error :=
  if decide (length objs = 0%nat) then mret None
  else
    match HSetJson_loop s objs [] with
    | inl err => mret err
    | inr args => cache_call (Redis.CHSet key args) (Redis.HSet key args)
    end.

(** Vocabulary for statements about the hash: the field an entity is
    stored under, its marshalled form, and entities that marshal. *)
Definition field_of (v : T) : string := Stringify (GetID v).

Definition payload (s : t) (v : T) : string := (Marshal (serializer s) (box v)).1.

Definition marshals (s : t) (v : T) : Prop :=
  (Marshal (serializer s) (box v)).2 = None.

(** The arguments [HSetJson] passes to HSET when every entity marshals. *)
Definition args_of (s : t) (objs : list T) : list string :=
  flat_map (λ o, [field_of o; payload s o]) objs.

(** The key space after that HSET has reached the server. *)
Definition hset_keyspace (s : t) (key : string) (objs : list T)
    (ks : gmap string Redis.entry) : gmap string Redis.entry :=
  match ks !! key with
  | None =>
      <[key := Redis.Entry (Redis.RHash (Redis.hset_args (args_of s objs) ∅)) None]> ks
  | Some (Redis.Entry (Redis.RHash h) t) =>
      <[key := Redis.Entry (Redis.RHash (Redis.hset_args (args_of s objs) h)) t]> ks
  | Some (Redis.Entry (Redis.RString _) _) => ks
  end.

(** [id] is stored and decodes to [u]. *)
Definition holds (s : t) (h : gmap string string) (id : I) (u : T) : Prop :=
  ∃ y, h !! Stringify id = Some y ∧ Unmarshal (serializer s) y zero = (u, None).

End defs.
#[global] Arguments t : clear implicits.
End RedisHashJson.

(** ** [FullRedisCache[T, I]] (fullRedisCache.go) *)

(** [FullDBCache]: the backend the whole-collection cache sits on. A method
    taking [*T] returns the entity as the call left it. *)
Record FullDBCache (T I Any DB : Type) : Type := mkFullDBCache {
  db_Create : T → DB → (T * error) * DB;
  db_Save : T → DB → (T * error) * DB;
  db_Update : I → Any → DB → (Z * error) * DB;
  db_Delete : list I → DB → (Z * error) * DB;
  db_ListAll : DB → (list T * error) * DB;
}.
#[global] Arguments db_Create {T I Any DB} _ _ _.
#[global] Arguments db_Save {T I Any DB} _ _ _.
#[global] Arguments db_Update {T I Any DB} _ _ _ _.
#[global] Arguments db_Delete {T I Any DB} _ _ _.
#[global] Arguments db_ListAll {T I Any DB} _ _.

Module FullRedisCache.
Section defs.
Context {DB Any T I Index : Type}.
Context `{!GoZero T, !Table T I Index, !Helpers I Index}.
Context `{!Strings.UnicodeLower}.
Context (box : T → Any).

Record t : Type := mk {
  base : CacheBase;
  db : FullDBCache T I Any DB;
  red : RedisHashJson.t Any T;
}.

Definition CacheKey (s : t) : string :=
  let r := prefix (base s) +:+ "/" +:+ table (base s) +:+ "/full" in
  Strings.ToLower r.

Definition load (s : t) : M DB error :=
  '(r, err) ← backend_do DbListAll (db_ListAll (db s));
  match err with
  | Some e => mret (Some e)
  | None =>
      let key := CacheKey s in
      err ← RedisHashJson.HSetJson box (red s) key r;
      match err with
      | Some e => mret (Some e)
      | None =>
          cache_call (Redis.CExpire key (RedisHashJson.ttl (red s)))
                     (Redis.Expire key (RedisHashJson.ttl (red s)))
      end
  end.

Definition Get (s : t) (id : I) : M DB (T * bool * error) :=
  let key := CacheKey s in
  '(r, exists_, err) ← RedisHashJson.HGetJson (red s) key id;
  match err with
  | Some e => mret (r, false, Some e)
  | None =>
      if (exists_ : bool) then mret (r, true, None)
      else
        err ← load s;
        match err with
        | Some e => mret (r, false, Some e)
        | None => RedisHashJson.HGetJson (red s) key id
        end
  end.

Definition List (s : t) (id : list I) : M DB (list T * error) :=
  let key := CacheKey s in
  '(count, err) ← cache_call (Redis.CExists key) (Redis.Exists key);
  match err with
  | Some e => mret ([], Some e)
  | None =>
      if decide (count = 0) then
        err ← load s;
        match err with
        | Some e => mret ([], Some e)
        | None => RedisHashJson.HMGetJson (red s) key id
        end
      else RedisHashJson.HMGetJson (red s) key id
  end.

Definition Create (s : t) (r : T) : M DB (T * error) :=
  '(r, err) ← backend_do DbCreate (db_Create (db s) r);
  match err with
  | Some e => mret (r, Some e)
  | None => err ← load s; mret (r, err)
  end.

Definition Save (s : t) (r : T) : M DB (T * error) :=
  '(_, exists_, err) ← Get s (GetID r);
  match err with
  | Some e => mret (r, Some e)
  | None =>
      '(r, err) ←
        (if IsNullID (GetID r) || negb exists_
         then backend_do DbCreate (db_Create (db s) r)
         else backend_do DbSave (db_Save (db s) r));
      match err with
      | Some e => mret (r, Some e)
      | None => _ ← load s; mret (r, None)
      end
  end.

Definition Update (s : t) (id : I) (values : Any) : M DB (Z * error) :=
  if IsNullID id then mret (0, None)
  else
    '(effectedRows, err) ← backend_do DbUpdate (db_Update (db s) id values);
    match err with
    | Some e => mret (0, Some e)
    | None => _ ← load s; mret (effectedRows, err)
    end.

Definition Delete (s : t) (ids : list I) : M DB (Z * error) :=
  '(rowsAffected, err) ← backend_do DbDelete (db_Delete (db s) ids);
  match err with
  | Some e => mret (0, Some e)
  | None => _ ← load s; mret (rowsAffected, err)
  end.

(** [ClearCache] drops the whole snapshot, whatever [objs] is. *)
Definition ClearCache (s : t) (objs : list T) : M DB error :=
  cache_call (Redis.CDel [CacheKey s]) (Redis.Del [CacheKey s]).

End defs.
#[global] Arguments t : clear implicits.
End FullRedisCache.

(** ** [RedisMongo[T, I]] (mongoredis/redismongo.go) *)

(** What [FindOne] and [FindOneAndReplace] return: [Err()] and
    [Decode(&t)]. *)
Record SingleResult (T : Type) : Type :=
  mkSingleResult { sr_Err : error; sr_Decode : T → T * error }.
#[global] Arguments mkSingleResult {T} _ _.
#[global] Arguments sr_Err {T} _.
#[global] Arguments sr_Decode {T} _ _.

(** The operations of [*mongo.Collection] the coordinator calls, on
    filters of the shapes it builds: [{_id: id}] and [{_id: {$in: ids}}].
    [Find] returns the error of the query and, on success, what
    [cursor.All] yields. [UpdateOne] and [DeleteMany] return the matched
    and deleted counts. *)
Record MongoCollection (T I Any DB : Type) : Type := mkMongoCollection {
  FindOne : I → DB → SingleResult T * DB;
  Find : list I → DB → (error * (list T * error)) * DB;
  InsertOne : T → DB → error * DB;
  FindOneAndReplace : I → T → DB → SingleResult T * DB;
  DeleteMany : list I → DB → (Z * error) * DB;
  UpdateOne : I → list (string * Any) → DB → (Z * error) * DB;
  NewObjectIDHex : DB → string * DB;
}.
#[global] Arguments FindOne {T I Any DB} _ _ _.
#[global] Arguments Find {T I Any DB} _ _ _.
#[global] Arguments InsertOne {T I Any DB} _ _ _.
#[global] Arguments FindOneAndReplace {T I Any DB} _ _ _ _.
#[global] Arguments DeleteMany {T I Any DB} _ _ _.
#[global] Arguments UpdateOne {T I Any DB} _ _ _ _.
#[global] Arguments NewObjectIDHex {T I Any DB} _ _.

Module RedisMongo.
Section defs.
Context {DB Any T Index : Type}.
(** The ID type of the coordinator is [string]. *)
Abbreviation I := string (only parsing).
Context `{!GoZero T, !Table T I Index, !Helpers I Index}.
(** [MakeCacheKey] of [CacheBase], declared outside these files. *)
Context (MakeCacheKey : CacheBase → Index → string).
(** [values.(map[string]interface{})]: the entries of the map, in
    iteration order, when [values] is such a map. *)
Context (as_map : Any → option (list (string * Any))).
(** [reflect.ValueOf(t).Elem().FieldByName(f).SetString(x)], which panics
    when the entity has no settable string field [f]. *)
Context (reflect_SetString : string → string → T → outcome T).

Record t : Type := mk {
  base : CacheBase;
  c : MongoCollection T I Any DB;
}.

(** The keys [ClearCache] collects before it sends DEL. *)
Definition ClearCache_keys (s : t) (id : I) (indexes : list Index) : list string :=
  let keys : list string := [] in
  let keys :=
    if negb (IsNullID id)
    then keys ++ [MakeCacheKey (base s) (NewIndex (idField (base s)) id)]
    else keys in
  let keys := foldl (λ keys v, keys ++ [MakeCacheKey (base s) v]) keys indexes in
  UniqueStrings keys.

Definition ClearCache (s : t) (id : I) (indexes : list Index) : M DB error :=
  let keys := ClearCache_keys s id indexes in
  cache_call (Redis.CDel keys) (Redis.Del keys).

Definition Get (s : t) (id : I) : M DB (T * bool * error) :=
  let t : T := zero in
  r ← backend_do MgFindOne (FindOne (c s) id);
  match sr_Err r with
  | Some err =>
      if decide (ErrNoDocuments = err) then mret (t, false, None)
      else mret (t, false, Some err)
  | None =>
      let '(t, err) := sr_Decode r t in
      mret (t, true, err)
  end.

Definition List (s : t) (ids : list I) : M DB (list T * error) :=
  let t : list T := [] in
  '(err, all) ← backend_do MgFind (Find (c s) ids);
  match err with
  | Some e => mret (t, Some e)
  | None => mret all
  end.

(** [t] is a pointer: [None] is [nil]. The entity is returned as the
    call left it. *)
Definition Create (s : t) (t : option T) : M DB (option T * error) :=
  match t with
  | None => mret (None, None)
  | Some t =>
      t ← (if IsNullID (GetID t) then
             hex ← backend_do MgNewObjectID (NewObjectIDHex (c s));
             match reflect_SetString (idField (base s)) hex t with
             | Done t => mret t
             | Panic msg => panic msg
             end
           else mret t);
      err ← backend_do MgInsertOne (InsertOne (c s) t);
      match err with
      | Some e => mret (Some t, Some e)
      | None =>
          _ ← ClearCache s (GetID t) (ListIndexes t);
          mret (Some t, None)
      end
  end.

Definition Save (s : t) (t : option T) : M DB (option T * error) :=
  match t with
  | None => mret (None, None)
  | Some t =>
      let id := GetID t in
      if IsNullID id then Create s (Some t)
      else
        '(_, exist_, err) ← Get s id;
        match err with
        | Some _ => mret (Some t, None)
        | None =>
            if negb exist_ then Create s (Some t)
            else
              r ← backend_do MgFindOneAndReplace (FindOneAndReplace (c s) id t);
              mret (Some t, sr_Err r)
        end
  end.

(** The loop of [Delete] over the entities read before the deletion;
    the result of [ClearCache] is dropped. *)
Fixpoint Delete_loop (s : t) (objs : list T) : M DB unit :=
  match objs with
  | [] => mret tt
  | v :: rest =>
      _ ← ClearCache s (GetID v) (ListIndexes v);
      Delete_loop s rest
  end.

Definition Delete (s : t) (ids : list I) : M DB (Z * error) :=
  if decide (length ids = 0%nat) then mret (0, None)
  else
    '(objs, err) ← List s ids;
    match err with
    | Some e => mret (0, Some e)
    | None =>
        '(deletedCount, err) ← backend_do MgDeleteMany (DeleteMany (c s) ids);
        match err with
        | Some e => mret (0, Some e)
        | None =>
            _ ← Delete_loop s objs;
            mret (deletedCount, err)
        end
    end.

Definition Update (s : t) (id : I) (values : Any) : M DB (Z * error) :=
  if IsNullID id then mret (0, None)
  else
    '(old, _, err) ← Get s id;
    match err with
    | Some e => mret (0, Some e)
    | None =>
        match as_map values with
        | None =>
            mret (0, Some (ErrorsNew "RedisMongo.Update not support this type of update values, only support map[string]interface{}"))
        | Some m =>
            let setD := foldl (λ setD kv, setD ++ [kv]) [] m in
            '(matchedCount, err) ← backend_do MgUpdateOne (UpdateOne (c s) id setD);
            match err with
            | Some e => mret (0, Some e)
            | None =>
                '(newObj, _, err) ← Get s id;
                match err with
                | Some e => mret (0, Some e)
                | None =>
                    _ ← ClearCache s (GetID old)
                          (Merge (ListIndexes old) (ListIndexes newObj));
                    mret (matchedCount, None)
                end
            end
        end
    end.

End defs.
#[global] Arguments t : clear implicits.
End RedisMongo.

(** ** The GORM adapter (package gormredis)

    [Gorm[T, I]] implements the backend interface on a [*gorm.DB].  The
    chains it builds are taken as given: [First(&r, id)], [Create(r)],
    [Save(r)], [Model(&old).Updates(values)], [Delete(new(T), ids)],
    [Find(&r, ids)] and [Find(&r)], each with the [Error] (and
    [RowsAffected]) of its result.  The methods are transformers of the
    database state, so they can stand behind [FullRedisCache]. *)

Record GormDB (T I Any DB : Type) : Type := mkGormDB {
  gorm_First : I → T → DB → (T * error) * DB;
  gorm_Create : T → DB → (T * error) * DB;
  gorm_Save : T → DB → (T * error) * DB;
  gorm_Updates : T → Any → DB → (Z * error) * DB;
  gorm_Delete : list I → DB → (Z * error) * DB;
  gorm_Find : list I → DB → (list T * error) * DB;
  gorm_FindAll : DB → (list T * error) * DB;
}.
#[global] Arguments gorm_First {T I Any DB} _ _ _ _.
#[global] Arguments gorm_Create {T I Any DB} _ _ _.
#[global] Arguments gorm_Save {T I Any DB} _ _ _.
#[global] Arguments gorm_Updates {T I Any DB} _ _ _ _.
#[global] Arguments gorm_Delete {T I Any DB} _ _ _.
#[global] Arguments gorm_Find {T I Any DB} _ _ _.
#[global] Arguments gorm_FindAll {T I Any DB} _ _.

Module Gorm.
Section defs.
Context {DB Any T I Index : Type}.
Context `{!GoZero T, !Table T I Index}.

(** [gorm.ErrRecordNotFound], declared as [errors.New("record not found")]. *)
Definition ErrRecordNotFound : err := ErrorsNew "record not found".

Definition Get (db : GormDB T I Any DB) (id : I) (d : DB)
    : (T * bool * error) * DB :=
  let r : T := zero in
  let '((r, err), d) := gorm_First db id r d in
  match err with
  | Some e =>
      if decide (e = ErrRecordNotFound) then ((r, false, None), d)
      else ((r, false, Some e), d)
  | None => ((r, true, None), d)
  end.

Definition Create (db : GormDB T I Any DB) (r : T) (d : DB) : (T * error) * DB :=
  let '((r, err), d) := gorm_Create db r d in
  match err with
  | Some e => ((r, Some e), d)
  | None => ((r, None), d)
  end.

Definition Save (db : GormDB T I Any DB) (r : T) (d : DB) : (T * error) * DB :=
  let '((_, exists_, err), d) := Get db (GetID r) d in
  match err with
  | Some e => ((r, Some e), d)
  | None =>
      if negb exists_ then Create db r d
      else gorm_Save db r d
  end.

Definition Update (db : GormDB T I Any DB) (id : I) (values : Any) (d : DB)
    : (Z * error) * DB :=
  let '((old, exists_, err), d) := Get db id d in
  match err with
  | Some e => ((0, Some e), d)
  | None =>
      if negb exists_ then ((0, None), d)
      else
        let '((rowsAffected, err), d) := gorm_Updates db old values d in
        match err with
        | Some e => ((0, Some e), d)
        | None => ((rowsAffected, None), d)
        end
  end.

Definition Delete (db : GormDB T I Any DB) (ids : list I) (d : DB)
    : (Z * error) * DB :=
  let '((rowsAffected, err), d) := gorm_Delete db ids d in
  match err with
  | Some e => ((0, Some e), d)
  | None => ((rowsAffected, None), d)
  end.

Definition List (db : GormDB T I Any DB) (ids : list I) (d : DB)
    : (list T * error) * DB :=
  gorm_Find db ids d.

Definition ListAll (db : GormDB T I Any DB) (d : DB) : (list T * error) * DB :=
  let '((r, err), d) := gorm_FindAll db d in
  match err with
  | Some e => (([], Some e), d)
  | None => ((r, None), d)
  end.

(** [&Gorm[T, I]{db: db}] as the backend of the whole-collection cache
    ([NewGormRedisFull]). *)
Definition backend_of (db : GormDB T I Any DB) : FullDBCache T I Any DB :=
  mkFullDBCache T I Any DB (Create db) (Save db) (Update db) (Delete db)
    (ListAll db).

End defs.
End Gorm.

(** ** A concrete instance

    A user table with two secondary indexes, an in-memory backend with
    scripted failures and a line-oriented codec, on which the definitions
    above can be run. *)

Module Fixture.

Record user : Type := User { uid : string; uname : string; uemail : string }.

#[global] Instance user_eq_dec : EqDecision user.
Proof. solve_decision. Defined.

#[global] Instance user_zero : GoZero user := User "" "" "".

(** An index is an ordered mapping from field names to values. *)
Definition index : Type := list (string * string).

#[global] Instance user_table : Table user string index :=
  mkTable user string index uid
    (λ u, [[("name", uname u)]; [("email", uemail u)]]).

#[global] Instance helpers : Helpers string index :=
  mkHelpers string index (λ id, bool_decide (id = "")) (λ id, id)
    (λ field id, [(field, id)]).

(** The rows of [unicode.CaseRanges] for Latin-1: the capitals U+00C0 to
    U+00DE, the multiplication sign apart, are 32 below their small
    letters. *)
Definition To_LowerCase (r : Z) : Z :=
  (if (0xC0 <=? r) && (r <=? 0xDE) && negb (r =? 0xD7) then r + 32 else r)%Z.

#[global] Instance unicode_lower : Strings.UnicodeLower :=
  Strings.unicode_lower_of To_LowerCase.

(** Values of type [interface{}]: an entity, a string, a map of strings,
    or a channel (which no codec can marshal). *)
Inductive any : Type :=
| AUser (u : user)
| AStr (s : string)
| AMap (m : list (string * string))
| AChan.

Definition as_map (v : any) : option (list (string * any)) :=
  match v with
  | AMap m => Some (map (λ kv, (kv.1, AStr kv.2)) m)
  | _ => None
  end.

Fixpoint split_on (sep : ascii) (s : string) (cur : string) : list string :=
  match s with
  | EmptyString => [cur]
  | String ch rest =>
      if decide (ch = sep) then cur :: split_on sep rest ""
      else split_on sep rest (cur +:+ String ch "")
  end.

Definition sep : ascii := "|"%char.

Definition marshal (v : any) : string * error :=
  match v with
  | AUser u => (uid u +:+ "|" +:+ uname u +:+ "|" +:+ uemail u, None)
  | AStr s => (s, None)
  | AMap _ => ("", Some (SerializeErr "map"))
  | AChan => ("", Some (SerializeErr "unsupported type: chan"))
  end.

(** Decoding [null] leaves the target as it is, as JSON decoders do. *)
Definition unmarshal (data : string) (r : user) : user * error :=
  if decide (data = "null") then (r, None)
  else
    match split_on sep data "" with
    | [a; b; c] => (User a b c, None)
    | _ => (r, Some (SerializeErr "malformed"))
    end.

Definition codec : Serializer any user := mkSerializer any user marshal unmarshal.

Definition reflect_SetString (field x : string) (u : user) : outcome user :=
  if decide (field = "ID") then Done (User x (uname u) (uemail u))
  else Panic "reflect: call of reflect.Value.SetString on zero Value".

(** Cache keys: [{prefix}/{table}/{field}/{value}], lowercased. *)
Definition MakeCacheKey (b : CacheBase) (i : index) : string :=
  Strings.ToLower
    (foldl (λ acc kv, acc +:+ "/" +:+ kv.1 +:+ "/" +:+ kv.2)
           (prefix b +:+ "/" +:+ table b) i).

(** The backend: the rows of the table and a failure script, consumed one
    flag per call like the one of the Redis server. *)
Record store : Type := Store { rows : list user; script : list bool }.

Definition attempt {A : Type} (d : store) (on_fault : A)
    (body : list user → A * list user) : A * store :=
  match script d with
  | true :: fs => (on_fault, Store (rows d) fs)
  | false :: fs => let '(a, rs) := body (rows d) in (a, Store rs fs)
  | [] => let '(a, rs) := body (rows d) in (a, Store rs [])
  end.

Definition down : err := BackendErr "connection refused".

Definition find (id : string) (rs : list user) : option user :=
  list_find (λ u, uid u = id) rs ≫= λ p, Some p.2.

Definition set_fields (m : list (string * string)) (u : user) : user :=
  foldl (λ u kv,
    if decide (kv.1 = "name") then User (uid u) kv.2 (uemail u)
    else if decide (kv.1 = "email") then User (uid u) (uname u) kv.2
    else u) u m.

Definition update_rows (id : string) (m : list (string * string))
    (rs : list user) : Z * list user :=
  match find id rs with
  | None => (0, rs)
  | Some _ => (1, map (λ u, if decide (uid u = id) then set_fields m u else u) rs)
  end.

Definition delete_rows (ids : list string) (rs : list user) : Z * list user :=
  let keep := filter (λ u, uid u ∉ ids) rs in
  (Z.of_nat (length rs) - Z.of_nat (length keep), keep).

Definition strings_of (m : list (string * any)) : list (string * string) :=
  omap (λ kv, match kv.2 with AStr s => Some (kv.1, s) | _ => None end) m.

Definition full_db : FullDBCache user string any store := {|
  db_Create := λ u d, attempt d (u, Some down) (λ rs, ((u, None), rs ++ [u]));
  db_Save := λ u d, attempt d (u, Some down) (λ rs,
    ((u, None), map (λ v, if decide (uid v = uid u) then u else v) rs));
  db_Update := λ id values d, attempt d (0, Some down) (λ rs,
    match values with
    | AMap m => let '(n, rs) := update_rows id m rs in ((n, None), rs)
    | _ => ((0, Some (BackendErr "unsupported values")), rs)
    end);
  db_Delete := λ ids d, attempt d (0, Some down) (λ rs,
    let '(n, rs) := delete_rows ids rs in ((n, None), rs));
  db_ListAll := λ d, attempt d ([], Some down) (λ rs, ((rs, None), rs));
|}.

Definition found (u : user) : SingleResult user := mkSingleResult None (λ _, (u, None)).
Definition failed (e : err) : SingleResult user := mkSingleResult (Some e) (λ t, (t, Some e)).

Definition collection : MongoCollection user string any store := {|
  FindOne := λ id d, attempt d (failed down) (λ rs,
    (match find id rs with Some u => found u | None => failed ErrNoDocuments end, rs));
  Find := λ ids d, attempt d (Some down, ([], Some down)) (λ rs,
    ((None, (filter (λ u, uid u ∈ ids) rs, None)), rs));
  InsertOne := λ u d, attempt d (Some down) (λ rs,
    match find (uid u) rs with
    | Some _ => (Some (BackendErr "duplicate key"), rs)
    | None => (None, rs ++ [u])
    end);
  FindOneAndReplace := λ id u d, attempt d (failed down) (λ rs,
    match find id rs with
    | Some old => (found old, map (λ v, if decide (uid v = id) then u else v) rs)
    | None => (failed ErrNoDocuments, rs)
    end);
  DeleteMany := λ ids d, attempt d (0, Some down) (λ rs,
    let '(n, rs) := delete_rows ids rs in ((n, None), rs));
  UpdateOne := λ id setD d, attempt d (0, Some down) (λ rs,
    let '(n, rs) := update_rows id (strings_of setD) rs in ((n, None), rs));
  NewObjectIDHex := λ d, ("oid" +:+ String (ascii_of_nat (48 + length (rows d) `mod` 10)) "", d);
|}.

Definition ttl : Duration := 60000000000.

Definition users_base : CacheBase := mkCacheBase "App" "Users" "ID".

Definition json_store : RedisJson.t any user := RedisJson.mk codec ttl.

Definition full_cache : FullRedisCache.t store any user string :=
  FullRedisCache.mk users_base full_db (RedisHashJson.mk codec ttl).

Definition coordinator : RedisMongo.t store any user :=
  RedisMongo.mk users_base collection.

Definition alice : user := User "u1" "alice" "a@x.org".
Definition bob : user := User "u2" "bob" "b@x.org".

Definition world (rs : list user) (db_script : list bool)
    (ks : gmap string Redis.entry) (redis_script : list bool) : World store :=
  mkWorld (Store rs db_script) (Redis.Server ks redis_script) [].

Definition w_empty : World store := world [] [] ∅ [].
Definition w_users : World store := world [alice; bob] [] ∅ [].
Definition w_db_down : World store := world [alice] [true] ∅ [].
Definition w_db_down_second : World store := world [alice] [false; true] ∅ [].

(** The backend write succeeds and the reload that follows fails. *)
Definition w_reload_down : World store := world [alice; bob] [false; true] ∅ [].
Definition w_save_reload_down : World store :=
  world [alice; bob] [false; false; true] ∅ [].

Definition alicia : user := User "u1" "alicia" "a@x.org".
Definition carol : user := User "u3" "carol" "c@x.org".

Definition cached (u : user) : Redis.entry :=
  Redis.Entry (Redis.RString (marshal (AUser u)).1) (Some ttl).

(** Both users are in the backend; the cache holds them under their
    primary keys and [alice] under her name. *)
Definition w_cached : World store :=
  world [alice; bob] []
    (<["app/users/id/u1" := cached alice]>
       (<["app/users/name/alice" := cached alice]>
          (<["app/users/id/u2" := cached bob]> ∅))) [].

Definition bad_batch : list (string * any) :=
  [("k1", AUser alice); ("k2", AChan); ("k3", AUser bob)].
Definition good_batch : list (string * any) :=
  [("k1", AUser alice); ("k2", AUser bob)].

(** The users as the snapshot of the whole-collection cache holds them. *)
Definition snapshot : gmap string string :=
  <["u1" := "u1|alice|a@x.org"]> (<["u2" := "u2|bob|b@x.org"]> ∅).

Definition hash_store : RedisHashJson.t any user := RedisHashJson.mk codec ttl.

(** Both users in the backend and in a loaded snapshot. *)
Definition w_loaded : World store :=
  world [alice; bob] []
    (<["app/users/full" := Redis.Entry (Redis.RHash snapshot) (Some ttl)]> ∅) [].

(** A snapshot with an entry that does not decode between two that do. *)
Definition w_corrupt : World store :=
  world [alice; bob] []
    (<["app/users/full" :=
         Redis.Entry (Redis.RHash (<["u3" := "garbage"]> snapshot)) (Some ttl)]> ∅) [].

(** A string that does not decode, under a key of its own. *)
Definition w_garbage : World store :=
  world [alice; bob] []
    (<["app/users/id/u3" := Redis.Entry (Redis.RString "garbage") (Some ttl)]>
       (<["app/users/id/u1" := cached alice]> ∅)) [].

(** The cache of [w_cached] behind a connection that fails once. *)
Definition w_cached_redis_down : World store :=
  world [alice; bob] []
    (<["app/users/id/u1" := cached alice]>
       (<["app/users/name/alice" := cached alice]>
          (<["app/users/id/u2" := cached bob]> ∅))) [true].

(** The second command sent to Redis fails. *)
Definition w_second_cmd_down : World store := world [] [] ∅ [false; true].

(** The users behind a GORM handle. *)
Definition gorm_db : GormDB user string any store := {|
  gorm_First := λ id t d, attempt d (t, Some down) (λ rs,
    (match find id rs with
     | Some u => (u, None)
     | None => (t, Some Gorm.ErrRecordNotFound)
     end, rs));
  gorm_Create := λ u d, attempt d (u, Some down) (λ rs, ((u, None), rs ++ [u]));
  gorm_Save := λ u d, attempt d (u, Some down) (λ rs,
    ((u, None), map (λ v, if decide (uid v = uid u) then u else v) rs));
  gorm_Updates := λ old values d, attempt d (0, Some down) (λ rs,
    match values with
    | AMap m => let '(n, rs) := update_rows (uid old) m rs in ((n, None), rs)
    | _ => ((0, Some (BackendErr "unsupported values")), rs)
    end);
  gorm_Delete := λ ids d, attempt d (0, Some down) (λ rs,
    let '(n, rs) := delete_rows ids rs in ((n, None), rs));
  gorm_Find := λ ids d, attempt d ([], Some down) (λ rs,
    ((filter (λ u, uid u ∈ ids) rs, None), rs));
  gorm_FindAll := λ d, attempt d ([], Some down) (λ rs, ((rs, None), rs));
|}.

(** A table whose prefix starts with a capital outside ASCII. *)
Definition umlaut_base : CacheBase := mkCacheBase "Äpp" "Users" "ID".

Definition umlaut_cache : FullRedisCache.t store any user string :=
  FullRedisCache.mk umlaut_base full_db (RedisHashJson.mk codec ttl).


End Fixture.
Import Fixture.


(** * Properties *)

(** Unfolds the plumbing of effectful code. *)
Ltac run :=
  unfold mbind, M_bind, mret, M_ret, panic, cache_call, backend_do; simpl.

(** ** Traces *)

Lemma cache_cmds_app (a b : list event) :
  cache_cmds (a ++ b) = cache_cmds a ++ cache_cmds b.
Proof. unfold cache_cmds. apply omap_app. Qed.

Lemma cache_cmds_backend (tr : list event) (c : backend_call) :
  cache_cmds (tr ++ [Backend c]) = cache_cmds tr.
Proof. rewrite cache_cmds_app. simpl. apply app_nil_r. Qed.

Lemma cache_cmds_cache (tr : list event) (c : Redis.cmd) :
  cache_cmds (tr ++ [Cache c]) = cache_cmds tr ++ [c].
Proof. rewrite cache_cmds_app. reflexivity. Qed.

Lemma foldl_snoc {A} (acc l : list A) :
  foldl (λ acc x, acc ++ [x]) acc l = acc ++ l.
Proof.
  revert acc. induction l as [|x l IH]; intros acc; simpl.
  - by rewrite app_nil_r.
  - rewrite IH. by rewrite <- app_assoc.
Qed.

Lemma foldl_snoc_map {A B} (f : A → B) (acc : list B) (l : list A) :
  foldl (λ acc x, acc ++ [f x]) acc l = acc ++ map f l.
Proof.
  revert acc. induction l as [|x l IH]; intros acc; simpl.
  - by rewrite app_nil_r.
  - rewrite IH. by rewrite <- app_assoc.
Qed.

(** ** The Redis server *)

Module RedisFacts.

Lemma send_reachable {A} (r : Redis.t) (d : A) body :
  Redis.reachable r →
  Redis.send r d body =
    ((body (Redis.keyspace r)).1,
     Redis.Server (body (Redis.keyspace r)).2 (tl (Redis.faults r))).
Proof.
  unfold Redis.reachable, Redis.send, Redis.next_fault, Redis.with_keyspace.
  destruct r as [ks [|b fs]]; simpl; intros Hb.
  - destruct (body ks); reflexivity.
  - subst b. simpl. destruct (body ks); reflexivity.
Qed.

Lemma lookup_del_keys (keys : list string) (ks : gmap string Redis.entry) (k : string) :
  Redis.del_keys keys ks !! k = if decide (k ∈ keys) then None else ks !! k.
Proof.
  unfold Redis.del_keys. induction keys as [|a keys IH].
  - destruct (decide (k ∈ [])) as [Hin|_]; [by apply elem_of_nil in Hin | done].
  - cbn [foldr]. destruct (decide (a = k)) as [->|Hne].
    + rewrite lookup_delete_eq.
      destruct (decide (k ∈ k :: keys)) as [_|Hnin]; [done|].
      exfalso. apply Hnin. left.
    + rewrite lookup_delete_ne by done. rewrite IH.
      destruct (decide (k ∈ keys)) as [Hin|Hnin];
        destruct (decide (k ∈ a :: keys)) as [Hin'|Hnin']; try done.
      * exfalso. apply Hnin'. by right.
      * apply elem_of_cons in Hin' as [?|?]; congruence.
Qed.

Lemma SetEX_reachable (k v : string) (ttl : Duration) (r : Redis.t) :
  Redis.reachable r → 0 < ttl →
  Redis.SetEX k v ttl r =
    (None, Redis.Server (<[k := Redis.Entry (Redis.RString v) (Some ttl)]> (Redis.keyspace r))
                        (tl (Redis.faults r))).
Proof.
  intros Hr Httl. unfold Redis.SetEX. rewrite send_reachable by done.
  destruct (Z.leb_spec ttl 0); [lia | reflexivity].
Qed.

Lemma Get_reachable (k v : string) (ttl : option Duration) (r : Redis.t) :
  Redis.reachable r →
  Redis.keyspace r !! k = Some (Redis.Entry (Redis.RString v) ttl) →
  Redis.Get k r = ((v, None), Redis.Server (Redis.keyspace r) (tl (Redis.faults r))).
Proof.
  intros Hr Hk. unfold Redis.Get. rewrite send_reachable by done.
  rewrite Hk. reflexivity.
Qed.

End RedisFacts.

(** ** The whole-collection cache *)

Section FullRedisCacheFacts.
Context {DB Any T I Index : Type}.
Context `{!GoZero T, !Table T I Index, !Helpers I Index}.
Context `{!Strings.UnicodeLower}.
Context (box : T → Any) (s : FullRedisCache.t DB Any T I).

Lemma full_Update_null_id (id : I) (values : Any) (w : World DB) :
  IsNullID id = true →
  FullRedisCache.Update box s id values w = (Done (0, None), w).
Proof. intros Hnull. unfold FullRedisCache.Update. rewrite Hnull. reflexivity. Qed.

Lemma full_Create_backend_error (r r' : T) (e : err) (b' : DB) (w : World DB) :
  db_Create (FullRedisCache.db s) r (backend w) = ((r', Some e), b') →
  FullRedisCache.Create box s r w =
    (Done (r', Some e), mkWorld b' (redis w) (trace w ++ [Backend DbCreate])).
Proof. intros Hdb. unfold FullRedisCache.Create. run. rewrite Hdb. reflexivity. Qed.

Lemma full_Update_backend_error (id : I) (values : Any) (n : Z) (e : err)
    (b' : DB) (w : World DB) :
  IsNullID id = false →
  db_Update (FullRedisCache.db s) id values (backend w) = ((n, Some e), b') →
  FullRedisCache.Update box s id values w =
    (Done (0, Some e), mkWorld b' (redis w) (trace w ++ [Backend DbUpdate])).
Proof.
  intros Hid Hdb. unfold FullRedisCache.Update. rewrite Hid. run.
  rewrite Hdb. reflexivity.
Qed.

Lemma full_Delete_backend_error (ids : list I) (n : Z) (e : err)
    (b' : DB) (w : World DB) :
  db_Delete (FullRedisCache.db s) ids (backend w) = ((n, Some e), b') →
  FullRedisCache.Delete box s ids w =
    (Done (0, Some e), mkWorld b' (redis w) (trace w ++ [Backend DbDelete])).
Proof. intros Hdb. unfold FullRedisCache.Delete. run. rewrite Hdb. reflexivity. Qed.

(** [load] always returns: nothing in it can panic. *)
Lemma load_returns (w : World DB) :
  ∃ err w', FullRedisCache.load box s w = (Done err, w').
Proof.
  unfold FullRedisCache.load, RedisHashJson.HSetJson. run.
  destruct (db_ListAll _ _) as [[r [e|]] b]; simpl; [eauto|].
  destruct (decide (length r = 0%nat)); simpl.
  - destruct (Redis.Expire _ _ _); eauto.
  - destruct (RedisHashJson.HSetJson_loop _ _ _ _) as [[e|]|args]; simpl.
    + eauto.
    + destruct (Redis.Expire _ _ _); eauto.
    + destruct (Redis.HSet _ _ _) as [[e|] r1]; simpl; [eauto|].
      destruct (Redis.Expire _ _ _); eauto.
Qed.

(** Once the backend has accepted the write, [Update] and [Delete] return
    what the backend returned, with a nil error, whatever [load] says. *)
Lemma full_Update_drops_reload_error (id : I) (values : Any) (n : Z)
    (b' : DB) (w : World DB) :
  IsNullID id = false →
  db_Update (FullRedisCache.db s) id values (backend w) = ((n, None), b') →
  ∃ w', FullRedisCache.Update box s id values w = (Done (n, None), w').
Proof.
  intros Hid Hdb. unfold FullRedisCache.Update. rewrite Hid.
  unfold mbind, M_bind at 1. unfold backend_do. rewrite Hdb. simpl.
  unfold mbind, M_bind.
  destruct (load_returns (mkWorld b' (redis w) (trace w ++ [Backend DbUpdate])))
    as (err & w' & ->).
  eauto.
Qed.

Lemma full_Delete_drops_reload_error (ids : list I) (n : Z) (b' : DB)
    (w : World DB) :
  db_Delete (FullRedisCache.db s) ids (backend w) = ((n, None), b') →
  ∃ w', FullRedisCache.Delete box s ids w = (Done (n, None), w').
Proof.
  intros Hdb. unfold FullRedisCache.Delete.
  unfold mbind, M_bind at 1. unfold backend_do. rewrite Hdb. simpl.
  unfold mbind, M_bind.
  destruct (load_returns (mkWorld b' (redis w) (trace w ++ [Backend DbDelete])))
    as (err & w' & ->).
  eauto.
Qed.

(** [Create] returns the error of [load]. *)
Lemma full_Create_returns_reload_error (r r' : T) (b' : DB) (err : error)
    (w w' : World DB) :
  db_Create (FullRedisCache.db s) r (backend w) = ((r', None), b') →
  FullRedisCache.load box s (mkWorld b' (redis w) (trace w ++ [Backend DbCreate]))
    = (Done err, w') →
  FullRedisCache.Create box s r w = (Done (r', err), w').
Proof.
  intros Hdb Hload. unfold FullRedisCache.Create.
  unfold mbind, M_bind at 1. unfold backend_do. rewrite Hdb. simpl.
  unfold mbind, M_bind. rewrite Hload. reflexivity.
Qed.

(** A [nil] slot reached by the decoding loop of [HMGetJson] is a panic. *)
Lemma HMGetJson_loop_nil_panics (red : RedisHashJson.t Any T)
    (pre : list string) (post : list (option string)) (acc : list T) :
  Forall (λ v, (Unmarshal (RedisHashJson.serializer red) v zero).2 = None) pre →
  RedisHashJson.HMGetJson_loop red ((Some <$> pre) ++ None :: post) acc
    = Panic "interface conversion: interface {} is nil, not string".
Proof.
  intros Hpre. revert acc.
  induction Hpre as [|v pre Hv _ IH]; intros acc; simpl; [done|].
  destruct (Unmarshal _ v zero) as [t err]. simpl in Hv. subst err.
  apply IH.
Qed.

End FullRedisCacheFacts.

(** ** The Mongo coordinator *)

Section RedisMongoFacts.
Context {DB Any T Index : Type}.
Context `{!GoZero T, !Table T string Index, !Helpers string Index}.
Context (MakeCacheKey : CacheBase → Index → string).
Context (as_map : Any → option (list (string * Any))).
Context (reflect_SetString : string → string → T → outcome T).
Context (s : RedisMongo.t DB Any T).

Local Abbreviation Get := (RedisMongo.Get s).
Local Abbreviation Create := (RedisMongo.Create MakeCacheKey reflect_SetString s).
Local Abbreviation Update := (RedisMongo.Update MakeCacheKey as_map s).
Local Abbreviation Delete := (RedisMongo.Delete MakeCacheKey s).

Lemma mongo_Update_null_id (id : string) (values : Any) (w : World DB) :
  IsNullID id = true → Update id values w = (Done (0, None), w).
Proof. intros Hnull. unfold RedisMongo.Update. rewrite Hnull. reflexivity. Qed.

(** [Get] is one [FindOne] on the collection; it never panics and never
    reaches the cache. *)
Lemma mongo_Get_run (id : string) (w : World DB) :
  ∃ res, Get id w =
    (Done res, mkWorld (FindOne (RedisMongo.c s) id (backend w)).2 (redis w)
                       (trace w ++ [Backend MgFindOne])).
Proof.
  unfold RedisMongo.Get. run.
  destruct (FindOne (RedisMongo.c s) id (backend w)) as [r b]. simpl.
  destruct (sr_Err r) as [e|].
  - destruct (decide (ErrNoDocuments = e)); eauto.
  - destruct (sr_Decode r zero). eauto.
Qed.

Lemma mongo_Get_found (id : string) (w : World DB) (r : SingleResult T)
    (b : DB) (u : T) :
  FindOne (RedisMongo.c s) id (backend w) = (r, b) →
  sr_Err r = None → sr_Decode r zero = (u, None) →
  Get id w = (Done (u, true, None),
              mkWorld b (redis w) (trace w ++ [Backend MgFindOne])).
Proof.
  intros Hf He Hd. unfold RedisMongo.Get. run. rewrite Hf, He, Hd. reflexivity.
Qed.

Lemma mongo_Create_backend_error (u : T) (e : err) (b' : DB) (w : World DB) :
  IsNullID (GetID u) = false →
  InsertOne (RedisMongo.c s) u (backend w) = (Some e, b') →
  Create (Some u) w =
    (Done (Some u, Some e), mkWorld b' (redis w) (trace w ++ [Backend MgInsertOne])).
Proof.
  intros Hid Hins. unfold RedisMongo.Create. rewrite Hid. run.
  rewrite Hins. reflexivity.
Qed.

Lemma mongo_Create_fresh_backend_error (u u' : T) (hex : string) (e : err)
    (b1 b2 : DB) (w : World DB) :
  IsNullID (GetID u) = true →
  NewObjectIDHex (RedisMongo.c s) (backend w) = (hex, b1) →
  reflect_SetString (idField (RedisMongo.base s)) hex u = Done u' →
  InsertOne (RedisMongo.c s) u' b1 = (Some e, b2) →
  Create (Some u) w =
    (Done (Some u', Some e),
     mkWorld b2 (redis w) (trace w ++ [Backend MgNewObjectID; Backend MgInsertOne])).
Proof.
  intros Hid Hhex Hset Hins. unfold RedisMongo.Create. rewrite Hid. run.
  rewrite Hhex. simpl. rewrite Hset. simpl. rewrite Hins. simpl.
  rewrite <- app_assoc. reflexivity.
Qed.

Lemma mongo_Update_backend_error (id : string) (values : Any)
    (m : list (string * Any)) (n : Z) (e : err) (b' : DB) (w : World DB) :
  IsNullID id = false →
  (∃ old found, (Get id w).1 = Done (old, found, None)) →
  as_map values = Some m →
  UpdateOne (RedisMongo.c s) id m (FindOne (RedisMongo.c s) id (backend w)).2
    = ((n, Some e), b') →
  Update id values w =
    (Done (0, Some e),
     mkWorld b' (redis w) (trace w ++ [Backend MgFindOne; Backend MgUpdateOne])).
Proof.
  intros Hid (old & fnd & Hget) Hmap Hupd.
  destruct (mongo_Get_run id w) as [res Hrun].
  rewrite Hrun in Hget. simpl in Hget. injection Hget as ->.
  unfold RedisMongo.Update. rewrite Hid. unfold mbind, M_bind at 1.
  rewrite Hrun. rewrite Hmap. rewrite foldl_snoc. simpl.
  run. rewrite Hupd. simpl. rewrite <- app_assoc. reflexivity.
Qed.

(** The replace path of [Save]: one [FindOne], one [FindOneAndReplace], and
    nothing for the cache. *)
Lemma mongo_Save_replace_run (u old : T) (r0 r1 : SingleResult T)
    (b1 b2 : DB) (w : World DB) :
  IsNullID (GetID u) = false →
  FindOne (RedisMongo.c s) (GetID u) (backend w) = (r0, b1) →
  sr_Err r0 = None → sr_Decode r0 zero = (old, None) →
  FindOneAndReplace (RedisMongo.c s) (GetID u) u b1 = (r1, b2) →
  RedisMongo.Save MakeCacheKey reflect_SetString s (Some u) w =
    (Done (Some u, sr_Err r1),
     mkWorld b2 (redis w)
       (trace w ++ [Backend MgFindOne; Backend MgFindOneAndReplace])).
Proof.
  intros Hid Hf He Hd Hrep. unfold RedisMongo.Save. rewrite Hid.
  unfold mbind, M_bind at 1.
  rewrite (mongo_Get_found (GetID u) w r0 b1 old Hf He Hd). simpl.
  run. rewrite Hrep. simpl. rewrite <- app_assoc. reflexivity.
Qed.

Lemma mongo_Delete_backend_error (ids : list string) (objs : list T)
    (n : Z) (e : err) (b1 b2 : DB) (w : World DB) :
  ids ≠ [] →
  Find (RedisMongo.c s) ids (backend w) = ((None, (objs, None)), b1) →
  DeleteMany (RedisMongo.c s) ids b1 = ((n, Some e), b2) →
  Delete ids w =
    (Done (0, Some e),
     mkWorld b2 (redis w) (trace w ++ [Backend MgFind; Backend MgDeleteMany])).
Proof.
  intros Hne Hfind Hdel. unfold RedisMongo.Delete, RedisMongo.List.
  destruct (decide (length ids = 0%nat)) as [Hlen|_].
  { destruct ids; [done | discriminate]. }
  run. rewrite Hfind. simpl. rewrite Hdel. simpl.
  rewrite <- app_assoc. reflexivity.
Qed.

End RedisMongoFacts.

(** ** Failed backend writes and null-ID updates *)

Lemma cache_untouched_backend {DB} (w : World DB) (b : DB) (cs : list backend_call) :
  cache_untouched w (mkWorld b (redis w) (trace w ++ map Backend cs)).
Proof.
  split; [reflexivity|]. simpl. rewrite cache_cmds_app.
  replace (cache_cmds (map Backend cs)) with (@nil Redis.cmd).
  - apply app_nil_r.
  - induction cs; simpl; auto.
Qed.

Section Mutations.
Context {DB Any T I Index : Type}.
Context `{!GoZero T, !Table T I Index, !Helpers I Index}.
Context `{!Strings.UnicodeLower}.
Context (box : T → Any) (full : FullRedisCache.t DB Any T I).
Context {DB' Any' U Index' : Type}.
Context `{!GoZero U, !Table U string Index', !Helpers string Index'}.
Context (MakeCacheKey : CacheBase → Index' → string).
Context (as_map : Any' → option (list (string * Any'))).
Context (reflect_SetString : string → string → U → outcome U).
Context (mongo : RedisMongo.t DB' Any' U).

(** C4. When the backend write of a mutation fails, the mutation returns
    that backend error and the cache is left alone: the Redis server is in
    the state it was in and no command was sent to it.  This holds for
    [Create], [Update] and [Delete] of the whole-collection cache and for
    [Create] (with an ID given or freshly assigned), [Update] and [Delete]
    of the Mongo coordinator. *)
Theorem backend_failure_leaves_cache_untouched :
  (∀ r r' e b' w,
     db_Create (FullRedisCache.db full) r (backend w) = ((r', Some e), b') →
     ∃ w', FullRedisCache.Create box full r w = (Done (r', Some e), w')
           ∧ cache_untouched w w')
  ∧ (∀ id values n e b' w,
     IsNullID id = false →
     db_Update (FullRedisCache.db full) id values (backend w) = ((n, Some e), b') →
     ∃ w', FullRedisCache.Update box full id values w = (Done (0, Some e), w')
           ∧ cache_untouched w w')
  ∧ (∀ ids n e b' w,
     db_Delete (FullRedisCache.db full) ids (backend w) = ((n, Some e), b') →
     ∃ w', FullRedisCache.Delete box full ids w = (Done (0, Some e), w')
           ∧ cache_untouched w w')
  ∧ (∀ u e b' w,
     IsNullID (GetID u) = false →
     InsertOne (RedisMongo.c mongo) u (backend w) = (Some e, b') →
     ∃ w', RedisMongo.Create MakeCacheKey reflect_SetString mongo (Some u) w
             = (Done (Some u, Some e), w')
           ∧ cache_untouched w w')
  ∧ (∀ u u' hex e b1 b2 w,
     IsNullID (GetID u) = true →
     NewObjectIDHex (RedisMongo.c mongo) (backend w) = (hex, b1) →
     reflect_SetString (idField (RedisMongo.base mongo)) hex u = Done u' →
     InsertOne (RedisMongo.c mongo) u' b1 = (Some e, b2) →
     ∃ w', RedisMongo.Create MakeCacheKey reflect_SetString mongo (Some u) w
             = (Done (Some u', Some e), w')
           ∧ cache_untouched w w')
  ∧ (∀ id values m n e b' w,
     IsNullID id = false →
     (∃ old found, (RedisMongo.Get mongo id w).1 = Done (old, found, None)) →
     as_map values = Some m →
     UpdateOne (RedisMongo.c mongo) id m
       (FindOne (RedisMongo.c mongo) id (backend w)).2 = ((n, Some e), b') →
     ∃ w', RedisMongo.Update MakeCacheKey as_map mongo id values w
             = (Done (0, Some e), w')
           ∧ cache_untouched w w')
  ∧ (∀ ids objs n e b1 b2 w,
     ids ≠ [] →
     Find (RedisMongo.c mongo) ids (backend w) = ((None, (objs, None)), b1) →
     DeleteMany (RedisMongo.c mongo) ids b1 = ((n, Some e), b2) →
     ∃ w', RedisMongo.Delete MakeCacheKey mongo ids w = (Done (0, Some e), w')
           ∧ cache_untouched w w').
Proof.
  repeat split.
  - intros. eexists. split; [by eapply full_Create_backend_error|].
    apply (cache_untouched_backend w b' [DbCreate]).
  - intros. eexists. split; [by eapply full_Update_backend_error|].
    apply (cache_untouched_backend w b' [DbUpdate]).
  - intros. eexists. split; [by eapply full_Delete_backend_error|].
    apply (cache_untouched_backend w b' [DbDelete]).
  - intros. eexists. split; [by eapply mongo_Create_backend_error|].
    apply (cache_untouched_backend w b' [MgInsertOne]).
  - intros. eexists. split; [by eapply mongo_Create_fresh_backend_error|].
    apply (cache_untouched_backend w b2 [MgNewObjectID; MgInsertOne]).
  - intros. eexists. split; [by eapply mongo_Update_backend_error|].
    apply (cache_untouched_backend w b' [MgFindOne; MgUpdateOne]).
  - intros. eexists. split; [by eapply mongo_Delete_backend_error|].
    apply (cache_untouched_backend w b2 [MgFind; MgDeleteMany]).
Qed.

(** C10. An update of a null ID returns [(0, nil)] at once, in the
    whole-collection cache and in the Mongo coordinator alike: the world is
    returned as it was given, so no backend call was made and no cache
    command was sent. *)
Theorem update_null_id_is_noop :
  (∀ (id : I) (values : Any) (w : World DB),
     IsNullID id = true →
     FullRedisCache.Update box full id values w = (Done (0, None), w))
  ∧ (∀ (id : string) (values : Any') (w : World DB'),
     IsNullID id = true →
     RedisMongo.Update MakeCacheKey as_map mongo id values w = (Done (0, None), w)).
Proof.
  split; intros.
  - by apply full_Update_null_id.
  - by apply mongo_Update_null_id.
Qed.

End Mutations.

(** Run on the user table: an update of the empty ID changes nothing. *)
Lemma update_null_id_is_noop_witness :
  IsNullID "" = true
  ∧ FullRedisCache.Update AUser full_cache "" (AMap [("name", "al")]) w_users
      = (Done (0, None), w_users)
  ∧ RedisMongo.Update MakeCacheKey as_map coordinator "" (AMap [("name", "al")]) w_users
      = (Done (0, None), w_users).
Proof.
  destruct (update_null_id_is_noop AUser full_cache MakeCacheKey as_map coordinator)
    as [Hfull Hmongo].
  split; [reflexivity|]. split; [apply Hfull | apply Hmongo]; reflexivity.
Defined.

(** Run on the user table with a backend that refuses the write. *)
Lemma backend_failure_leaves_cache_untouched_witness :
  (∃ w', FullRedisCache.Create AUser full_cache bob w_db_down = (Done (bob, Some down), w')
         ∧ cache_untouched w_db_down w')
  ∧ (∃ w', FullRedisCache.Update AUser full_cache "u1" (AMap [("name", "al")]) w_db_down
             = (Done (0, Some down), w')
         ∧ cache_untouched w_db_down w')
  ∧ (∃ w', FullRedisCache.Delete AUser full_cache ["u1"] w_db_down = (Done (0, Some down), w')
         ∧ cache_untouched w_db_down w')
  ∧ (∃ w', RedisMongo.Create MakeCacheKey reflect_SetString coordinator (Some bob) w_db_down
             = (Done (Some bob, Some down), w')
         ∧ cache_untouched w_db_down w')
  ∧ (∃ w', RedisMongo.Create MakeCacheKey reflect_SetString coordinator
             (Some (User "" "carol" "c@x.org")) w_db_down
             = (Done (Some (User "oid1" "carol" "c@x.org"), Some down), w')
         ∧ cache_untouched w_db_down w')
  ∧ (∃ w', RedisMongo.Update MakeCacheKey as_map coordinator "u1"
             (AMap [("name", "al")]) w_db_down_second = (Done (0, Some down), w')
         ∧ cache_untouched w_db_down_second w')
  ∧ (∃ w', RedisMongo.Delete MakeCacheKey coordinator ["u1"] w_db_down_second
             = (Done (0, Some down), w')
         ∧ cache_untouched w_db_down_second w').
Proof.
  destruct (backend_failure_leaves_cache_untouched AUser full_cache MakeCacheKey
              as_map reflect_SetString coordinator)
    as (HC & HU & HD & HmC & HmF & HmU & HmD).
  split; [|split; [|split; [|split; [|split; [|split]]]]].
  - eapply HC. reflexivity.
  - eapply HU; reflexivity.
  - eapply HD. reflexivity.
  - eapply HmC; reflexivity.
  - eapply HmF; reflexivity.
  - eapply HmU; [reflexivity | eexists _, _; reflexivity | reflexivity | reflexivity].
  - eapply HmD; [discriminate | reflexivity | reflexivity].
Defined.

(** ** The keyed store *)

Section RedisJsonFacts.
Context {DB Any T : Type} `{!GoZero T}.
Context (box : T → Any) (s : RedisJson.t Any T).

Local Abbreviation ser := (RedisJson.serializer s).

Lemma Expires_loop_queues (keys : list string) (p : Redis.Pipeline) :
  RedisJson.Expires_loop s keys p = inr (p ++ RedisJson.expire_batch s keys).
Proof.
  revert p. induction keys as [|k keys IH]; intros p; simpl.
  - by rewrite app_nil_r.
  - rewrite IH. by rewrite <- app_assoc.
Qed.

Lemma Expires_run (keys : list string) (w : World DB) :
  keys ≠ [] →
  RedisJson.Expires s keys w =
    (Done (Redis.Exec (RedisJson.expire_batch s keys) (redis w)).1,
     mkWorld (backend w) (Redis.Exec (RedisJson.expire_batch s keys) (redis w)).2
             (trace w ++ [Cache (Redis.CExec (RedisJson.expire_batch s keys))])).
Proof.
  intros Hne. unfold RedisJson.Expires.
  destruct (decide (length keys = 0%nat)) as [Hlen|_].
  { destruct keys; [done | discriminate]. }
  rewrite Expires_loop_queues. simpl. unfold cache_call.
  destruct (Redis.Exec _ _). reflexivity.
Qed.

Lemma MSetJson_loop_all (entries : list (string * Any))
    (acc : gmap string string) (keys : list string) :
  Forall (RedisJson.marshals s) entries →
  RedisJson.MSetJson_loop s entries acc keys =
    inr (RedisJson.marshalled s entries acc, keys ++ entries.*1).
Proof.
  intros Hall. revert acc keys.
  induction Hall as [|[k v] entries Hkv _ IH]; intros acc keys; simpl.
  - by rewrite app_nil_r.
  - unfold RedisJson.marshals in Hkv. simpl in Hkv.
    destruct (Marshal ser v) as [y err] eqn:Hm. simpl in Hkv. subst err.
    rewrite IH. unfold RedisJson.marshalled. simpl.
    by rewrite <- app_assoc.
Qed.

Lemma MSetJson_loop_first_error (pre post : list (string * Any)) (k : string)
    (v : Any) (y : string) (e : err) (acc : gmap string string)
    (keys : list string) :
  Forall (RedisJson.marshals s) pre →
  Marshal ser v = (y, Some e) →
  RedisJson.MSetJson_loop s (pre ++ (k, v) :: post) acc keys = inl (Some e).
Proof.
  intros Hpre Hv. revert acc keys.
  induction Hpre as [|[k' v'] pre Hkv _ IH]; intros acc keys; simpl.
  - rewrite Hv. reflexivity.
  - unfold RedisJson.marshals in Hkv. simpl in Hkv.
    destruct (Marshal ser v') as [y' err] eqn:Hm. simpl in Hkv. subst err.
    apply IH.
Qed.

(** The first entry that does not marshal. *)
Lemma first_failing_entry (entries : list (string * Any)) :
  Exists (λ kv, ¬ RedisJson.marshals s kv) entries →
  ∃ pre k v y e post,
    entries = pre ++ (k, v) :: post
    ∧ Forall (RedisJson.marshals s) pre
    ∧ Marshal ser v = (y, Some e).
Proof.
  induction entries as [|[k v] entries IH]; intros Hex.
  - by apply Exists_nil in Hex.
  - destruct (Marshal ser v) as [y [e|]] eqn:Hm.
    + exists [], k, v, y, e, entries. by repeat split.
    + apply Exists_cons in Hex as [Hbad|Hex].
      { exfalso. apply Hbad. unfold RedisJson.marshals. simpl. by rewrite Hm. }
      destruct (IH Hex) as (pre & k' & v' & y' & e' & post & -> & Hpre & Hv').
      exists ((k, v) :: pre), k', v', y', e', post. repeat split; [|done].
      constructor; [|done]. unfold RedisJson.marshals. simpl. by rewrite Hm.
Qed.

(** C7. [MSetJson] marshals every value before it writes anything.  If a
    value fails to marshal, the call returns the error of the first such
    value and the world is as it was: no command reached the cache.  If
    every value marshals, the first command sent is one MSET of all the
    pairs; when that fails its error is returned, and when it succeeds it
    is followed by one pipeline that sets the time-to-live of every key,
    whose error, if any, is returned.  (An empty batch sends nothing.) *)
Theorem MSetJson_serializes_before_writing (objMap : list (string * Any))
    (w : World DB) :
  (∀ pre k v y e post,
     objMap = pre ++ (k, v) :: post →
     Forall (RedisJson.marshals s) pre →
     Marshal ser v = (y, Some e) →
     RedisJson.MSetJson s objMap w = (Done (Some e), w))
  ∧ (Exists (λ kv, ¬ RedisJson.marshals s kv) objMap →
     ∃ e, RedisJson.MSetJson s objMap w = (Done (Some e), w))
  ∧ (Forall (RedisJson.marshals s) objMap →
     objMap ≠ [] →
     let pairs := RedisJson.marshalled s objMap ∅ in
     let batch := RedisJson.expire_batch s objMap.*1 in
     let w1 := mkWorld (backend w) (Redis.MSet pairs (redis w)).2
                       (trace w ++ [Cache (Redis.CMSet pairs)]) in
     RedisJson.MSetJson s objMap w =
       match (Redis.MSet pairs (redis w)).1 with
       | Some e => (Done (Some e), w1)
       | None =>
           (Done (Redis.Exec batch (redis w1)).1,
            mkWorld (backend w) (Redis.Exec batch (redis w1)).2
                    (trace w1 ++ [Cache (Redis.CExec batch)]))
       end)
  ∧ (objMap = [] → RedisJson.MSetJson s objMap w = (Done None, w)).
Proof.
  assert (Hfail : ∀ pre k v y e post,
     objMap = pre ++ (k, v) :: post →
     Forall (RedisJson.marshals s) pre →
     Marshal ser v = (y, Some e) →
     RedisJson.MSetJson s objMap w = (Done (Some e), w)).
  { intros pre k v y e post -> Hpre Hv. unfold RedisJson.MSetJson.
    destruct (decide _) as [Hlen|_].
    { rewrite length_app in Hlen. simpl in Hlen. lia. }
    by rewrite (MSetJson_loop_first_error pre post k v y e). }
  split; [exact Hfail|]. split; [|split].
  - intros Hex.
    destruct (first_failing_entry objMap Hex)
      as (pre & k & v & y & e & post & Heq & Hpre & Hv).
    exists e. by eapply Hfail.
  - intros Hall Hne pairs batch w1. unfold RedisJson.MSetJson.
    destruct (decide _) as [Hlen|_].
    { destruct objMap; [done | discriminate]. }
    rewrite MSetJson_loop_all by done. simpl. run.
    fold pairs. subst w1.
    destruct (Redis.MSet pairs (redis w)) as [[e|] r1]; simpl; [reflexivity|].
    rewrite Expires_run; [reflexivity|].
    destruct objMap; [done | discriminate].
  - intros ->. reflexivity.
Qed.


(** C2, as the code has it.  After a successful [SetNull k], [GetJson k]
    (while the key still holds the sentinel) reports the key as present:
    it returns [(r, true, err)] where [r] and [err] are what the serializer
    makes of the literal [null] decoded into a zero value.  For a codec on
    which [null] is a no-op this is [(zero, true, nil)]. *)
Theorem SetNull_GetJson_reports_present (k : string) (r : T) (err : error)
    (w0 : World DB) :
  Unmarshal ser "null" zero = (r, err) →
  0 < RedisJson.ttl s →
  Redis.reachable (redis w0) →
  ∃ w1, RedisJson.SetNull s k w0 = (Done None, w1)
    ∧ ∀ w2 : World DB, Redis.keyspace (redis w2) !! k = Redis.keyspace (redis w1) !! k →
            Redis.reachable (redis w2) →
            ∃ w3, RedisJson.GetJson s k w2 = (Done (r, true, err), w3).
Proof.
  intros Hu Httl Hr0. unfold RedisJson.SetNull. run.
  rewrite RedisFacts.SetEX_reachable by done.
  eexists. split; [reflexivity|]. simpl. intros w2 Hk Hr2.
  rewrite lookup_insert_eq in Hk.
  unfold RedisJson.GetJson. run.
  rewrite (RedisFacts.Get_reachable k "null" _ _ Hr2 Hk). rewrite Hu.
  eexists. reflexivity.
Qed.

End RedisJsonFacts.

(** Run on the user table: a batch holding a channel is rejected before
    any write; a batch of two users is written by one MSET and one pipeline. *)
Lemma MSetJson_serializes_before_writing_witness :
  RedisJson.MSetJson json_store bad_batch w_empty
    = (Done (Some (SerializeErr "unsupported type: chan")), w_empty)
  ∧ Forall (RedisJson.marshals json_store) good_batch
  ∧ cache_cmds (trace (RedisJson.MSetJson json_store good_batch w_empty).2) =
      [Redis.CMSet (<["k2" := "u2|bob|b@x.org"]> (<["k1" := "u1|alice|a@x.org"]> ∅));
       Redis.CExec [Redis.QExpire "k1" ttl; Redis.QExpire "k2" ttl]].
Proof.
  assert (Hgood : Forall (RedisJson.marshals json_store) good_batch).
  { repeat constructor. }
  split; [|split; [exact Hgood|]].
  - destruct (MSetJson_serializes_before_writing json_store bad_batch w_empty)
      as [Hfirst _].
    apply (Hfirst [("k1", AUser alice)] "k2" AChan "" _ [("k3", AUser bob)]).
    + reflexivity.
    + repeat constructor.
    + reflexivity.
  - destruct (MSetJson_serializes_before_writing json_store good_batch w_empty)
      as (_ & _ & Hall & _).
    rewrite Hall; [reflexivity | exact Hgood | discriminate].
Defined.



(** Run on the user table, whose codec leaves the target alone on [null]. *)
Lemma SetNull_GetJson_reports_present_witness :
  unmarshal "null" zero = (zero, None)
  ∧ ∃ w1, RedisJson.SetNull json_store "app/users/id/u9" w_empty = (Done None, w1)
      ∧ ∃ w3, RedisJson.GetJson json_store "app/users/id/u9" w1
                = (Done (zero, true, None), w3).
Proof.
  split; [reflexivity|].
  destruct (SetNull_GetJson_reports_present json_store "app/users/id/u9"
              zero None w_empty) as (w1 & Hset & Hget);
    [reflexivity | reflexivity | reflexivity |].
  exists w1. split; [exact Hset|].
  apply Hget; [reflexivity|].
  unfold RedisJson.SetNull in Hset. simpl in Hset.
  injection Hset as <-. reflexivity.
Defined.

(** C2 as the specification states it fails: the sentinel written by
    [SetNull] is read back by [GetJson] with [found = true]. *)
Lemma SetNull_GetJson_found_true :
  (RedisJson.SetNull json_store "app/users/id/u9" w_empty).1 = Done None
  ∧ (RedisJson.GetJson json_store "app/users/id/u9"
       (RedisJson.SetNull json_store "app/users/id/u9" w_empty).2).1
      = Done (zero, true, None)
  ∧ (RedisJson.GetJson json_store "app/users/id/u9"
       (RedisJson.SetNull json_store "app/users/id/u9" w_empty).2).1
      ≠ Done (zero, false, None).
Proof.
  split; [reflexivity|]. split; [reflexivity|]. discriminate.
Qed.

(** ** Cache keys *)

Module StringsFacts.
Import Strings.

Lemma isASCII_app (a b : string) : isASCII (a +:+ b) = isASCII a && isASCII b.
Proof.
  induction a as [|c a IH]; simpl; [done|]. rewrite IH. by rewrite andb_assoc.
Qed.

Lemma lower_ascii_app (a b : string) :
  lower_ascii (a +:+ b) = lower_ascii a +:+ lower_ascii b.
Proof. induction a as [|c a IH]; simpl; [done|]. by rewrite IH. Qed.

Lemma is_upper_lower_byte (c : ascii) : is_upper (lower_byte c) = false.
Proof. destruct c as [[] [] [] [] [] [] [] []]; reflexivity. Qed.

Lemma hasUpper_lower_ascii (s : string) : hasUpper (lower_ascii s) = false.
Proof.
  induction s as [|c s IH]; simpl; [done|].
  by rewrite is_upper_lower_byte, IH.
Qed.

Lemma lower_ascii_fixed (s : string) : hasUpper s = false → lower_ascii s = s.
Proof.
  induction s as [|c s IH]; simpl; [done|].
  intros [Hc Hs]%orb_false_elim. unfold lower_byte. rewrite Hc. by rewrite IH.
Qed.

Lemma ToLower_ascii `{!UnicodeLower} (s : string) :
  isASCII s = true → ToLower s = lower_ascii s.
Proof.
  intros Ha. unfold ToLower. rewrite Ha.
  destruct (hasUpper s) eqn:Hu; [done|]. by rewrite lower_ascii_fixed.
Qed.

End StringsFacts.

(** ** UTF-8 and [strings.Map] *)

Module Utf8Facts.
Import Strings.

Ltac norm_append :=
  repeat match goal with
  | |- context [String ?a ?t +:+ ?s] =>
      change (String a t +:+ s) with (String a (t +:+ s))
  | |- context [EmptyString +:+ ?s] => change (EmptyString +:+ s) with s
  end.

Ltac cases_Z :=
  repeat match goal with
  | |- context [(?a <? ?b)%Z] => destruct (Z.ltb_spec a b)
  | |- context [(?a <=? ?b)%Z] => destruct (Z.leb_spec a b)
  | |- context [(?a =? ?b)%Z] => destruct (Z.eqb_spec a b)
  end.

Lemma byte_of_range (c : ascii) : (0 ≤ byte_of c < 256)%Z.
Proof. unfold byte_of. pose proof (N_ascii_bounded c). lia. Qed.

Lemma to_byte_of (c : ascii) : to_byte (byte_of c) = c.
Proof.
  unfold to_byte. change 0xFF%Z with (Z.ones 8).
  rewrite Z.land_ones by lia. rewrite Z.mod_small by apply byte_of_range.
  unfold byte_of. rewrite N2Z.id. apply ascii_N_embedding.
Qed.

Lemma first_LeadOf (x : Z) (sz : nat) (lo hi : Z) :
  first x = LeadOf sz lo hi →
  ((sz = 2%nat ∧ 0xC2 ≤ x < 0xE0) ∨ (sz = 3%nat ∧ 0xE0 ≤ x < 0xF0)
   ∨ (sz = 4%nat ∧ 0xF0 ≤ x < 0xF5))%Z
  ∧ (0x80 ≤ lo ≤ hi)%Z ∧ (hi ≤ 0xBF)%Z
  ∧ (x = 0xE0 → lo = 0xA0)%Z ∧ (x = 0xED → hi = 0x9F)%Z
  ∧ (x = 0xF0 → lo = 0x90)%Z ∧ (x = 0xF4 → hi = 0x8F)%Z
  ∧ (x ≠ 0xE0 → x ≠ 0xF0 → lo = 0x80)%Z ∧ (x ≠ 0xED → x ≠ 0xF4 → hi = 0xBF)%Z.
Proof.
  unfold first. cases_Z; intros [= <- <- <-]; lia.
Qed.

Lemma first_LeadASCII (x : Z) : first x = LeadASCII → (x < 0x80)%Z.
Proof. unfold first. cases_Z; intros [=]; lia. Qed.

Lemma byte_of_ascii (c : ascii) : is_ascii_byte c = true → (0 ≤ byte_of c < 0x80)%Z.
Proof.
  unfold is_ascii_byte, byte_of. intros Hc%N.ltb_lt. lia.
Qed.

Lemma first_ascii (c : ascii) : is_ascii_byte c = true → first (byte_of c) = LeadASCII.
Proof.
  intros Hc%byte_of_ascii. unfold first.
  destruct (Z.ltb_spec (byte_of c) 0x80); [done | lia].
Qed.

Lemma continuation_range (x : Z) : continuation x = true → (0x80 ≤ x < 0xC0)%Z.
Proof. unfold continuation. cases_Z; simpl; intros [=]; lia. Qed.

Lemma substring_0_0 (s : string) : String.substring 0 0 s = "".
Proof. by destruct s. Qed.


(** *** Bit operations on bytes as arithmetic *)

Lemma lor_disjoint (n m x y : Z) :
  (0 ≤ n)%Z → m = (2 ^ n)%Z → (x mod m = 0)%Z → (0 ≤ y < m)%Z →
  Z.lor x y = (x + y)%Z.
Proof.
  intros Hn -> Hx Hy.
  assert (Hland : Z.land x y = 0%Z).
  { apply Z.bits_inj'. intros i Hi. rewrite Z.land_spec, Z.bits_0.
    destruct (Z.lt_ge_cases i n) as [Hlt|Hge].
    - rewrite (Z.div_mod x (2 ^ n)) by lia. rewrite Hx, Z.add_0_r.
      rewrite Z.mul_comm, Z.mul_pow2_bits_low by lia. reflexivity.
    - rewrite <- (Z.mod_small y (2 ^ n)) by lia.
      rewrite Z.mod_pow2_bits_high by lia. apply andb_false_r. }
  rewrite <- Z.lxor_lor by done. by rewrite Z.add_nocarry_lxor.
Qed.

Lemma land_ones (n m x : Z) :
  (0 ≤ n)%Z → m = Z.ones n → Z.land x m = (x mod 2 ^ n)%Z.
Proof. intros Hn ->. by apply Z.land_ones. Qed.

Ltac arith := first [reflexivity | lia | Z.div_mod_to_equations; lia].

Ltac bits_to_arith :=
  rewrite ?(land_ones 6 0x3F), ?(land_ones 5 0x1F), ?(land_ones 4 0x0F),
    ?(land_ones 3 0x07) by arith;
  rewrite ?Z.shiftl_mul_pow2, ?Z.shiftr_div_pow2 by lia;
  change (2 ^ 3)%Z with 8%Z; change (2 ^ 4)%Z with 16%Z;
  change (2 ^ 5)%Z with 32%Z; change (2 ^ 6)%Z with 64%Z;
  change (2 ^ 12)%Z with 4096%Z; change (2 ^ 18)%Z with 262144%Z.

(** The bytes of a well-formed two-byte sequence are those [WriteRune]
    writes for the rune they decode to. *)
Lemma units2_valid (s0 s1 : Z) :
  (0xC2 ≤ s0 < 0xE0)%Z → (0x80 ≤ s1 < 0xC0)%Z →
  let c := Z.lor (Z.shiftl (Z.land s0 0x1F) 6) (Z.land s1 0x3F) in
  (0 ≤ c)%Z ∧ RuneLen c = 2%Z
  ∧ WriteRune c = String (to_byte s0) (String (to_byte s1) "").
Proof.
  intros H0 H1. cbv zeta. bits_to_arith.
  rewrite (lor_disjoint 6 64) by arith.
  set (c := (s0 mod 32 * 64 + s1 mod 64)%Z).
  assert (Hc : c = ((s0 - 0xC0) * 64 + (s1 - 0x80))%Z) by (subst c; arith).
  split; [lia|]. split.
  { unfold RuneLen, MaxRune. cases_Z; simpl; lia. }
  unfold WriteRune, uint32. rewrite Z.mod_small by lia.
  destruct (Z.leb_spec c 0x7F); [lia|]. destruct (Z.leb_spec c 0x7FF); [|lia].
  bits_to_arith.
  rewrite (lor_disjoint 5 32 0xC0), (lor_disjoint 6 64 0x80) by arith.
  f_equal; [|f_equal]; f_equal; arith.
Qed.

Lemma units3_valid (s0 s1 s2 : Z) (sz : nat) (lo hi : Z) :
  first s0 = LeadOf sz lo hi →
  (0xE0 ≤ s0 < 0xF0)%Z → (lo ≤ s1 ≤ hi)%Z → (0x80 ≤ s2 < 0xC0)%Z →
  let c := Z.lor (Z.lor (Z.shiftl (Z.land s0 0x0F) 12)
                        (Z.shiftl (Z.land s1 0x3F) 6)) (Z.land s2 0x3F) in
  (0 ≤ c)%Z ∧ RuneLen c = 3%Z
  ∧ WriteRune c = String (to_byte s0) (String (to_byte s1) (String (to_byte s2) "")).
Proof.
  intros Hf H0 H1 H2. cbv zeta.
  destruct (first_LeadOf _ _ _ _ Hf) as (_ & Hlo & Hhi & HE0 & HED & _).
  bits_to_arith.
  rewrite (lor_disjoint 12 4096 (s0 mod 16 * 4096)) by arith.
  rewrite (lor_disjoint 6 64) by arith.
  set (c := (s0 mod 16 * 4096 + s1 mod 64 * 64 + s2 mod 64)%Z).
  assert (Hc : c = ((s0 - 0xE0) * 4096 + (s1 - 0x80) * 64 + (s2 - 0x80))%Z)
    by (subst c; arith).
  assert (Hr : (0x800 ≤ c ≤ 0xFFFF ∧ ¬ (0xD800 ≤ c ≤ 0xDFFF))%Z) by lia.
  split; [lia|]. split.
  { unfold RuneLen, MaxRune. cases_Z; simpl; lia. }
  unfold WriteRune, uint32, MaxRune. rewrite Z.mod_small by lia.
  destruct (Z.leb_spec c 0x7F); [lia|]. destruct (Z.leb_spec c 0x7FF); [lia|].
  destruct (Z.ltb_spec 0x10FFFF c); [lia|].
  assert (Hs : (0xD800 <=? c)%Z && (c <=? 0xDFFF)%Z = false).
  { cases_Z; simpl; lia. }
  rewrite Hs. simpl. destruct (Z.leb_spec c 0xFFFF); [|lia].
  unfold units3. bits_to_arith.
  rewrite (lor_disjoint 4 16 0xE0), !(lor_disjoint 6 64 0x80) by arith.
  f_equal; [|f_equal; [|f_equal]]; f_equal; arith.
Qed.

Lemma units4_valid (s0 s1 s2 s3 : Z) (sz : nat) (lo hi : Z) :
  first s0 = LeadOf sz lo hi →
  (0xF0 ≤ s0 < 0xF5)%Z → (lo ≤ s1 ≤ hi)%Z → (0x80 ≤ s2 < 0xC0)%Z →
  (0x80 ≤ s3 < 0xC0)%Z →
  let c := Z.lor (Z.lor (Z.lor (Z.shiftl (Z.land s0 0x07) 18)
                               (Z.shiftl (Z.land s1 0x3F) 12))
                        (Z.shiftl (Z.land s2 0x3F) 6)) (Z.land s3 0x3F) in
  (0 ≤ c)%Z ∧ RuneLen c = 4%Z
  ∧ WriteRune c = String (to_byte s0) (String (to_byte s1)
                    (String (to_byte s2) (String (to_byte s3) ""))).
Proof.
  intros Hf H0 H1 H2 H3. cbv zeta.
  destruct (first_LeadOf _ _ _ _ Hf) as (_ & Hlo & Hhi & _ & _ & HF0 & HF4).
  bits_to_arith.
  rewrite (lor_disjoint 18 262144 (s0 mod 8 * 262144)) by arith.
  rewrite (lor_disjoint 12 4096 (s0 mod 8 * 262144 + _)) by arith.
  rewrite (lor_disjoint 6 64) by arith.
  set (c := (s0 mod 8 * 262144 + s1 mod 64 * 4096 + s2 mod 64 * 64 + s3 mod 64)%Z).
  assert (Hc : c = ((s0 - 0xF0) * 262144 + (s1 - 0x80) * 4096
                    + (s2 - 0x80) * 64 + (s3 - 0x80))%Z)
    by (subst c; arith).
  assert (Hr : (0x10000 ≤ c ≤ 0x10FFFF)%Z) by lia.
  split; [lia|]. split.
  { unfold RuneLen, MaxRune. cases_Z; simpl; lia. }
  unfold WriteRune, uint32, MaxRune. rewrite Z.mod_small by lia.
  destruct (Z.leb_spec c 0x7F); [lia|]. destruct (Z.leb_spec c 0x7FF); [lia|].
  destruct (Z.ltb_spec 0x10FFFF c); [lia|].
  assert (Hs : (0xD800 <=? c)%Z && (c <=? 0xDFFF)%Z = false).
  { cases_Z; simpl; lia. }
  rewrite Hs. simpl. destruct (Z.leb_spec c 0xFFFF); [lia|].
  bits_to_arith.
  rewrite (lor_disjoint 3 8 0xF0), !(lor_disjoint 6 64 0x80) by arith.
  f_equal; [|f_equal; [|f_equal; [|f_equal]]]; f_equal; arith.
Qed.

Lemma written_small (r : Z) :
  (0 ≤ r < 0x80)%Z → WriteRune r = String (to_byte r) "".
Proof.
  intros Hr. unfold WriteRune, uint32. rewrite Z.mod_small by lia.
  destruct (Z.leb_spec r 0x7F); [done | lia].
Qed.

Lemma written_WriteRune (r : Z) :
  (0 ≤ r)%Z →
  (if (r <? 0x80)%Z then String (to_byte r) "" else WriteRune r) = WriteRune r.
Proof.
  intros Hr. destruct (Z.ltb_spec r 0x80); [|done]. by rewrite written_small.
Qed.

(** What [DecodeRuneInString] returns for a non-empty string: either the
    first byte alone as [RuneError], or a rune whose encoding, as
    [WriteRune] writes it and [RuneLen] measures it, is the bytes read. *)
Lemma DecodeRuneInString_valid (c0 : ascii) (t : string) :
  let s := String c0 t in
  let c := (DecodeRuneInString s).1 in
  let w := (DecodeRuneInString s).2 in
  (1 ≤ w ≤ String.length s)%nat
  ∧ ((c = RuneError ∧ w = 1%nat)
     ∨ ((0 ≤ c)%Z ∧ RuneLen c = Z.of_nat w ∧ WriteRune c = String.substring 0 w s)).
Proof.
  cbv zeta.
  assert (Hlen : ∀ c (u : string), String.length (String c u) = S (String.length u))
    by reflexivity.
  assert (Hsub : ∀ n c (u : string),
            String.substring 0 (S n) (String c u) = String c (String.substring 0 n u))
    by reflexivity.
  unfold DecodeRuneInString.
  destruct (first (byte_of c0)) as [| |sz lo hi] eqn:Hf.
  - apply first_LeadASCII in Hf. pose proof (byte_of_range c0).
    cbn [fst snd]. rewrite Hlen. split; [lia|]. right.
    split; [lia|]. split.
    { unfold RuneLen. cases_Z; simpl; lia. }
    rewrite written_small by lia. by rewrite to_byte_of, Hsub, substring_0_0.
  - cbn [fst snd]. rewrite Hlen. split; [lia | by left].
  - destruct (first_LeadOf _ _ _ _ Hf) as (Hsz & Hlo & Hhi & _).
    assert (Hbad : (1 ≤ 1 ≤ String.length (String c0 t))%nat
              ∧ ((RuneError = RuneError ∧ 1%nat = 1%nat)
                 ∨ ((0 ≤ RuneError)%Z ∧ RuneLen RuneError = Z.of_nat 1
                    ∧ WriteRune RuneError = String.substring 0 1 (String c0 t)))).
    { rewrite Hlen. split; [lia | by left]. }
    destruct (String.length (String c0 t) <? sz)%nat eqn:Hn; [exact Hbad|].
    destruct t as [|c1 t1]; [exact Hbad|].
    destruct ((byte_of c1 <? lo)%Z || (hi <? byte_of c1)%Z) eqn:H1; [exact Hbad|].
    apply orb_false_elim in H1 as [H1a%Z.ltb_ge H1b%Z.ltb_ge].
    destruct (sz <=? 2)%nat eqn:Hsz2.
    { apply Nat.leb_le in Hsz2. cbn [fst snd]. rewrite !Hlen. split; [lia|]. right.
      destruct (units2_valid (byte_of c0) (byte_of c1)) as (Hc & Hl & Hw);
        [lia | lia |].
      split; [exact Hc|]. split; [exact Hl|].
      by rewrite Hw, !to_byte_of, !Hsub, substring_0_0. }
    apply Nat.leb_gt in Hsz2.
    destruct t1 as [|c2 t2]; [exact Hbad|].
    destruct (continuation (byte_of c2)) eqn:H2; [|exact Hbad].
    apply continuation_range in H2. cbn [negb].
    destruct (sz <=? 3)%nat eqn:Hsz3.
    { apply Nat.leb_le in Hsz3. cbn [fst snd]. rewrite !Hlen. split; [lia|]. right.
      destruct (units3_valid (byte_of c0) (byte_of c1) (byte_of c2) sz lo hi)
        as (Hc & Hl & Hw); [done | lia | lia | lia |].
      split; [exact Hc|]. split; [exact Hl|].
      by rewrite Hw, !to_byte_of, !Hsub, substring_0_0. }
    apply Nat.leb_gt in Hsz3.
    destruct t2 as [|c3 t3]; [exact Hbad|].
    destruct (continuation (byte_of c3)) eqn:H3; [|exact Hbad].
    apply continuation_range in H3. cbn [negb fst snd]. rewrite !Hlen.
    split; [lia|]. right.
    destruct (units4_valid (byte_of c0) (byte_of c1) (byte_of c2) (byte_of c3)
                sz lo hi) as (Hc & Hl & Hw); [done | lia | lia | lia | lia |].
    split; [exact Hc|]. split; [exact Hl|].
    by rewrite Hw, !to_byte_of, !Hsub, substring_0_0.
Qed.
(** Decoding the first rune of a non-empty string does not depend on what
    follows it when that starts with an ASCII byte. *)
Lemma DecodeRuneInString_local (c0 : ascii) (t : string) (c : ascii) (b : string) :
  is_ascii_byte c = true →
  DecodeRuneInString (String c0 t +:+ String c b) = DecodeRuneInString (String c0 t)
  ∧ ((DecodeRuneInString (String c0 t)).2 ≤ S (String.length t))%nat.
Proof.
  intros Hc%byte_of_ascii.
  change (String c0 t +:+ String c b) with (String c0 (t +:+ String c b)).
  unfold DecodeRuneInString.
  destruct (first (byte_of c0)) as [| |sz lo hi] eqn:Hf.
  1,2: split; [done | simpl; lia].
  destruct (first_LeadOf _ _ _ _ Hf) as (Hsz & Hlo & _).
  assert (Hlt : (byte_of c <? lo)%Z = true) by (apply Z.ltb_lt; lia).
  assert (Hcont : continuation (byte_of c) = false).
  { unfold continuation. destruct (Z.leb_spec 0x80 (byte_of c)); [lia | done]. }
  destruct Hsz as [[-> _]|[[-> _]|[-> _]]]; destruct t as [|c1 [|c2 [|c3 t3]]];
    norm_append;
    cbn -[Z.ltb Z.leb Z.lor Z.land Z.shiftl byte_of continuation first];
    rewrite ?Hlt, ?Hcont;
    cbn -[Z.ltb Z.leb Z.lor Z.land Z.shiftl byte_of continuation first];
    repeat case_match; (split; [done | simpl; lia]).
Qed.


Lemma append_assoc (a b c : string) : (a +:+ b) +:+ c = a +:+ (b +:+ c).
Proof.
  induction a as [|x a IH]; [done|].
  change (String x ((a +:+ b) +:+ c) = String x (a +:+ (b +:+ c))). by rewrite IH.
Qed.

(** *** The two loops of [Map] *)

Lemma Map_rest_skip (f : Z → Z) (k : nat) (c0 : ascii) (t : string) :
  Map_rest f (S k) (String c0 t) = Map_rest f k t.
Proof. reflexivity. Qed.

Lemma Map_rest_rune (f : Z → Z) (c0 : ascii) (t : string) :
  Map_rest f 0 (String c0 t) =
    written (f (DecodeRuneInString (String c0 t)).1)
    +:+ Map_rest f ((DecodeRuneInString (String c0 t)).2 - 1) t.
Proof.
  cbn [Map_rest]. by destruct (DecodeRuneInString (String c0 t)).
Qed.

Lemma Map_first_skip (f : Z → Z) (k : nat) (c0 : ascii) (t : string) :
  Map_first f (S k) (String c0 t) = String c0 <$> Map_first f k t.
Proof. reflexivity. Qed.

(** The first loop copies the bytes it passes and hands over to the second
    at the first rune that changes: together they write what the second
    loop alone writes. *)
Lemma Map_first_rest (f : Z → Z) (s : string) (k : nat) :
  (k ≤ String.length s)%nat →
  default s (Map_first f k s) = String.substring 0 k s +:+ Map_rest f k s.
Proof.
  revert k. induction s as [|c0 t IH]; intros k Hk.
  - change (k ≤ 0)%nat in Hk. assert (k = 0%nat) as -> by lia. reflexivity.
  - change (k ≤ S (String.length t))%nat in Hk.
    assert (Hcopy : ∀ n, (n ≤ String.length t)%nat →
              default (String c0 t) (String c0 <$> Map_first f n t)
              = String c0 (String.substring 0 n t +:+ Map_rest f n t)).
    { intros n Hn. rewrite <- IH by done. by destruct (Map_first f n t). }
    destruct k as [|k].
    { change (String.substring 0 0 (String c0 t)) with "".
      change ("" +:+ ?x) with x.
      rewrite Map_rest_rune.
      destruct (DecodeRuneInString_valid c0 t) as [Hw Hv]. cbv zeta in Hw, Hv.
      change (String.length (String c0 t)) with (S (String.length t)) in Hw.
      cbn [Map_first].
      destruct (DecodeRuneInString (String c0 t)) as [c w] eqn:Hd.
      cbn [fst snd] in *. cbv zeta.
      assert (Hkeep : (0 ≤ c)%Z → WriteRune c = String.substring 0 w (String c0 t) →
                f c = c →
                default (String c0 t) (String c0 <$> Map_first f (w - 1) t)
                = written (f c) +:+ Map_rest f (w - 1) t).
      { intros Hc Hwr ->. rewrite Hcopy by lia. unfold written.
        destruct (Z.leb_spec 0 c); [|lia]. rewrite written_WriteRune by done.
        rewrite Hwr. destruct w as [|w]; [lia|].
        change (String.substring 0 (S w) (String c0 t))
          with (String c0 (String.substring 0 w t)).
        by replace (S w - 1)%nat with w by lia. }
      destruct (Z.eqb_spec (f c) c) as [Hfc|Hfc];
        destruct (Z.eqb_spec c RuneError) as [Hc|Hc]; cbn [andb negb].
      - destruct (Z.eqb_spec (Z.of_nat w) 1) as [Hw1|Hw1]; cbn [andb negb].
        + cbn [default]. rewrite Nat2Z.id. unfold written.
          destruct (Z.leb_spec 0 (f c)); [|done].
          by rewrite written_WriteRune.
        + destruct Hv as [[_ ->]|(H0 & _ & Hwr)]; [done|]. by apply Hkeep.
      - destruct Hv as [[? _]|(H0 & _ & Hwr)]; [done|]. by apply Hkeep.
      - destruct (Z.eqb_spec (Z.of_nat w) 1); cbn [andb negb default];
          rewrite Nat2Z.id; unfold written;
          (destruct (Z.leb_spec 0 (f c)); [|done]);
          by rewrite written_WriteRune.
      - cbn [default]. destruct Hv as [[? _]|(_ & -> & _)]; [done|].
        rewrite Nat2Z.id. unfold written.
        destruct (Z.leb_spec 0 (f c)); [|done]. by rewrite written_WriteRune. }
    rewrite Map_first_skip, Map_rest_skip, Hcopy by lia. reflexivity.
Qed.

(** [Map] is its second loop run from the start. *)
Lemma Map_is_rest (f : Z → Z) (s : string) : Map f s = Map_rest f 0 s.
Proof.
  pose proof (Map_first_rest f s 0 ltac:(lia)) as H.
  rewrite substring_0_0 in H. exact H.
Qed.

(** Mapping the runes of a string followed by an ASCII byte: the string
    first, then the rest. *)
Lemma Map_rest_app (f : Z → Z) (a : string) (k : nat) (c : ascii) (b : string) :
  is_ascii_byte c = true →
  (k ≤ String.length a)%nat →
  Map_rest f k (a +:+ String c b) = Map_rest f k a +:+ Map_rest f 0 (String c b).
Proof.
  intros Hc. revert k. induction a as [|c0 t IH]; intros k Hk.
  - change (k ≤ 0)%nat in Hk. assert (k = 0%nat) as -> by lia. reflexivity.
  - change (String c0 t +:+ String c b) with (String c0 (t +:+ String c b)).
    destruct k as [|k].
    + destruct (DecodeRuneInString_local c0 t c b Hc) as [Hloc Hw].
      rewrite (Map_rest_rune f c0 (t +:+ String c b)).
      change (String c0 (t +:+ String c b)) with (String c0 t +:+ String c b).
      rewrite Hloc, (Map_rest_rune f c0 t). rewrite IH by lia.
      by rewrite append_assoc.
    + rewrite !Map_rest_skip. apply IH.
      change (S k ≤ S (String.length t))%nat in Hk. lia.
Qed.

Lemma Map_app (f : Z → Z) (a : string) (c : ascii) (b : string) :
  is_ascii_byte c = true →
  Map f (a +:+ String c b) = Map f a +:+ Map f (String c b).
Proof.
  intros Hc. rewrite !Map_is_rest. apply Map_rest_app; [done | lia].
Qed.

(** *** [unicode.ToLower] on ASCII *)

Lemma lower_of_ascii (tbl : Z → Z) (c : ascii) :
  is_ascii_byte c = true →
  written (unicode_ToLower tbl (byte_of c)) = String (lower_byte c) "".
Proof.
  intros Hc. destruct c as [b0 b1 b2 b3 b4 b5 b6 b7].
  destruct b7; [by destruct b0, b1, b2, b3, b4, b5, b6|].
  clear Hc. destruct b0, b1, b2, b3, b4, b5, b6; reflexivity.
Qed.

(** An ASCII byte is lowered where it stands. *)
Lemma Map_ToLower_ascii_head (tbl : Z → Z) (c : ascii) (b : string) :
  is_ascii_byte c = true →
  Map (unicode_ToLower tbl) (String c b)
    = String (lower_byte c) (Map (unicode_ToLower tbl) b).
Proof.
  intros Hc. rewrite !Map_is_rest, Map_rest_rune.
  assert (Hd : DecodeRuneInString (String c b) = (byte_of c, 1%nat)).
  { unfold DecodeRuneInString. by rewrite first_ascii. }
  rewrite Hd. cbn [fst snd]. by rewrite lower_of_ascii.
Qed.

Lemma Map_ToLower_ascii (tbl : Z → Z) (s : string) :
  isASCII s = true → Map (unicode_ToLower tbl) s = lower_ascii s.
Proof.
  induction s as [|c s IH]; [done|].
  simpl isASCII. intros [Hc Hs]%andb_prop.
  rewrite Map_ToLower_ascii_head by done. simpl. by rewrite IH.
Qed.

(** With the mapping of the Go library, [ToLower] is the rune-wise
    mapping on every string. *)
Lemma ToLower_is_Map (tbl : Z → Z) (s : string) :
  @ToLower (unicode_lower_of tbl) s = Map (unicode_ToLower tbl) s.
Proof.
  unfold ToLower. destruct (isASCII s) eqn:Ha; [|reflexivity].
  rewrite Map_ToLower_ascii by done.
  destruct (hasUpper s) eqn:Hu; [done|]. by rewrite StringsFacts.lower_ascii_fixed.
Qed.

Lemma ToLower_app_ascii (tbl : Z → Z) (a : string) (c : ascii) (b : string) :
  is_ascii_byte c = true →
  @ToLower (unicode_lower_of tbl) (a +:+ String c b) =
    @ToLower (unicode_lower_of tbl) a
    +:+ String (lower_byte c) (@ToLower (unicode_lower_of tbl) b).
Proof.
  intros Hc. rewrite !ToLower_is_Map.
  rewrite Map_app by done. by rewrite Map_ToLower_ascii_head.
Qed.

(** *** No ASCII capital is written *)

Lemma hasUpper_app (a b : string) : hasUpper (a +:+ b) = hasUpper a || hasUpper b.
Proof.
  induction a as [|c a IH]; [done|].
  change (String c a +:+ b) with (String c (a +:+ b)). simpl.
  by rewrite IH, orb_assoc.
Qed.

Lemma N_of_to_byte (x : Z) : Z.of_N (N_of_ascii (to_byte x)) = (x mod 256)%Z.
Proof.
  unfold to_byte. change 0xFF%Z with (Z.ones 8). rewrite Z.land_ones by lia.
  change (2 ^ 8)%Z with 256%Z.
  pose proof (Z.mod_pos_bound x 256 ltac:(lia)).
  rewrite N_ascii_embedding by lia. lia.
Qed.

Lemma is_upper_to_byte (x : Z) :
  ¬ (0x41 ≤ x mod 256 ≤ 0x5A)%Z → is_upper (to_byte x) = false.
Proof.
  intros Hx. unfold is_upper. pose proof (N_of_to_byte x).
  destruct (N.leb_spec 65 (N_of_ascii (to_byte x))); [|done].
  destruct (N.leb_spec (N_of_ascii (to_byte x)) 90); [|done]. lia.
Qed.

(** A byte with its top bit set by the encoder is no letter. *)
Lemma is_upper_marked (m x : Z) :
  Z.testbit m 7 = true → is_upper (to_byte (Z.lor m x)) = false.
Proof.
  intros Hm. apply is_upper_to_byte.
  assert (Hbit : Z.testbit (Z.lor m x mod 256) 7 = true).
  { change 256%Z with (2 ^ 8)%Z. rewrite Z.mod_pow2_bits_low by lia.
    by rewrite Z.lor_spec, Hm. }
  apply Z.testbit_true in Hbit; [|lia]. change (2 ^ 7)%Z with 128%Z in Hbit.
  pose proof (Z.mod_pos_bound (Z.lor m x) 256 ltac:(lia)).
  Z.div_mod_to_equations. lia.
Qed.

Lemma hasUpper_WriteRune (r : Z) :
  (0x7F < uint32 r)%Z → hasUpper (WriteRune r) = false.
Proof.
  intros Hr. unfold WriteRune, units3.
  destruct (Z.leb_spec (uint32 r) 0x7F); [lia|].
  repeat case_match; cbn [hasUpper]; by rewrite !is_upper_marked.
Qed.

Lemma hasUpper_written (r : Z) :
  (r < 2 ^ 32)%Z → ¬ (0x41 ≤ r ≤ 0x5A)%Z → hasUpper (written r) = false.
Proof.
  intros Hr Hup. unfold written.
  destruct (Z.leb_spec 0 r); [|done].
  destruct (Z.ltb_spec r 0x80).
  - simpl. rewrite is_upper_to_byte; [done|]. rewrite Z.mod_small by lia. lia.
  - apply hasUpper_WriteRune. unfold uint32. rewrite Z.mod_small by lia. lia.
Qed.

Lemma ValidRune_range (r : Z) :
  ValidRune r = true ↔ (0 ≤ r ≤ MaxRune ∧ ¬ (0xD800 ≤ r ≤ 0xDFFF))%Z.
Proof. unfold ValidRune, MaxRune. cases_Z; cbn [andb]; split; (done || lia). Qed.

(** A decoded rune is valid. *)
Lemma DecodeRuneInString_ValidRune (c0 : ascii) (t : string) :
  ValidRune (DecodeRuneInString (String c0 t)).1 = true.
Proof.
  destruct (DecodeRuneInString_valid c0 t) as [Hw Hv]. cbv zeta in Hw, Hv.
  set (c := (DecodeRuneInString (String c0 t)).1) in *.
  set (w := (DecodeRuneInString (String c0 t)).2) in *. clearbody c w.
  destruct Hv as [[-> _]|(_ & Hl & _)]; [done|].
  apply ValidRune_range.
  revert Hl. unfold RuneLen, MaxRune. cases_Z; cbn [andb]; lia.
Qed.

(** [unicode.ToLower] with a lower-case table: the image of a valid rune
    is a valid rune that lowering leaves as it is. *)
Lemma unicode_ToLower_lower (tbl : Z → Z) (c : Z) :
  lower_table tbl → ValidRune c = true →
  ValidRune (unicode_ToLower tbl c) = true
  ∧ unicode_ToLower tbl (unicode_ToLower tbl c) = unicode_ToLower tbl c.
Proof.
  intros Htbl Hc.
  destruct (Z.leb_spec c 0x7F) as [Hle|Hgt].
  - apply ValidRune_range in Hc.
    assert (Hx : (0 ≤ unicode_ToLower tbl c ≤ 0x7F
                  ∧ ¬ (0x41 ≤ unicode_ToLower tbl c ≤ 0x5A))%Z).
    { unfold unicode_ToLower. destruct (Z.leb_spec c 0x7F); [|lia].
      destruct (Z.leb_spec 0x41 c), (Z.leb_spec c 0x5A); cbn [andb]; lia. }
    set (x := unicode_ToLower tbl c) in *. clearbody x. split.
    + apply ValidRune_range. unfold MaxRune. lia.
    + unfold unicode_ToLower. destruct (Z.leb_spec x 0x7F); [|lia].
      destruct (Z.leb_spec 0x41 x), (Z.leb_spec x 0x5A); cbn [andb]; lia.
  - assert (Heq : unicode_ToLower tbl c = tbl c).
    { unfold unicode_ToLower. destruct (Z.leb_spec c 0x7F); [lia | done]. }
    rewrite Heq. by apply Htbl.
Qed.

Lemma unicode_ToLower_no_capital (tbl : Z → Z) (c : Z) :
  lower_table tbl → ValidRune c = true →
  (unicode_ToLower tbl c < 2 ^ 32)%Z ∧ ¬ (0x41 ≤ unicode_ToLower tbl c ≤ 0x5A)%Z.
Proof.
  intros Htbl Hc. destruct (unicode_ToLower_lower tbl c Htbl Hc) as [Hv Hi].
  apply ValidRune_range in Hv. unfold MaxRune in Hv. split; [lia|].
  set (x := unicode_ToLower tbl c) in *. clearbody x.
  intros Hup. revert Hi. unfold unicode_ToLower.
  destruct (Z.leb_spec x 0x7F); [|lia].
  destruct (Z.leb_spec 0x41 x), (Z.leb_spec x 0x5A); cbn [andb]; lia.
Qed.

Lemma hasUpper_Map_rest (tbl : Z → Z) (s : string) (k : nat) :
  lower_table tbl → hasUpper (Map_rest (unicode_ToLower tbl) k s) = false.
Proof.
  intros Htbl. revert k. induction s as [|c0 t IH]; intros k; [done|].
  destruct k as [|k]; [|by rewrite Map_rest_skip].
  rewrite Map_rest_rune, hasUpper_app, IH, orb_false_r.
  destruct (unicode_ToLower_no_capital tbl (DecodeRuneInString (String c0 t)).1 Htbl)
    as [Hr Hup]; [apply DecodeRuneInString_ValidRune|].
  by apply hasUpper_written.
Qed.

(** Whatever the bytes of [s], no ASCII capital is left in [ToLower s]. *)
Lemma hasUpper_ToLower (tbl : Z → Z) (s : string) :
  lower_table tbl → hasUpper (@ToLower (unicode_lower_of tbl) s) = false.
Proof.
  intros Htbl. rewrite ToLower_is_Map, Map_is_rest. by apply hasUpper_Map_rest.
Qed.

(** *** Decoding what was written *)

Lemma byte_of_to_byte (x : Z) : byte_of (to_byte x) = (x mod 256)%Z.
Proof. apply N_of_to_byte. Qed.

Lemma first_small (x : Z) : (x < 0x80)%Z → first x = LeadASCII.
Proof. intros Hx. unfold first. destruct (Z.ltb_spec x 0x80); [done | lia]. Qed.

Lemma first_2 (x : Z) : (0xC2 ≤ x < 0xE0)%Z → first x = LeadOf 2 0x80 0xBF.
Proof. intros Hx. unfold first. cases_Z; (done || lia). Qed.

Lemma first_3 (x : Z) :
  (0xE0 ≤ x < 0xF0)%Z →
  first x = LeadOf 3 (if (x =? 0xE0)%Z then 0xA0 else 0x80)
                     (if (x =? 0xED)%Z then 0x9F else 0xBF).
Proof. intros Hx. unfold first. cases_Z; (done || lia). Qed.

Lemma first_4 (x : Z) :
  (0xF0 ≤ x < 0xF5)%Z →
  first x = LeadOf 4 (if (x =? 0xF0)%Z then 0x90 else 0x80)
                     (if (x =? 0xF4)%Z then 0x8F else 0xBF).
Proof. intros Hx. unfold first. cases_Z; (done || lia). Qed.

Lemma continuation_true (x : Z) : (0x80 ≤ x ≤ 0xBF)%Z → continuation x = true.
Proof. intros Hx. unfold continuation. cases_Z; (done || lia). Qed.

Lemma Decode_units2 (c0 c1 : ascii) (rest : string) (lo hi : Z) :
  first (byte_of c0) = LeadOf 2 lo hi → (lo ≤ byte_of c1 ≤ hi)%Z →
  DecodeRuneInString (String c0 (String c1 rest)) =
    (Z.lor (Z.shiftl (Z.land (byte_of c0) 0x1F) 6) (Z.land (byte_of c1) 0x3F),
     2%nat).
Proof.
  intros Hf H1. unfold DecodeRuneInString. rewrite Hf.
  change (String.length (String c0 (String c1 rest)))
    with (S (S (String.length rest))).
  destruct (Nat.ltb_spec (S (S (String.length rest))) 2); [lia|].
  destruct (Z.ltb_spec (byte_of c1) lo); [lia|].
  destruct (Z.ltb_spec hi (byte_of c1)); [lia|]. reflexivity.
Qed.

Lemma Decode_units3 (c0 c1 c2 : ascii) (rest : string) (lo hi : Z) :
  first (byte_of c0) = LeadOf 3 lo hi → (lo ≤ byte_of c1 ≤ hi)%Z →
  (0x80 ≤ byte_of c2 ≤ 0xBF)%Z →
  DecodeRuneInString (String c0 (String c1 (String c2 rest))) =
    (Z.lor (Z.lor (Z.shiftl (Z.land (byte_of c0) 0x0F) 12)
                  (Z.shiftl (Z.land (byte_of c1) 0x3F) 6))
           (Z.land (byte_of c2) 0x3F), 3%nat).
Proof.
  intros Hf H1 H2. unfold DecodeRuneInString. rewrite Hf.
  change (String.length (String c0 (String c1 (String c2 rest))))
    with (S (S (S (String.length rest)))).
  destruct (Nat.ltb_spec (S (S (S (String.length rest)))) 3); [lia|].
  destruct (Z.ltb_spec (byte_of c1) lo); [lia|].
  destruct (Z.ltb_spec hi (byte_of c1)); [lia|].
  rewrite (continuation_true (byte_of c2)) by done. reflexivity.
Qed.

Lemma Decode_units4 (c0 c1 c2 c3 : ascii) (rest : string) (lo hi : Z) :
  first (byte_of c0) = LeadOf 4 lo hi → (lo ≤ byte_of c1 ≤ hi)%Z →
  (0x80 ≤ byte_of c2 ≤ 0xBF)%Z → (0x80 ≤ byte_of c3 ≤ 0xBF)%Z →
  DecodeRuneInString (String c0 (String c1 (String c2 (String c3 rest)))) =
    (Z.lor (Z.lor (Z.lor (Z.shiftl (Z.land (byte_of c0) 0x07) 18)
                         (Z.shiftl (Z.land (byte_of c1) 0x3F) 12))
                  (Z.shiftl (Z.land (byte_of c2) 0x3F) 6))
           (Z.land (byte_of c3) 0x3F), 4%nat).
Proof.
  intros Hf H1 H2 H3. unfold DecodeRuneInString. rewrite Hf.
  change (String.length (String c0 (String c1 (String c2 (String c3 rest)))))
    with (S (S (S (S (String.length rest))))).
  destruct (Nat.ltb_spec (S (S (S (S (String.length rest))))) 4); [lia|].
  destruct (Z.ltb_spec (byte_of c1) lo); [lia|].
  destruct (Z.ltb_spec hi (byte_of c1)); [lia|].
  rewrite (continuation_true (byte_of c2)), (continuation_true (byte_of c3)) by done.
  reflexivity.
Qed.

(** The encoder's bytes, as numbers. *)
Lemma byte_marked (n m x : Z) :
  (0 ≤ n)%Z → (2 ^ n | m)%Z → (0 ≤ m)%Z → (0 ≤ x < 2 ^ n)%Z → (m + 2 ^ n ≤ 256)%Z →
  byte_of (to_byte (Z.lor m x)) = (m + x)%Z.
Proof.
  intros Hn [q ->] Hm Hx Hb. rewrite byte_of_to_byte.
  rewrite (lor_disjoint n (2 ^ n)); [|done|done| |done].
  - apply Z.mod_small. lia.
  - apply Z.mod_mul. lia.
Qed.

Lemma byte_t2 (v : Z) :
  (0 ≤ v < 32)%Z → byte_of (to_byte (Z.lor 0xC0 v)) = (0xC0 + v)%Z.
Proof. intros Hv. apply (byte_marked 5); [lia | by exists 6%Z | lia | lia | lia]. Qed.

Lemma byte_tx (v : Z) :
  (0 ≤ v < 64)%Z → byte_of (to_byte (Z.lor 0x80 v)) = (0x80 + v)%Z.
Proof. intros Hv. apply (byte_marked 6); [lia | by exists 2%Z | lia | lia | lia]. Qed.

Lemma byte_t3 (v : Z) :
  (0 ≤ v < 16)%Z → byte_of (to_byte (Z.lor 0xE0 v)) = (0xE0 + v)%Z.
Proof. intros Hv. apply (byte_marked 4); [lia | by exists 14%Z | lia | lia | lia]. Qed.

Lemma byte_t4 (v : Z) :
  (0 ≤ v < 8)%Z → byte_of (to_byte (Z.lor 0xF0 v)) = (0xF0 + v)%Z.
Proof. intros Hv. apply (byte_marked 3); [lia | by exists 30%Z | lia | lia | lia]. Qed.

(** Decoding what [WriteRune] wrote for a valid rune gives the rune back,
    whatever follows. *)
Lemma DecodeRuneInString_WriteRune (x : Z) (rest : string) :
  ValidRune x = true →
  DecodeRuneInString (WriteRune x +:+ rest) = (x, String.length (WriteRune x)).
Proof.
  intros Hv%ValidRune_range. unfold MaxRune in Hv.
  unfold WriteRune, uint32, MaxRune, units3. rewrite Z.mod_small by lia.
  destruct (Z.leb_spec x 0x7F).
  { norm_append. unfold DecodeRuneInString.
    rewrite byte_of_to_byte, Z.mod_small, first_small by lia. reflexivity. }
  destruct (Z.leb_spec x 0x7FF).
  { bits_to_arith. norm_append.
    rewrite (Decode_units2 _ _ _ 0x80 0xBF).
    - rewrite byte_t2, byte_tx by arith. bits_to_arith.
      rewrite (lor_disjoint 6 64) by arith. f_equal. arith.
    - rewrite byte_t2 by arith. apply first_2. arith.
    - rewrite byte_tx by arith. arith. }
  destruct (Z.ltb_spec 0x10FFFF x); [lia|].
  assert (Hs : (0xD800 <=? x)%Z && (x <=? 0xDFFF)%Z = false).
  { cases_Z; cbn [andb]; lia. }
  rewrite Hs. cbn [orb].
  destruct (Z.leb_spec x 0xFFFF).
  { bits_to_arith. norm_append.
    erewrite Decode_units3.
    - rewrite byte_t3, !byte_tx by arith. bits_to_arith.
      rewrite (lor_disjoint 12 4096 (_ mod 16 * 4096)) by arith.
      rewrite (lor_disjoint 6 64) by arith. f_equal. arith.
    - rewrite byte_t3 by arith. apply first_3. arith.
    - rewrite byte_tx by arith. cases_Z; arith.
    - rewrite byte_tx by arith. arith. }
  bits_to_arith. norm_append.
  erewrite Decode_units4.
  - rewrite byte_t4, !byte_tx by arith. bits_to_arith.
    rewrite (lor_disjoint 18 262144 (_ mod 8 * 262144)) by arith.
    rewrite (lor_disjoint 12 4096 (_ mod 8 * 262144 + _)) by arith.
    rewrite (lor_disjoint 6 64) by arith. f_equal. arith.
  - rewrite byte_t4 by arith. apply first_4. arith.
  - rewrite byte_tx by arith. cases_Z; arith.
  - rewrite byte_tx by arith. arith.
  - rewrite byte_tx by arith. arith.
Qed.

Lemma WriteRune_cons (x : Z) : ∃ b u, WriteRune x = String b u.
Proof. unfold WriteRune, units3. repeat case_match; by eexists _, _. Qed.

Lemma Map_rest_passes (f : Z → Z) (a rest : string) :
  Map_rest f (String.length a) (a +:+ rest) = Map_rest f 0 rest.
Proof. induction a as [|c a IH]; [done|]. exact IH. Qed.

(** The second loop on what [WriteRune] wrote for a valid rune: the rune
    is mapped, and the loop goes on behind it. *)
Lemma Map_rest_WriteRune (f : Z → Z) (x : Z) (rest : string) :
  ValidRune x = true →
  Map_rest f 0 (WriteRune x +:+ rest) = written (f x) +:+ Map_rest f 0 rest.
Proof.
  intros Hx. pose proof (DecodeRuneInString_WriteRune x rest Hx) as Hd.
  destruct (WriteRune_cons x) as (b & u & Hw). rewrite Hw in *.
  change (String b u +:+ rest) with (String b (u +:+ rest)) in *.
  rewrite Map_rest_rune, Hd. cbn [fst snd].
  change (String.length (String b u)) with (S (String.length u)).
  replace (S (String.length u) - 1)%nat with (String.length u) by lia.
  by rewrite Map_rest_passes.
Qed.

Lemma written_valid (x : Z) : ValidRune x = true → written x = WriteRune x.
Proof.
  intros Hx%ValidRune_range. unfold written.
  destruct (Z.leb_spec 0 x); [|lia]. by apply written_WriteRune.
Qed.

(** Lowering what was lowered changes nothing. *)
Lemma Map_rest_idemp (tbl : Z → Z) (s : string) (k : nat) :
  lower_table tbl →
  Map_rest (unicode_ToLower tbl) 0 (Map_rest (unicode_ToLower tbl) k s)
  = Map_rest (unicode_ToLower tbl) k s.
Proof.
  intros Htbl. revert k. induction s as [|c0 t IH]; intros k; [done|].
  destruct k as [|k]; [|by rewrite Map_rest_skip].
  rewrite Map_rest_rune.
  destruct (unicode_ToLower_lower tbl (DecodeRuneInString (String c0 t)).1 Htbl)
    as [Hv Hi]; [apply DecodeRuneInString_ValidRune|].
  rewrite (written_valid _ Hv), Map_rest_WriteRune by done.
  by rewrite Hi, IH, (written_valid _ Hv).
Qed.

Lemma ToLower_idemp (tbl : Z → Z) (s : string) :
  lower_table tbl →
  @ToLower (unicode_lower_of tbl) (@ToLower (unicode_lower_of tbl) s)
  = @ToLower (unicode_lower_of tbl) s.
Proof.
  intros Htbl. rewrite !ToLower_is_Map, !Map_is_rest. by apply Map_rest_idemp.
Qed.

End Utf8Facts.

Section CacheKeyFacts.
Context {DB Any T I Index : Type}.
Context `{!GoZero T, !Table T I Index, !Helpers I Index}.
(** [unicode.To(unicode.LowerCase, r)] for the runes above ASCII. *)
Context (case_table : Z → Z).

Local Abbreviation ToLower :=
  (@Strings.ToLower (Strings.unicode_lower_of case_table)).
Local Abbreviation CacheKey :=
  (@FullRedisCache.CacheKey DB Any T I (Strings.unicode_lower_of case_table)).

(** C9. For every prefix and table, whatever their bytes, the
    whole-collection key depends on the two only and is the lowered prefix,
    a slash, the lowered table and [/full], so that prefixes and tables
    that differ in case only give one key.  Lowering is [strings.ToLower]:
    the rune-wise [strings.Map] of [unicode.ToLower], on ASCII strings the
    byte-wise lowering.  With a lower-case table the key holds no ASCII
    capital and lowering it again leaves it as it is. *)
Theorem CacheKey_lowercase_slash_delimited :
  (∀ s1 s2 : FullRedisCache.t DB Any T I,
     prefix (FullRedisCache.base s1) = prefix (FullRedisCache.base s2) →
     table (FullRedisCache.base s1) = table (FullRedisCache.base s2) →
     CacheKey s1 = CacheKey s2)
  ∧ (∀ s : FullRedisCache.t DB Any T I,
     CacheKey s =
       ToLower (prefix (FullRedisCache.base s)) +:+ "/"
       +:+ ToLower (table (FullRedisCache.base s)) +:+ "/full")
  ∧ (∀ s1 s2 : FullRedisCache.t DB Any T I,
     ToLower (prefix (FullRedisCache.base s1))
       = ToLower (prefix (FullRedisCache.base s2)) →
     ToLower (table (FullRedisCache.base s1))
       = ToLower (table (FullRedisCache.base s2)) →
     CacheKey s1 = CacheKey s2)
  ∧ (∀ str : string,
     ToLower str = Strings.Map (Strings.unicode_ToLower case_table) str)
  ∧ (Strings.lower_table case_table →
     ∀ s : FullRedisCache.t DB Any T I,
       Strings.hasUpper (CacheKey s) = false
       ∧ ToLower (CacheKey s) = CacheKey s)
  ∧ (∀ s : FullRedisCache.t DB Any T I,
     Strings.isASCII (prefix (FullRedisCache.base s)) = true →
     Strings.isASCII (table (FullRedisCache.base s)) = true →
     CacheKey s =
       Strings.lower_ascii (prefix (FullRedisCache.base s)) +:+ "/"
       +:+ Strings.lower_ascii (table (FullRedisCache.base s)) +:+ "/full").
Proof.
  assert (Hshape : ∀ s : FullRedisCache.t DB Any T I,
     CacheKey s =
       ToLower (prefix (FullRedisCache.base s)) +:+ "/"
       +:+ ToLower (table (FullRedisCache.base s)) +:+ "/full").
  { intros s. unfold FullRedisCache.CacheKey.
    change (?p +:+ "/" +:+ ?t +:+ "/full")
      with (p +:+ String "/" (t +:+ String "/" "full")).
    by rewrite !Utf8Facts.ToLower_app_ascii. }
  split; [|split; [exact Hshape|split; [|split; [|split]]]].
  - intros s1 s2 Hp Ht. unfold FullRedisCache.CacheKey. by rewrite Hp, Ht.
  - intros s1 s2 Hp Ht. by rewrite !Hshape, Hp, Ht.
  - apply Utf8Facts.ToLower_is_Map.
  - intros Htbl s. unfold FullRedisCache.CacheKey. split.
    + by apply Utf8Facts.hasUpper_ToLower.
    + by apply Utf8Facts.ToLower_idemp.
  - intros s Hp Ht. rewrite Hshape.
    by rewrite !StringsFacts.ToLower_ascii.
Qed.

End CacheKeyFacts.

Lemma To_LowerCase_rows (r : Z) :
  ((0xC0 ≤ r ≤ 0xDE ∧ r ≠ 0xD7 ∧ To_LowerCase r = r + 32)
   ∨ (¬ (0xC0 ≤ r ≤ 0xDE ∧ r ≠ 0xD7) ∧ To_LowerCase r = r))%Z.
Proof. unfold To_LowerCase. Utf8Facts.cases_Z; cbn [andb negb]; lia. Qed.

(** The Latin-1 rows are a lower-case table. *)
Lemma To_LowerCase_lower_table : Strings.lower_table To_LowerCase.
Proof.
  intros r Hr Hv%Utf8Facts.ValidRune_range. unfold Strings.MaxRune in Hv.
  assert (Hx : (0x7F < To_LowerCase r ≤ 0xFF ∨ To_LowerCase r = r)%Z
               ∧ To_LowerCase (To_LowerCase r) = To_LowerCase r).
  { destruct (To_LowerCase_rows r) as [(H1 & H2 & ->)|(H1 & ->)].
    - split; [lia|]. destruct (To_LowerCase_rows (r + 32)) as [?|[_ ->]]; lia.
    - split; [lia|]. destruct (To_LowerCase_rows r) as [?|[_ ->]]; lia. }
  destruct Hx as [Hx Hi]. split.
  - apply Utf8Facts.ValidRune_range. unfold Strings.MaxRune. lia.
  - unfold Strings.unicode_ToLower.
    destruct (Z.leb_spec (To_LowerCase r) 0x7F); [lia | exact Hi].
Qed.

(** Run on the user table with the Latin-1 rows of the case table: the
    capital A with diaeresis of the prefix is lowered with the ASCII
    capitals, and the prefix and table in capitals give the same key; the
    key of [App] and [Users] is the same whatever the ID field and the
    time-to-live. *)
Lemma CacheKey_lowercase_slash_delimited_witness :
  Strings.lower_table To_LowerCase
  ∧ FullRedisCache.CacheKey umlaut_cache = "äpp/users/full"
  ∧ Strings.hasUpper (FullRedisCache.CacheKey umlaut_cache) = false
  ∧ Strings.ToLower (FullRedisCache.CacheKey umlaut_cache)
      = FullRedisCache.CacheKey umlaut_cache
  ∧ FullRedisCache.CacheKey
      (FullRedisCache.mk (mkCacheBase "ÄPP" "USERS" "ID") full_db
         (RedisHashJson.mk codec ttl)) = FullRedisCache.CacheKey umlaut_cache
  ∧ FullRedisCache.CacheKey full_cache = "app/users/full"
  ∧ FullRedisCache.CacheKey
      (FullRedisCache.mk (mkCacheBase "App" "Users" "Uid") full_db
         (RedisHashJson.mk codec 1)) = FullRedisCache.CacheKey full_cache.
Proof.
  destruct (@CacheKey_lowercase_slash_delimited store any user string To_LowerCase)
    as (Hdet & Hshape & Hcase & _ & Hlow & Hascii).
  destruct (Hlow To_LowerCase_lower_table umlaut_cache) as [Hup Hfix].
  split; [exact To_LowerCase_lower_table|].
  split; [|split; [exact Hup|split; [exact Hfix|split; [|split]]]].
  - etrans; [apply (Hshape umlaut_cache)|]. vm_compute. reflexivity.
  - apply Hcase; vm_compute; reflexivity.
  - etrans; [apply (Hascii full_cache); reflexivity|]. reflexivity.
  - apply Hdet; reflexivity.
Defined.

(** ** Invalidation on update *)

Section InvalidationFacts.
Context {DB Any T Index : Type}.
Context `{!GoZero T, !Table T string Index, !Helpers string Index}.
Context (MakeCacheKey : CacheBase → Index → string).
Context (as_map : Any → option (list (string * Any))).
Context (s : RedisMongo.t DB Any T).

Local Abbreviation key := (MakeCacheKey (RedisMongo.base s)).
Local Abbreviation primary id :=
  (MakeCacheKey (RedisMongo.base s) (NewIndex (idField (RedisMongo.base s)) id)).

Lemma ClearCache_keys_NoDup (id : string) (indexes : list Index) :
  NoDup (RedisMongo.ClearCache_keys MakeCacheKey s id indexes).
Proof. apply NoDup_remove_dups. Qed.

Lemma elem_of_ClearCache_keys (id : string) (indexes : list Index) (k : string) :
  IsNullID id = false →
  k ∈ RedisMongo.ClearCache_keys MakeCacheKey s id indexes
  ↔ k = primary id ∨ ∃ i, i ∈ indexes ∧ k = key i.
Proof.
  intros Hid. unfold RedisMongo.ClearCache_keys, UniqueStrings.
  rewrite Hid. simpl. rewrite elem_of_remove_dups.
  rewrite (foldl_snoc_map key). rewrite elem_of_app, list_elem_of_singleton.
  change (map key indexes) with (key <$> indexes). rewrite list_elem_of_fmap.
  split; (intros [?|(i & ? & ?)]; [by left | right; by exists i]).
Qed.

Lemma ClearCache_run (id : string) (indexes : list Index) (w : World DB) :
  RedisMongo.ClearCache MakeCacheKey s id indexes w =
    let keys := RedisMongo.ClearCache_keys MakeCacheKey s id indexes in
    (Done (Redis.Del keys (redis w)).1,
     mkWorld (backend w) (Redis.Del keys (redis w)).2
             (trace w ++ [Cache (Redis.CDel keys)])).
Proof.
  unfold RedisMongo.ClearCache, cache_call. simpl.
  destruct (Redis.Del _ _). reflexivity.
Qed.

(** The successful path of [Update]: read, write, read again, then one
    DEL of the keys of the entity before and after. *)
Lemma Update_run (id : string) (values : Any) (m : list (string * Any))
    (n : Z) (old new : T) (r0 r1 : SingleResult T) (b1 b2 b3 : DB)
    (w : World DB) :
  IsNullID id = false →
  FindOne (RedisMongo.c s) id (backend w) = (r0, b1) →
  sr_Err r0 = None → sr_Decode r0 zero = (old, None) →
  as_map values = Some m →
  UpdateOne (RedisMongo.c s) id m b1 = ((n, None), b2) →
  FindOne (RedisMongo.c s) id b2 = (r1, b3) →
  sr_Err r1 = None → sr_Decode r1 zero = (new, None) →
  RedisMongo.Update MakeCacheKey as_map s id values w =
    let keys := RedisMongo.ClearCache_keys MakeCacheKey s (GetID old)
                  (Merge (ListIndexes old) (ListIndexes new)) in
    (Done (n, None),
     mkWorld b3 (Redis.Del keys (redis w)).2
       (trace w ++ [Backend MgFindOne; Backend MgUpdateOne; Backend MgFindOne;
                    Cache (Redis.CDel keys)])).
Proof.
  intros Hid Hf0 He0 Hd0 Hmap Hupd Hf1 He1 Hd1.
  unfold RedisMongo.Update. rewrite Hid.
  unfold mbind, M_bind at 1.
  rewrite (mongo_Get_found s id w r0 b1 old Hf0 He0 Hd0).
  rewrite Hmap, foldl_snoc. simpl.
  unfold mbind, M_bind at 1. unfold backend_do at 1. simpl.
  rewrite Hupd.
  unfold mbind, M_bind at 1.
  match goal with
  | |- context [RedisMongo.Get s id ?w'] =>
      rewrite (mongo_Get_found s id w' r1 b3 new Hf1 He1 Hd1)
  end.
  unfold mbind, M_bind. rewrite ClearCache_run. simpl.
  rewrite <- !app_assoc. reflexivity.
Qed.

(** C1. An entity with a non-null ID and index set [{i1, i2}] is updated
    so that its index set becomes [{i2, i3}].  Then [Update] sends the
    cache exactly one command, a DEL whose key list has no duplicates and
    holds the primary-key cache key and the keys of [i1], [i2] and [i3],
    and nothing else; when the server is reachable those keys are gone
    afterwards and every other key is as it was. *)
Theorem Update_invalidates_old_and_new_index_keys
    (id : string) (values : Any) (m : list (string * Any)) (n : Z)
    (old new : T) (i1 i2 i3 : Index) (r0 r1 : SingleResult T)
    (b1 b2 b3 : DB) (w : World DB) :
  IsNullID id = false →
  FindOne (RedisMongo.c s) id (backend w) = (r0, b1) →
  sr_Err r0 = None → sr_Decode r0 zero = (old, None) →
  as_map values = Some m →
  UpdateOne (RedisMongo.c s) id m b1 = ((n, None), b2) →
  FindOne (RedisMongo.c s) id b2 = (r1, b3) →
  sr_Err r1 = None → sr_Decode r1 zero = (new, None) →
  IsNullID (GetID old) = false →
  (∀ i, i ∈ ListIndexes old ↔ i = i1 ∨ i = i2) →
  (∀ i, i ∈ ListIndexes new ↔ i = i2 ∨ i = i3) →
  ∃ keys w',
    RedisMongo.Update MakeCacheKey as_map s id values w = (Done (n, None), w')
    ∧ cache_cmds (trace w') = cache_cmds (trace w) ++ [Redis.CDel keys]
    ∧ NoDup keys
    ∧ (∀ k, k ∈ keys ↔
         k = primary (GetID old) ∨ k = key i1 ∨ k = key i2 ∨ k = key i3)
    ∧ (Redis.reachable (redis w) →
       ∀ k, Redis.keyspace (redis w') !! k =
              if decide (k ∈ keys) then None else Redis.keyspace (redis w) !! k).
Proof.
  intros Hid Hf0 He0 Hd0 Hmap Hupd Hf1 He1 Hd1 Hold Hi_old Hi_new.
  eexists _, _. split.
  { by eapply Update_run. }
  simpl. split; [|split; [|split]].
  - rewrite cache_cmds_app. reflexivity.
  - apply ClearCache_keys_NoDup.
  - intros k. rewrite elem_of_ClearCache_keys by done.
    unfold Merge. split.
    + intros [?|(i & Hi & ->)]; [by left|].
      apply elem_of_app in Hi as [Hi|Hi].
      * apply Hi_old in Hi as [->| ->]; auto.
      * apply Hi_new in Hi as [->| ->]; auto.
    + intros [?|[->|[->| ->]]]; [by left| | |]; right.
      * exists i1. split; [|done]. apply elem_of_app. left. apply Hi_old. auto.
      * exists i2. split; [|done]. apply elem_of_app. left. apply Hi_old. auto.
      * exists i3. split; [|done]. apply elem_of_app. right. apply Hi_new. auto.
  - intros Hr k. unfold Redis.Del. rewrite RedisFacts.send_reachable by done.
    simpl. apply RedisFacts.lookup_del_keys.
Qed.

End InvalidationFacts.

(** Run on the user table: renaming a user deletes her primary key, her
    e-mail key and both name keys, and leaves the other user cached. *)
Lemma Update_invalidates_old_and_new_index_keys_witness :
  IsNullID "u1" = false
  ∧ ∃ keys w',
      RedisMongo.Update MakeCacheKey as_map coordinator "u1"
        (AMap [("name", "al")]) w_cached = (Done (1, None), w')
      ∧ cache_cmds (trace w') = cache_cmds (trace w_cached) ++ [Redis.CDel keys]
      ∧ NoDup keys
      ∧ (∀ k, k ∈ keys ↔
           k = "app/users/id/u1" ∨ k = "app/users/name/alice"
           ∨ k = "app/users/email/a@x.org" ∨ k = "app/users/name/al")
      ∧ (∀ k, Redis.keyspace (redis w') !! k =
           if decide (k ∈ keys) then None
           else Redis.keyspace (redis w_cached) !! k).
Proof.
  split; [reflexivity|].
  destruct (Update_invalidates_old_and_new_index_keys MakeCacheKey as_map
              coordinator "u1" (AMap [("name", "al")]) [("name", AStr "al")] 1
              alice (User "u1" "al" "a@x.org")
              [("name", "alice")] [("email", "a@x.org")] [("name", "al")]
              (found alice) (found (User "u1" "al" "a@x.org"))
              (Store [alice; bob] [])
              (Store [User "u1" "al" "a@x.org"; bob] [])
              (Store [User "u1" "al" "a@x.org"; bob] [])
              w_cached)
    as (keys & w' & Hrun & Htrace & Hnodup & Hkeys & Hgone);
    try reflexivity.
  - intros i. simpl. rewrite !elem_of_cons, elem_of_nil. tauto.
  - intros i. simpl. rewrite !elem_of_cons, elem_of_nil. tauto.
  - exists keys, w'. split; [exact Hrun|]. split; [exact Htrace|].
    split; [exact Hnodup|]. split; [exact Hkeys|].
    apply Hgone. reflexivity.
Defined.

(** ** Where the code departs from the specification *)

(** C3. In [Save], [Update] and [Delete] of the whole-collection cache the
    result of the reload is dropped: with a backend write that succeeds
    and a reload that fails, they return a nil error.  [Create], on the
    same failure, returns the error of the reload. *)
Lemma reload_failure_is_dropped :
  FullRedisCache.Update AUser full_cache "u1" (AMap [("name", "al")]) w_reload_down
    = (Done (1, None),
       mkWorld (Store [User "u1" "al" "a@x.org"; bob] []) (redis w_reload_down)
               [Backend DbUpdate; Backend DbListAll])
  ∧ FullRedisCache.Delete AUser full_cache ["u1"] w_reload_down
    = (Done (1, None),
       mkWorld (Store [bob] []) (redis w_reload_down)
               [Backend DbDelete; Backend DbListAll])
  ∧ (FullRedisCache.Save AUser full_cache alicia w_save_reload_down).1
    = Done (alicia, None)
  ∧ backend_calls (trace (FullRedisCache.Save AUser full_cache alicia
                            w_save_reload_down).2)
    = [DbListAll; DbSave; DbListAll]
  ∧ FullRedisCache.Create AUser full_cache carol w_reload_down
    = (Done (carol, Some down),
       mkWorld (Store [alice; bob; carol] []) (redis w_reload_down)
               [Backend DbCreate; Backend DbListAll]).
Proof. repeat split. Qed.

(** C5. [Save] of an entity that exists replaces it in the backend and
    returns without sending the cache any command: the entry cached under
    the primary key still decodes to the entity as it was before. *)
Lemma Save_existing_sends_no_invalidation :
  ∃ w',
    RedisMongo.Save MakeCacheKey reflect_SetString coordinator (Some alicia) w_cached
      = (Done (Some alicia, None), w')
    ∧ rows (backend w') = [alicia; bob]
    ∧ trace w' = [Backend MgFindOne; Backend MgFindOneAndReplace]
    ∧ redis w' = redis w_cached
    ∧ (RedisJson.GetJson json_store "app/users/id/u1" w').1
      = Done (alice, true, None).
Proof. eexists. repeat split. Qed.

(** [MGetJson], the counterpart of [HMGetJson] for plain keys, tests each
    slot against [nil] first and reports the position as missed. *)
Example MGetJson_records_missing_key :
  (RedisJson.MGetJson json_store ["app/users/id/u1"; "app/users/id/u9"] w_cached).1
    = Done ([alice; zero], [1%nat], None).
Proof. reflexivity. Qed.

(** C6. [List] with an ID that the loaded snapshot does not hold panics:
    HMGET answers [nil] for that field and [HMGetJson] asserts every slot
    to be a string.  With IDs that are all present it returns them. *)
Lemma List_absent_id_panics :
  (FullRedisCache.List AUser full_cache ["u1"; "u9"] w_users).1
    = Panic "interface conversion: interface {} is nil, not string"
  ∧ cache_cmds (trace (FullRedisCache.List AUser full_cache ["u1"; "u9"] w_users).2)
    = [Redis.CExists "app/users/full";
       Redis.CHSet "app/users/full" ["u1"; "u1|alice|a@x.org"; "u2"; "u2|bob|b@x.org"];
       Redis.CExpire "app/users/full" ttl;
       Redis.CHMGet "app/users/full" ["u1"; "u9"]]
  ∧ (FullRedisCache.List AUser full_cache ["u1"; "u2"] w_users).1
    = Done ([alice; bob], None).
Proof. repeat split. Qed.

(** * Further properties of the code *)

(** ** More on the Redis server *)

Module RedisSteps.

Lemma send_quiet {A} (r : Redis.t) (d : A) body :
  Redis.faults r = [] →
  Redis.send r d body =
    ((body (Redis.keyspace r)).1, Redis.Server (body (Redis.keyspace r)).2 []).
Proof.
  intros Hq. rewrite RedisFacts.send_reachable.
  - by rewrite Hq.
  - unfold Redis.reachable. by rewrite Hq.
Qed.

Lemma send_unreachable {A} (r : Redis.t) (d : A) body :
  hd false (Redis.faults r) = true →
  Redis.send r d body = (d, Redis.Server (Redis.keyspace r) (tl (Redis.faults r))).
Proof.
  unfold Redis.send, Redis.next_fault.
  destruct r as [ks [|b fs]]; simpl; [discriminate|]. by intros ->.
Qed.

Lemma lookup_expire_key (key k : string) (ttl : Duration)
    (ks : gmap string Redis.entry) :
  0 < ttl →
  Redis.expire_key key ttl ks !! k =
    if decide (k = key) then Redis.with_ttl ttl <$> ks !! k else ks !! k.
Proof.
  intros Httl. unfold Redis.expire_key.
  destruct (decide (k = key)) as [->|Hne].
  - destruct (ks !! key) as [[v t]|] eqn:Hk; [|by rewrite Hk].
    destruct (Z.leb_spec ttl 0); [lia|]. by rewrite lookup_insert_eq.
  - destruct (ks !! key) as [[v t]|]; [|done].
    destruct (Z.leb_spec ttl 0); [lia|]. by rewrite lookup_insert_ne.
Qed.

Lemma with_ttl_idemp (ttl : Duration) (o : option Redis.entry) :
  Redis.with_ttl ttl <$> (Redis.with_ttl ttl <$> o) = Redis.with_ttl ttl <$> o.
Proof. by destruct o. Qed.

Lemma lookup_run_expires (ttl : Duration) (keys : list string) (k : string)
    (ks : gmap string Redis.entry) :
  0 < ttl →
  foldl (λ acc c, Redis.run_queued c acc) ks
        (map (λ k, Redis.QExpire k ttl) keys) !! k =
    if decide (k ∈ keys) then Redis.with_ttl ttl <$> ks !! k else ks !! k.
Proof.
  intros Httl. revert ks. induction keys as [|a keys IH]; intros ks; simpl.
  - destruct (decide (k ∈ [])) as [Hin|_]; [by apply elem_of_nil in Hin | done].
  - rewrite IH, !lookup_expire_key by done.
    destruct (decide (k ∈ keys)) as [Hin|Hnin];
      destruct (decide (k = a)) as [->|Hne];
      destruct (decide (_ ∈ a :: keys)) as [Hin'|Hnin']; try done.
    + by rewrite with_ttl_idemp.
    + exfalso. apply Hnin'. left.
    + exfalso. apply Hnin'. by right.
    + exfalso. apply Hnin'. left.
    + apply elem_of_cons in Hin' as [?|?]; congruence.
Qed.

Lemma lookup_run_nulls (ttl : Duration) (keys : list string) (k : string)
    (ks : gmap string Redis.entry) :
  0 < ttl →
  foldl (λ acc c, Redis.run_queued c acc) ks
        (map (λ k, Redis.QSetEX k "null" ttl) keys) !! k =
    if decide (k ∈ keys)
    then Some (Redis.Entry (Redis.RString "null") (Some ttl)) else ks !! k.
Proof.
  intros Httl. revert ks. induction keys as [|a keys IH]; intros ks; simpl.
  - destruct (decide (k ∈ [])) as [Hin|_]; [by apply elem_of_nil in Hin | done].
  - rewrite IH. destruct (Z.leb_spec ttl 0); [lia|].
    destruct (decide (k ∈ keys)) as [Hin|Hnin];
      destruct (decide (_ ∈ a :: keys)) as [Hin'|Hnin']; try done.
    + exfalso. apply Hnin'. by right.
    + apply elem_of_cons in Hin' as [->|?]; [|done]. by rewrite lookup_insert_eq.
    + rewrite lookup_insert_ne; [done|]. intros ->. apply Hnin'. left.
Qed.

End RedisSteps.

(** ** More on the keyed store *)

Section KeyedStoreReads.
Context {DB Any T : Type} `{!GoZero T}.
Context (box : T → Any) (s : RedisJson.t Any T).

Local Abbreviation ser := (RedisJson.serializer s).

Lemma GetJson_run (k : string) (w : World DB) :
  RedisJson.GetJson s k w =
    let '((y, err), r) := Redis.Get k (redis w) in
    let w' := mkWorld (backend w) r (trace w ++ [Cache (Redis.CGet k)]) in
    match err with
    | Some e =>
        if decide (e = RedisNil) then (Done (zero, false, None), w')
        else (Done (zero, false, Some e), w')
    | None =>
        (Done ((Unmarshal ser y zero).1, true, (Unmarshal ser y zero).2), w')
    end.
Proof.
  unfold RedisJson.GetJson. run.
  destruct (Redis.Get k (redis w)) as [[y [e|]] r]; simpl.
  - by destruct (decide (e = RedisNil)).
  - by destruct (Unmarshal ser y zero).
Qed.

(** X1. What [GetJson] answers.  A key that is not there is no error: the
    result is [(zero, false, nil)].  A key that holds a string is reported
    as found together with whatever the decoder returns, so a payload that
    does not decode gives [found = true] and the decoding error.  When the
    server cannot be reached the connectivity error is returned with
    [found = false].  In no case does the key space change. *)
Theorem GetJson_outcomes (k : string) (w : World DB) :
  (Redis.reachable (redis w) →
   Redis.keyspace (redis w) !! k = None →
   ∃ w', RedisJson.GetJson s k w = (Done (zero, false, None), w')
         ∧ Redis.keyspace (redis w') = Redis.keyspace (redis w))
  ∧ (∀ y t,
     Redis.reachable (redis w) →
     Redis.keyspace (redis w) !! k = Some (Redis.Entry (Redis.RString y) t) →
     ∃ w', RedisJson.GetJson s k w =
             (Done ((Unmarshal ser y zero).1, true, (Unmarshal ser y zero).2), w')
           ∧ Redis.keyspace (redis w') = Redis.keyspace (redis w))
  ∧ (hd false (Redis.faults (redis w)) = true →
     ∃ w', RedisJson.GetJson s k w = (Done (zero, false, Some RedisConn), w')
           ∧ Redis.keyspace (redis w') = Redis.keyspace (redis w)).
Proof.
  split; [|split].
  - intros Hr Hk. rewrite GetJson_run. unfold Redis.Get.
    rewrite RedisFacts.send_reachable by done. rewrite Hk. simpl. eauto.
  - intros y t Hr Hk. rewrite GetJson_run.
    rewrite (RedisFacts.Get_reachable k y t _ Hr Hk). simpl. eauto.
  - intros Hf. rewrite GetJson_run. unfold Redis.Get.
    rewrite RedisSteps.send_unreachable by done. simpl. eauto.
Qed.

(** X2. [SetJson] never panics, leaves the backend alone and changes no
    key but its own; when it returns an error (the value does not
    marshal, the server is unreachable or rejects the time-to-live) the
    key space is what it was. *)
Theorem SetJson_touches_only_its_key (k : string) (E : T) (w : World DB) :
  ∃ err w', RedisJson.SetJson box s k E w = (Done err, w')
    ∧ backend w' = backend w
    ∧ (∀ k', k' ≠ k →
         Redis.keyspace (redis w') !! k' = Redis.keyspace (redis w) !! k')
    ∧ (err ≠ None → Redis.keyspace (redis w') = Redis.keyspace (redis w)).
Proof.
  unfold RedisJson.SetJson.
  destruct (Marshal ser (box E)) as [y [e|]]; simpl.
  { exists (Some e), w. by repeat split. }
  run. unfold Redis.SetEX, Redis.send, Redis.next_fault, Redis.with_keyspace.
  destruct (redis w) as [ks [|[] fs]]; simpl;
    destruct (Z.leb_spec (RedisJson.ttl s) 0); simpl;
    eexists _, _; (split; [reflexivity|]); simpl;
    repeat split; try done; intros k' Hk'; by rewrite lookup_insert_ne.
Qed.

(** X3. [Expires] on no key sends nothing.  On a non-empty list, with a
    positive time-to-live and a reachable server, it returns nil, gives
    every listed key that exists the configured time-to-live, creates none
    of the listed keys that are missing and leaves all values and all
    other keys as they were. *)
Theorem Expires_refreshes_present_keys (keys : list string) (w : World DB) :
  (keys = [] → RedisJson.Expires s keys w = (Done None, w))
  ∧ (keys ≠ [] → 0 < RedisJson.ttl s → Redis.reachable (redis w) →
     ∃ w', RedisJson.Expires s keys w = (Done None, w')
       ∧ ∀ k, Redis.keyspace (redis w') !! k =
           if decide (k ∈ keys)
           then Redis.with_ttl (RedisJson.ttl s) <$> Redis.keyspace (redis w) !! k
           else Redis.keyspace (redis w) !! k).
Proof.
  split.
  - intros ->. reflexivity.
  - intros Hne Httl Hr. rewrite Expires_run by done.
    unfold Redis.Exec. rewrite RedisFacts.send_reachable by done. simpl.
    eexists. split; [reflexivity|]. simpl. intros k.
    by apply RedisSteps.lookup_run_expires.
Qed.

Lemma MSetNull_loop_queues (keys : list string) (p : Redis.Pipeline) :
  RedisJson.MSetNull_loop s keys p = inr (p ++ RedisJson.null_batch s keys).
Proof.
  revert p. induction keys as [|k keys IH]; intros p; simpl.
  - by rewrite app_nil_r.
  - rewrite IH. by rewrite <- app_assoc.
Qed.

(** X4. [MSetNull] on no key sends nothing.  On a non-empty list, with a
    positive time-to-live and a reachable server, it sends one pipeline,
    returns nil and leaves the sentinel [null] with the configured
    time-to-live under every listed key, overwriting what was there; the
    other keys are untouched. *)
Theorem MSetNull_writes_sentinel (keys : list string) (w : World DB) :
  (keys = [] → RedisJson.MSetNull s keys w = (Done None, w))
  ∧ (keys ≠ [] → 0 < RedisJson.ttl s → Redis.reachable (redis w) →
     ∃ w', RedisJson.MSetNull s keys w = (Done None, w')
       ∧ cache_cmds (trace w') =
           cache_cmds (trace w) ++ [Redis.CExec (RedisJson.null_batch s keys)]
       ∧ ∀ k, Redis.keyspace (redis w') !! k =
           if decide (k ∈ keys)
           then Some (Redis.Entry (Redis.RString "null") (Some (RedisJson.ttl s)))
           else Redis.keyspace (redis w) !! k).
Proof.
  split.
  - intros ->. reflexivity.
  - intros Hne Httl Hr. unfold RedisJson.MSetNull.
    destruct (decide (length keys = 0%nat)) as [Hlen|_].
    { destruct keys; [done | discriminate]. }
    rewrite MSetNull_loop_queues. simpl. unfold cache_call.
    unfold Redis.Exec. rewrite RedisFacts.send_reachable by done. simpl.
    eexists. split; [reflexivity|]. simpl. split.
    + by rewrite cache_cmds_cache.
    + intros k. by apply RedisSteps.lookup_run_nulls.
Qed.

End KeyedStoreReads.

Section KeyedStoreBatches.
Context {DB Any T : Type} `{!GoZero T}.
Context (box : T → Any) (s : RedisJson.t Any T).

Local Abbreviation ser := (RedisJson.serializer s).

Lemma lookup_marshalled_other (entries : list (string * Any))
    (acc : gmap string string) (k : string) :
  k ∉ entries.*1 → RedisJson.marshalled s entries acc !! k = acc !! k.
Proof.
  revert acc. induction entries as [|[k0 v0] entries IH]; intros acc Hk; [done|].
  apply not_elem_of_cons in Hk as [Hne Hk].
  unfold RedisJson.marshalled in *. simpl. rewrite IH by done.
  by rewrite lookup_insert_ne.
Qed.

Lemma lookup_marshalled (entries : list (string * Any))
    (acc : gmap string string) (k : string) (v : Any) :
  NoDup entries.*1 → (k, v) ∈ entries →
  RedisJson.marshalled s entries acc !! k = Some (Marshal ser v).1.
Proof.
  revert acc. induction entries as [|[k0 v0] entries IH]; intros acc Hnd Hin.
  { by apply elem_of_nil in Hin. }
  apply NoDup_cons in Hnd as [Hk0 Hnd].
  apply elem_of_cons in Hin as [[= -> ->]|Hin].
  - change (RedisJson.marshalled s ((k0, v0) :: entries) acc)
      with (RedisJson.marshalled s entries (<[k0 := (Marshal ser v0).1]> acc)).
    rewrite lookup_marshalled_other by done. by rewrite lookup_insert_eq.
  - by apply IH.
Qed.

Lemma lookup_after_MSet (pairs : gmap string string)
    (ks : gmap string Redis.entry) (k : string) :
  (((λ v, Redis.Entry (Redis.RString v) None) <$> pairs) ∪ ks) !! k =
    match pairs !! k with
    | Some y => Some (Redis.Entry (Redis.RString y) None)
    | None => ks !! k
    end.
Proof.
  rewrite lookup_union, lookup_fmap.
  destruct (pairs !! k); simpl; [by destruct (ks !! k)|].
  by destruct (ks !! k).
Qed.

(** X5. A batch that marshals, written to a reachable server with a
    positive time-to-live: [MSetJson] returns nil, every key of the batch
    then holds the marshalled value of its entry with the configured
    time-to-live, and the keys outside the batch are as they were.  (The
    keys of a Go map are distinct.) *)
Theorem MSetJson_stores_every_pair (objMap : list (string * Any)) (w : World DB) :
  Forall (RedisJson.marshals s) objMap →
  objMap ≠ [] →
  NoDup objMap.*1 →
  0 < RedisJson.ttl s →
  Redis.faults (redis w) = [] →
  ∃ w', RedisJson.MSetJson s objMap w = (Done None, w')
    ∧ (∀ k v, (k, v) ∈ objMap →
         Redis.keyspace (redis w') !! k =
           Some (Redis.Entry (Redis.RString (Marshal ser v).1)
                             (Some (RedisJson.ttl s))))
    ∧ (∀ k, k ∉ objMap.*1 →
         Redis.keyspace (redis w') !! k = Redis.keyspace (redis w) !! k).
Proof.
  intros Hall Hne Hnd Httl Hq. unfold RedisJson.MSetJson.
  destruct (decide (length objMap = 0%nat)) as [Hlen|_].
  { destruct objMap; [done | discriminate]. }
  rewrite MSetJson_loop_all by done. simpl.
  unfold mbind, M_bind, cache_call. unfold Redis.MSet at 1.
  rewrite RedisSteps.send_quiet by done. simpl.
  rewrite Expires_run by (destruct objMap; [done | discriminate]).
  unfold Redis.Exec. rewrite RedisSteps.send_quiet by done. simpl.
  eexists. split; [reflexivity|]. simpl. split.
  - intros k v Hin. unfold RedisJson.expire_batch.
    rewrite RedisSteps.lookup_run_expires by done.
    rewrite decide_True by (apply list_elem_of_fmap; by exists (k, v)).
    rewrite lookup_after_MSet. by rewrite (lookup_marshalled _ _ k v).
  - intros k Hk. unfold RedisJson.expire_batch.
    rewrite RedisSteps.lookup_run_expires by done.
    rewrite decide_False by done.
    rewrite lookup_after_MSet. by rewrite lookup_marshalled_other, lookup_empty.
Qed.

(** X6. When the MSET of [MSetJson] goes through and the pipeline that
    follows does not reach the server, the connectivity error is returned
    and nothing is rolled back: every key of the batch holds its value
    with no time-to-live at all. *)
Theorem MSetJson_failed_expiry_leaves_persistent_keys
    (objMap : list (string * Any)) (w : World DB) :
  Forall (RedisJson.marshals s) objMap →
  objMap ≠ [] →
  NoDup objMap.*1 →
  Redis.reachable (redis w) →
  hd false (tl (Redis.faults (redis w))) = true →
  ∃ w', RedisJson.MSetJson s objMap w = (Done (Some RedisConn), w')
    ∧ (∀ k v, (k, v) ∈ objMap →
         Redis.keyspace (redis w') !! k =
           Some (Redis.Entry (Redis.RString (Marshal ser v).1) None))
    ∧ (∀ k, k ∉ objMap.*1 →
         Redis.keyspace (redis w') !! k = Redis.keyspace (redis w) !! k).
Proof.
  intros Hall Hne Hnd Hr Hf. unfold RedisJson.MSetJson.
  destruct (decide (length objMap = 0%nat)) as [Hlen|_].
  { destruct objMap; [done | discriminate]. }
  rewrite MSetJson_loop_all by done. simpl.
  unfold mbind, M_bind, cache_call. unfold Redis.MSet at 1.
  rewrite RedisFacts.send_reachable by done. simpl.
  rewrite Expires_run by (destruct objMap; [done | discriminate]).
  unfold Redis.Exec. rewrite RedisSteps.send_unreachable by done. simpl.
  eexists. split; [reflexivity|]. simpl. split.
  - intros k v Hin. rewrite lookup_after_MSet.
    by rewrite (lookup_marshalled _ _ k v).
  - intros k Hk. rewrite lookup_after_MSet.
    by rewrite lookup_marshalled_other, lookup_empty.
Qed.

End KeyedStoreBatches.

Section KeyedStoreBatchReads.
Context {DB Any T : Type} `{!GoZero T}.
Context (s : RedisJson.t Any T).

Local Abbreviation ser := (RedisJson.serializer s).


(** The first reply that does not decode ends the loop with its error. *)
Lemma MGetJson_loop_first_error (pre post : list (option string)) (y : string)
    (e : err) (i : nat) (r : list T) (missed : list nat) :
  Forall (RedisJson.decodes s) pre →
  (Unmarshal ser y zero).2 = Some e →
  ∃ missed',
    RedisJson.MGetJson_loop s (pre ++ Some y :: post) i r missed
      = inl (e, missed').
Proof.
  intros Hpre He. revert i r missed.
  induction Hpre as [|v pre Hv _ IH]; intros i r missed; simpl.
  - destruct (Unmarshal ser y zero) as [t err]. simpl in He. subst err. eauto.
  - destruct v as [y'|]; [|apply IH].
    specialize (Hv y' eq_refl).
    destruct (Unmarshal ser y' zero) as [t err]. simpl in Hv. subst err.
    apply IH.
Qed.




(** X8. When a string found under a requested key does not decode,
    [MGetJson] returns no slots and the decoding error of the first such
    key, and the only command it has sent is the MGET: no time-to-live is
    refreshed. *)
Theorem MGetJson_decode_error_aborts (pre post : list string) (k y : string)
    (e : err) (w : World DB) :
  Redis.reachable (redis w) →
  (∀ k', k' ∈ pre →
     RedisJson.decodes s (Redis.string_at (Redis.keyspace (redis w)) k')) →
  Redis.string_at (Redis.keyspace (redis w)) k = Some y →
  (Unmarshal ser y zero).2 = Some e →
  ∃ missed w',
    RedisJson.MGetJson s (pre ++ k :: post) w = (Done ([], missed, Some e), w')
    ∧ cache_cmds (trace w') =
        cache_cmds (trace w) ++ [Redis.CMGet (pre ++ k :: post)]
    ∧ Redis.keyspace (redis w') = Redis.keyspace (redis w).
Proof.
  intros Hr Hpre Hy He. unfold RedisJson.MGetJson.
  destruct (decide _) as [Hlen|_].
  { rewrite length_app in Hlen. simpl in Hlen. lia. }
  unfold mbind, M_bind, cache_call. unfold Redis.MGet.
  rewrite RedisFacts.send_reachable by done. simpl.
  set (ks := Redis.keyspace (redis w)) in *.
  change (map _ (pre ++ k :: post))
    with (map (Redis.string_at ks) (pre ++ k :: post)).
  rewrite map_app. simpl. rewrite Hy.
  destruct (MGetJson_loop_first_error (map (Redis.string_at ks) pre)
              (map (Redis.string_at ks) post) y e 0
              (replicate (length (pre ++ k :: post)) zero) [])
    as (missed & Hloop); [|done|].
  { apply Forall_forall. intros v (k' & -> & Hk')%(list_elem_of_fmap (Redis.string_at ks)).
    by apply Hpre. }
  rewrite Hloop. simpl. eexists _, _. split; [reflexivity|]. simpl.
  split; [by rewrite cache_cmds_cache | done].
Qed.

End KeyedStoreBatchReads.

(** ** More on the hash store *)

Section HashStore.
Context {DB Any T I Index : Type}.
Context `{!GoZero T, !Table T I Index, !Helpers I Index}.
Context (box : T → Any) (s : RedisHashJson.t Any T).

Local Abbreviation ser := (RedisHashJson.serializer s).
Local Abbreviation args_of objs := (RedisHashJson.args_of box s objs).

Lemma HSetJson_loop_all (objs : list T) (acc : list string) :
  Forall (RedisHashJson.marshals box s) objs →
  RedisHashJson.HSetJson_loop box s objs acc = inr (acc ++ args_of objs).
Proof.
  intros Hall. revert acc.
  induction Hall as [|o objs Ho _ IH]; intros acc; simpl.
  - by rewrite app_nil_r.
  - unfold RedisHashJson.marshals in Ho. unfold RedisHashJson.payload at 1.
    destruct (Marshal ser (box o)) as [y err]. simpl in Ho. subst err.
    rewrite IH. simpl. by rewrite <- app_assoc.
Qed.

Lemma lookup_hset_other (objs : list T) (h : gmap string string) (f : string) :
  f ∉ RedisHashJson.field_of <$> objs →
  Redis.hset_args (args_of objs) h !! f = h !! f.
Proof.
  revert h. induction objs as [|o objs IH]; intros h Hf; [done|].
  rewrite fmap_cons in Hf. apply not_elem_of_cons in Hf as [Hne Hf].
  simpl. rewrite IH by done. by rewrite lookup_insert_ne.
Qed.

Lemma lookup_hset_field (objs : list T) (h : gmap string string) (o : T) :
  NoDup (RedisHashJson.field_of <$> objs) → o ∈ objs →
  Redis.hset_args (args_of objs) h !! RedisHashJson.field_of o
    = Some (RedisHashJson.payload box s o).
Proof.
  revert h. induction objs as [|o' objs IH]; intros h Hnd Hin.
  { by apply elem_of_nil in Hin. }
  rewrite fmap_cons in Hnd. apply NoDup_cons in Hnd as [Hfresh Hnd].
  apply elem_of_cons in Hin as [->|Hin]; simpl.
  - rewrite lookup_hset_other by done. by rewrite lookup_insert_eq.
  - by apply IH.
Qed.

End HashStore.

Section HashStoreSteps.
Context {DB Any T I Index : Type}.
Context `{!GoZero T, !Table T I Index, !Helpers I Index}.
Context (box : T → Any) (s : RedisHashJson.t Any T).

Local Abbreviation ser := (RedisHashJson.serializer s).

Lemma HSetJson_quiet (key : string) (objs : list T) (w : World DB) :
  objs ≠ [] →
  Forall (RedisHashJson.marshals box s) objs →
  Redis.not_a_string (Redis.keyspace (redis w)) key →
  Redis.reachable (redis w) →
  RedisHashJson.HSetJson box s key objs w =
    (Done None,
     mkWorld (backend w)
       (Redis.Server
          (RedisHashJson.hset_keyspace box s key objs (Redis.keyspace (redis w)))
          (tl (Redis.faults (redis w))))
       (trace w ++ [Cache (Redis.CHSet key (RedisHashJson.args_of box s objs))])).
Proof.
  intros Hne Hall Hns Hr. unfold RedisHashJson.HSetJson.
  destruct (decide (length objs = 0%nat)) as [Hlen|_].
  { destruct objs; [done | discriminate]. }
  rewrite HSetJson_loop_all by done. simpl. unfold cache_call.
  unfold Redis.HSet. rewrite RedisFacts.send_reachable by done.
  unfold RedisHashJson.hset_keyspace.
  destruct (Redis.keyspace (redis w) !! key) as [[[v|h] t]|] eqn:Hk; simpl;
    [by destruct (Hns v t) | done | done].
Qed.

Lemma HSetJson_marshal_error (key : string) (pre post : list T) (o : T)
    (y : string) (e : err) (w : World DB) :
  Forall (RedisHashJson.marshals box s) pre →
  Marshal ser (box o) = (y, Some e) →
  RedisHashJson.HSetJson box s key (pre ++ o :: post) w = (Done (Some e), w).
Proof.
  intros Hpre Ho. unfold RedisHashJson.HSetJson.
  destruct (decide _) as [Hlen|_].
  { rewrite length_app in Hlen. simpl in Hlen. lia. }
  assert (Hloop : ∀ acc,
    RedisHashJson.HSetJson_loop box s (pre ++ o :: post) acc = inl (Some e)).
  { induction Hpre as [|o' pre Ho' _ IH]; intros acc; simpl.
    - by rewrite Ho.
    - unfold RedisHashJson.marshals in Ho'.
      destruct (Marshal ser (box o')) as [y' err]. simpl in Ho'. subst err.
      apply IH. }
  by rewrite Hloop.
Qed.

Lemma field_at_hset_other (key : string) (objs : list T)
    (ks : gmap string Redis.entry) (f : string) :
  f ∉ RedisHashJson.field_of <$> objs →
  Redis.field_at (RedisHashJson.hset_keyspace box s key objs ks) key f
    = Redis.field_at ks key f.
Proof.
  intros Hf. unfold RedisHashJson.hset_keyspace, Redis.field_at.
  destruct (ks !! key) as [[[v|h] t]|] eqn:Hk.
  - by rewrite Hk.
  - rewrite lookup_insert_eq. by apply lookup_hset_other.
  - rewrite lookup_insert_eq. rewrite lookup_hset_other by done. apply lookup_empty.
Qed.

Lemma field_at_hset_field (key : string) (objs : list T)
    (ks : gmap string Redis.entry) (o : T) :
  Redis.not_a_string ks key →
  NoDup (RedisHashJson.field_of <$> objs) → o ∈ objs →
  Redis.field_at (RedisHashJson.hset_keyspace box s key objs ks) key
                 (RedisHashJson.field_of o)
    = Some (RedisHashJson.payload box s o).
Proof.
  intros Hns Hnd Hin. unfold RedisHashJson.hset_keyspace, Redis.field_at.
  destruct (ks !! key) as [[[v|h] t]|] eqn:Hk.
  - by destruct (Hns v t).
  - rewrite lookup_insert_eq. by apply lookup_hset_field.
  - rewrite lookup_insert_eq. by apply lookup_hset_field.
Qed.

Lemma not_a_string_hset (key : string) (objs : list T)
    (ks : gmap string Redis.entry) :
  Redis.not_a_string ks key →
  Redis.not_a_string (RedisHashJson.hset_keyspace box s key objs ks) key.
Proof.
  intros Hns v t. unfold RedisHashJson.hset_keyspace.
  destruct (ks !! key) as [[[v'|h] t']|] eqn:Hk.
  - by destruct (Hns v' t').
  - by rewrite lookup_insert_eq.
  - by rewrite lookup_insert_eq.
Qed.

Lemma lookup_hset_keyspace_ne (key k : string) (objs : list T)
    (ks : gmap string Redis.entry) :
  k ≠ key → RedisHashJson.hset_keyspace box s key objs ks !! k = ks !! k.
Proof.
  intros Hne. unfold RedisHashJson.hset_keyspace.
  destruct (ks !! key) as [[[v|h] t]|]; [done| |]; by rewrite lookup_insert_ne.
Qed.

Lemma field_at_expire (key f : string) (ttl : Duration)
    (ks : gmap string Redis.entry) :
  0 < ttl →
  Redis.field_at (Redis.expire_key key ttl ks) key f = Redis.field_at ks key f.
Proof.
  intros Httl. unfold Redis.field_at.
  rewrite RedisSteps.lookup_expire_key by done. rewrite decide_True by done.
  by destruct (ks !! key) as [[[v|h] t]|].
Qed.

Lemma not_a_string_expire (key : string) (ttl : Duration)
    (ks : gmap string Redis.entry) :
  0 < ttl →
  Redis.not_a_string ks key →
  Redis.not_a_string (Redis.expire_key key ttl ks) key.
Proof.
  intros Httl Hns v t. rewrite RedisSteps.lookup_expire_key by done.
  rewrite decide_True by done.
  destruct (ks !! key) as [[[v'|h] t']|] eqn:Hk; simpl; [|done|done].
  by destruct (Hns v' t').
Qed.

(** [HGetJson] on a key that holds no string, on a reachable server. *)
Lemma HGetJson_reachable (key : string) (id : I) (w : World DB) :
  Redis.reachable (redis w) →
  Redis.not_a_string (Redis.keyspace (redis w)) key →
  RedisHashJson.HGetJson s key id w =
    let w' := mkWorld (backend w)
                (Redis.Server (Redis.keyspace (redis w)) (tl (Redis.faults (redis w))))
                (trace w ++ [Cache (Redis.CHGet key (Stringify id))]) in
    match Redis.field_at (Redis.keyspace (redis w)) key (Stringify id) with
    | None => (Done (zero, false, None), w')
    | Some y => (Done ((Unmarshal ser y zero).1, true, (Unmarshal ser y zero).2), w')
    end.
Proof.
  intros Hr Hns. unfold RedisHashJson.HGetJson. run.
  unfold Redis.HGet. rewrite RedisFacts.send_reachable by done.
  unfold Redis.field_at.
  destruct (Redis.keyspace (redis w) !! key) as [[[v|h] t]|] eqn:Hk; simpl.
  - by destruct (Hns v t).
  - destruct (h !! Stringify id) as [y|]; simpl; [|done].
    by destruct (Unmarshal ser y zero).
  - done.
Qed.

(** X9. Round trip through the hash.  Entities that marshal and have
    distinct IDs are written by [HSetJson] under a key that holds no
    string; then [HGetJson] with the ID of any of them whose marshalled
    form decodes back to it returns [(entity, true, nil)]. *)
Theorem HSetJson_HGetJson_round_trip (key : string) (objs : list T)
    (w : World DB) :
  Forall (RedisHashJson.marshals box s) objs →
  NoDup (RedisHashJson.field_of <$> objs) →
  Redis.not_a_string (Redis.keyspace (redis w)) key →
  Redis.faults (redis w) = [] →
  ∃ w1, RedisHashJson.HSetJson box s key objs w = (Done None, w1)
    ∧ ∀ o, o ∈ objs →
        Unmarshal ser (RedisHashJson.payload box s o) zero = (o, None) →
        ∃ w2, RedisHashJson.HGetJson s key (GetID o) w1 = (Done (o, true, None), w2).
Proof.
  intros Hall Hnd Hns Hq.
  assert (Hr : Redis.reachable (redis w)).
  { unfold Redis.reachable. by rewrite Hq. }
  destruct objs as [|o0 objs'] eqn:Hobjs.
  { exists w. split; [reflexivity|]. intros o Hin. by apply elem_of_nil in Hin. }
  rewrite <- Hobjs in *.
  rewrite HSetJson_quiet by (try done; by rewrite Hobjs).
  eexists. split; [reflexivity|]. intros o Hin Hrt.
  rewrite HGetJson_reachable; simpl.
  - change (Stringify (GetID o)) with (RedisHashJson.field_of o).
    rewrite field_at_hset_field by done. rewrite Hrt. eauto.
  - unfold Redis.reachable. simpl. by rewrite Hq.
  - by apply not_a_string_hset.
Qed.

(** X10. [HSetJson] only adds or overwrites the fields of the entities it
    is given: a field of the hash that belongs to none of them keeps its
    value, the hash keeps its time-to-live, and no other key changes. *)
Theorem HSetJson_keeps_other_fields (key : string) (objs : list T)
    (h : gmap string string) (t : option Duration) (w : World DB) :
  Forall (RedisHashJson.marshals box s) objs →
  Redis.keyspace (redis w) !! key = Some (Redis.Entry (Redis.RHash h) t) →
  Redis.reachable (redis w) →
  ∃ h' w', RedisHashJson.HSetJson box s key objs w = (Done None, w')
    ∧ Redis.keyspace (redis w') !! key = Some (Redis.Entry (Redis.RHash h') t)
    ∧ (∀ f, f ∉ RedisHashJson.field_of <$> objs → h' !! f = h !! f)
    ∧ (∀ k, k ≠ key →
         Redis.keyspace (redis w') !! k = Redis.keyspace (redis w) !! k).
Proof.
  intros Hall Hk Hr.
  destruct objs as [|o0 objs'] eqn:Hobjs.
  { exists h, w. by repeat split. }
  rewrite <- Hobjs in *.
  assert (Hns : Redis.not_a_string (Redis.keyspace (redis w)) key).
  { intros v t'. by rewrite Hk. }
  rewrite HSetJson_quiet by (try done; by rewrite Hobjs).
  exists (Redis.hset_args (RedisHashJson.args_of box s objs) h). eexists.
  split; [reflexivity|]. simpl. split; [|split].
  - unfold RedisHashJson.hset_keyspace. rewrite Hk. by rewrite lookup_insert_eq.
  - intros f Hf. by apply lookup_hset_other.
  - intros k Hne. by apply lookup_hset_keyspace_ne.
Qed.

End HashStoreSteps.

Section HashStoreBatchReads.
Context {DB Any T I Index : Type}.
Context `{!GoZero T, !Table T I Index, !Helpers I Index}.
Context (s : RedisHashJson.t Any T).

Local Abbreviation ser := (RedisHashJson.serializer s).

Lemma HMGet_reachable (key : string) (fields : list string)
    (h : gmap string string) (t : option Duration) (r : Redis.t) :
  Redis.reachable r →
  Redis.keyspace r !! key = Some (Redis.Entry (Redis.RHash h) t) →
  Redis.HMGet key fields r =
    ((map (λ f, h !! f) fields, None),
     Redis.Server (Redis.keyspace r) (tl (Redis.faults r))).
Proof.
  intros Hr Hk. unfold Redis.HMGet. rewrite RedisFacts.send_reachable by done.
  by rewrite Hk.
Qed.

(** The decoding loop passes over the IDs that are stored and decode. *)
Lemma HMGetJson_loop_decodes (h : gmap string string) (ids : list I)
    (r : list T) (rest : list (option string)) (acc : list T) :
  Forall2 (RedisHashJson.holds s h) ids r →
  RedisHashJson.HMGetJson_loop s (map (λ f, h !! f) (map Stringify ids) ++ rest) acc
    = RedisHashJson.HMGetJson_loop s rest (acc ++ r).
Proof.
  intros Hall. revert acc.
  induction Hall as [|id u ids r (y & Hy & Hu) _ IH]; intros acc; simpl.
  - by rewrite app_nil_r.
  - rewrite Hy, Hu. rewrite IH. by rewrite <- app_assoc.
Qed.

(** X11. When the key holds the hash and every requested ID is stored in
    it and decodes, [HMGetJson] returns the decoded entities in the order
    of the request, with a nil error. *)
Theorem HMGetJson_returns_stored (key : string) (ids : list I) (r : list T)
    (h : gmap string string) (t : option Duration) (w : World DB) :
  ids ≠ [] →
  Redis.reachable (redis w) →
  Redis.keyspace (redis w) !! key = Some (Redis.Entry (Redis.RHash h) t) →
  Forall2 (RedisHashJson.holds s h) ids r →
  ∃ w', RedisHashJson.HMGetJson s key ids w = (Done (r, None), w')
    ∧ Redis.keyspace (redis w') = Redis.keyspace (redis w).
Proof.
  intros Hne Hr Hk Hall. unfold RedisHashJson.HMGetJson.
  destruct (decide (length ids = 0%nat)) as [Hlen|_].
  { destruct ids; [done | discriminate]. }
  unfold mbind, M_bind, cache_call.
  rewrite (HMGet_reachable key _ h t) by done. simpl.
  rewrite <- (app_nil_r (map _ (map Stringify ids))).
  rewrite (HMGetJson_loop_decodes h ids r) by done. simpl.
  eexists. split; [reflexivity | done].
Qed.

(** X12. A stored entry that does not decode ends [HMGetJson] early and
    silently: the entities decoded before it are returned with a nil
    error, and the IDs after it are not looked at. *)
Theorem HMGetJson_drops_decode_error (key : string) (pre post : list I)
    (id : I) (r : list T) (y : string) (e : err)
    (h : gmap string string) (t : option Duration) (w : World DB) :
  Redis.reachable (redis w) →
  Redis.keyspace (redis w) !! key = Some (Redis.Entry (Redis.RHash h) t) →
  Forall2 (RedisHashJson.holds s h) pre r →
  h !! Stringify id = Some y →
  (Unmarshal ser y zero).2 = Some e →
  ∃ w', RedisHashJson.HMGetJson s key (pre ++ id :: post) w = (Done (r, None), w').
Proof.
  intros Hr Hk Hall Hy He. unfold RedisHashJson.HMGetJson.
  destruct (decide _) as [Hlen|_].
  { rewrite length_app in Hlen. simpl in Hlen. lia. }
  unfold mbind, M_bind, cache_call.
  rewrite (HMGet_reachable key _ h t) by done. simpl.
  rewrite !map_app. simpl.
  rewrite (HMGetJson_loop_decodes h pre r) by done. simpl.
  rewrite Hy. destruct (Unmarshal ser y zero) as [u err]. simpl in He. subst err.
  simpl. eexists. reflexivity.
Qed.

(** [HMGetJson] is a matter between the caller and Redis. *)
Lemma HMGetJson_backend (key : string) (ids : list I) (w : World DB) :
  backend (RedisHashJson.HMGetJson s key ids w).2 = backend w
  ∧ backend_calls (trace (RedisHashJson.HMGetJson s key ids w).2)
      = backend_calls (trace w).
Proof.
  unfold RedisHashJson.HMGetJson.
  destruct (decide (length ids = 0%nat)); [done|].
  unfold mbind, M_bind, cache_call.
  destruct (Redis.HMGet _ _ _) as [[raw [e|]] r1]; simpl.
  - destruct (decide (e = RedisNil)); simpl;
      (split; [done|]); unfold backend_calls; rewrite omap_app; simpl;
      by rewrite app_nil_r.
  - destruct (RedisHashJson.HMGetJson_loop s raw []); simpl;
      (split; [done|]); unfold backend_calls; rewrite omap_app; simpl;
      by rewrite app_nil_r.
Qed.

End HashStoreBatchReads.

(** ** More on the whole-collection cache *)

Lemma backend_calls_cache (tr : list event) (c : Redis.cmd) :
  backend_calls (tr ++ [Cache c]) = backend_calls tr.
Proof. unfold backend_calls. rewrite omap_app. simpl. apply app_nil_r. Qed.

Lemma backend_calls_backend (tr : list event) (c : backend_call) :
  backend_calls (tr ++ [Backend c]) = backend_calls tr ++ [c].
Proof. unfold backend_calls. by rewrite omap_app. Qed.

Section FullCacheSteps.
Context {DB Any T I Index : Type}.
Context `{!GoZero T, !Table T I Index, !Helpers I Index}.
Context `{!Strings.UnicodeLower}.
Context (box : T → Any) (s : FullRedisCache.t DB Any T I).

Local Abbreviation key := (FullRedisCache.CacheKey s).
Local Abbreviation red := (FullRedisCache.red s).
Local Abbreviation ser := (RedisHashJson.serializer (FullRedisCache.red s)).
Local Abbreviation ttl := (RedisHashJson.ttl (FullRedisCache.red s)).

(** A reload that meets no failure: the listing is written over the hash
    and the time-to-live is set. *)
Lemma load_quiet (r : list T) (b1 : DB) (w : World DB) :
  Redis.faults (redis w) = [] →
  0 < ttl →
  db_ListAll (FullRedisCache.db s) (backend w) = ((r, None), b1) →
  Forall (RedisHashJson.marshals box red) r →
  Redis.not_a_string (Redis.keyspace (redis w)) key →
  ∃ w',
    FullRedisCache.load box s w = (Done None, w')
    ∧ backend w' = b1
    ∧ Redis.faults (redis w') = []
    ∧ backend_calls (trace w') = backend_calls (trace w) ++ [DbListAll]
    ∧ Redis.not_a_string (Redis.keyspace (redis w')) key
    ∧ (∀ f, f ∉ RedisHashJson.field_of <$> r →
         Redis.field_at (Redis.keyspace (redis w')) key f
           = Redis.field_at (Redis.keyspace (redis w)) key f)
    ∧ (NoDup (RedisHashJson.field_of <$> r) → ∀ o, o ∈ r →
         Redis.field_at (Redis.keyspace (redis w')) key (RedisHashJson.field_of o)
           = Some (RedisHashJson.payload box red o)).
Proof.
  intros Hq Httl Hdb Hall Hns. unfold FullRedisCache.load.
  unfold mbind, M_bind at 1. unfold backend_do. rewrite Hdb. simpl.
  unfold mbind, M_bind.
  destruct r as [|o0 r'] eqn:Hr.
  - simpl. unfold cache_call, Redis.Expire.
    rewrite RedisSteps.send_quiet by done. simpl.
    eexists. split; [reflexivity|]. simpl.
    split; [done|]. split; [done|]. split.
    { by rewrite backend_calls_cache, backend_calls_backend. }
    split; [by apply not_a_string_expire|]. split.
    + intros f _. by apply field_at_expire.
    + intros _ o Hin. by apply elem_of_nil in Hin.
  - rewrite <- Hr in *.
    rewrite (HSetJson_quiet box red key r); simpl;
      [| by rewrite Hr | done | done | unfold Redis.reachable; by rewrite Hq].
    unfold cache_call, Redis.Expire. rewrite Hq. simpl.
    eexists. split; [reflexivity|]. simpl.
    split; [done|]. split; [done|]. split.
    { by rewrite !backend_calls_cache, backend_calls_backend. }
    split; [apply not_a_string_expire; [done|]; by apply not_a_string_hset|].
    split.
    + intros f Hf. rewrite field_at_expire by done. by apply field_at_hset_other.
    + intros Hnd o Hin. rewrite field_at_expire by done.
      by apply field_at_hset_field.
Qed.

(** [Get] on a snapshot that holds the ID. *)
Lemma full_Get_hit_run (id : I) (u : T) (y : string) (w : World DB) :
  Redis.reachable (redis w) →
  Redis.not_a_string (Redis.keyspace (redis w)) key →
  Redis.field_at (Redis.keyspace (redis w)) key (Stringify id) = Some y →
  Unmarshal ser y zero = (u, None) →
  ∃ w', FullRedisCache.Get box s id w = (Done (u, true, None), w')
    ∧ backend w' = backend w
    ∧ backend_calls (trace w') = backend_calls (trace w)
    ∧ cache_cmds (trace w') = cache_cmds (trace w) ++ [Redis.CHGet key (Stringify id)]
    ∧ Redis.keyspace (redis w') = Redis.keyspace (redis w).
Proof.
  intros Hr Hns Hf Hu. unfold FullRedisCache.Get.
  unfold mbind, M_bind. rewrite HGetJson_reachable by done. simpl.
  rewrite Hf, Hu. simpl. eexists. split; [reflexivity|]. simpl.
  split; [done|]. split; [apply backend_calls_cache|].
  split; [apply cache_cmds_cache | done].
Qed.

(** X13. A hit.  When the snapshot holds the ID and the entry decodes,
    [Get] returns the entity after a single HGET: the backend is not
    called and the key space does not change. *)
Theorem full_Get_hit_skips_backend (id : I) (u : T) (y : string) (w : World DB) :
  Redis.reachable (redis w) →
  Redis.not_a_string (Redis.keyspace (redis w)) key →
  Redis.field_at (Redis.keyspace (redis w)) key (Stringify id) = Some y →
  Unmarshal ser y zero = (u, None) →
  ∃ w', FullRedisCache.Get box s id w = (Done (u, true, None), w')
    ∧ backend w' = backend w
    ∧ backend_calls (trace w') = backend_calls (trace w)
    ∧ cache_cmds (trace w') = cache_cmds (trace w) ++ [Redis.CHGet key (Stringify id)]
    ∧ Redis.keyspace (redis w') = Redis.keyspace (redis w).
Proof. apply full_Get_hit_run. Qed.

(** A miss followed by a reload that meets no failure: [Get] answers from
    the hash as the reload left it. *)
Lemma full_Get_after_miss (id : I) (r : list T) (b1 : DB) (w : World DB) :
  Redis.faults (redis w) = [] →
  0 < ttl →
  Redis.not_a_string (Redis.keyspace (redis w)) key →
  Redis.field_at (Redis.keyspace (redis w)) key (Stringify id) = None →
  db_ListAll (FullRedisCache.db s) (backend w) = ((r, None), b1) →
  Forall (RedisHashJson.marshals box red) r →
  ∃ ks1 w',
    FullRedisCache.Get box s id w =
      (match Redis.field_at ks1 key (Stringify id) with
       | None => Done (zero, false, None)
       | Some y => Done ((Unmarshal ser y zero).1, true, (Unmarshal ser y zero).2)
       end, w')
    ∧ backend w' = b1
    ∧ backend_calls (trace w') = backend_calls (trace w) ++ [DbListAll]
    ∧ (∀ f, f ∉ RedisHashJson.field_of <$> r →
         Redis.field_at ks1 key f = Redis.field_at (Redis.keyspace (redis w)) key f)
    ∧ (NoDup (RedisHashJson.field_of <$> r) → ∀ o, o ∈ r →
         Redis.field_at ks1 key (RedisHashJson.field_of o)
           = Some (RedisHashJson.payload box red o)).
Proof.
  intros Hq Httl Hns Hmiss Hdb Hall. unfold FullRedisCache.Get.
  unfold mbind, M_bind at 1.
  rewrite HGetJson_reachable;
    [| unfold Redis.reachable; by rewrite Hq | done].
  simpl. rewrite Hmiss. rewrite Hq. simpl.
  unfold mbind, M_bind.
  match goal with |- context [FullRedisCache.load box s ?w0] =>
    destruct (load_quiet r b1 w0)
      as (w1 & Hload & Hb & Hq1 & Hcalls & Hns1 & Hother & Hfield);
      [done..|] end.
  rewrite Hload. simpl in *.
  rewrite HGetJson_reachable;
    [| unfold Redis.reachable; by rewrite Hq1 | done].
  simpl. exists (Redis.keyspace (redis w1)). eexists.
  split.
  { destruct (Redis.field_at (Redis.keyspace (redis w1)) key (Stringify id));
      reflexivity. }
  simpl. split; [done|]. split.
  { rewrite backend_calls_cache, Hcalls. by rewrite backend_calls_cache. }
  split; [exact Hother | exact Hfield].
Qed.

(** X14. Read-through.  On a miss (the snapshot is absent, or present
    without the ID) [Get] lists the whole collection once, writes it to the
    hash and reads again: an entity of the listing that carries the ID and
    whose marshalled form decodes back to it is returned as found. *)
Theorem full_Get_miss_reads_through (id : I) (u : T) (r : list T) (b1 : DB)
    (w : World DB) :
  Redis.faults (redis w) = [] →
  0 < ttl →
  Redis.not_a_string (Redis.keyspace (redis w)) key →
  Redis.field_at (Redis.keyspace (redis w)) key (Stringify id) = None →
  db_ListAll (FullRedisCache.db s) (backend w) = ((r, None), b1) →
  Forall (RedisHashJson.marshals box red) r →
  NoDup (RedisHashJson.field_of <$> r) →
  u ∈ r →
  Stringify (GetID u) = Stringify id →
  Unmarshal ser (RedisHashJson.payload box red u) zero = (u, None) →
  ∃ w', FullRedisCache.Get box s id w = (Done (u, true, None), w')
    ∧ backend_calls (trace w') = backend_calls (trace w) ++ [DbListAll].
Proof.
  intros Hq Httl Hns Hmiss Hdb Hall Hnd Hin Hid Hrt.
  destruct (full_Get_after_miss id r b1 w)
    as (ks1 & w' & Hget & _ & Hcalls & _ & Hfield); [done..|].
  specialize (Hfield Hnd u Hin). unfold RedisHashJson.field_of in Hfield.
  rewrite Hid in Hfield. rewrite Hfield, Hrt in Hget. eauto.
Qed.

(** X15. An ID that is neither in the snapshot nor in the backend: [Get]
    returns [(zero, false, nil)], and it has listed the whole collection to
    find that out.  Nothing is cached for the missing ID, so every such
    call lists the collection again. *)
Theorem full_Get_absent_lists_backend (id : I) (r : list T) (b1 : DB)
    (w : World DB) :
  Redis.faults (redis w) = [] →
  0 < ttl →
  Redis.not_a_string (Redis.keyspace (redis w)) key →
  Redis.field_at (Redis.keyspace (redis w)) key (Stringify id) = None →
  db_ListAll (FullRedisCache.db s) (backend w) = ((r, None), b1) →
  Forall (RedisHashJson.marshals box red) r →
  Stringify id ∉ RedisHashJson.field_of <$> r →
  ∃ w', FullRedisCache.Get box s id w = (Done (zero, false, None), w')
    ∧ backend_calls (trace w') = backend_calls (trace w) ++ [DbListAll]
    ∧ Redis.field_at (Redis.keyspace (redis w')) key (Stringify id) = None.
Proof.
  intros Hq Httl Hns Hmiss Hdb Hall Hid. unfold FullRedisCache.Get.
  unfold mbind, M_bind at 1.
  rewrite HGetJson_reachable;
    [| unfold Redis.reachable; by rewrite Hq | done].
  simpl. rewrite Hmiss. rewrite Hq. simpl.
  unfold mbind, M_bind.
  match goal with |- context [FullRedisCache.load box s ?w0] =>
    destruct (load_quiet r b1 w0)
      as (w1 & Hload & Hb & Hq1 & Hcalls & Hns1 & Hother & _);
      [done..|] end.
  rewrite Hload. simpl in *.
  rewrite HGetJson_reachable;
    [| unfold Redis.reachable; by rewrite Hq1 | done].
  simpl. rewrite (Hother _ Hid), Hmiss.
  eexists. split; [reflexivity|]. simpl. split.
  - rewrite backend_calls_cache, Hcalls. by rewrite backend_calls_cache.
  - by rewrite (Hother _ Hid).
Qed.

End FullCacheSteps.

Section FullCacheMutations.
Context {DB Any T I Index : Type}.
Context `{!GoZero T, !Table T I Index, !Helpers I Index}.
Context `{!Strings.UnicodeLower}.
Context (box : T → Any) (s : FullRedisCache.t DB Any T I).

Local Abbreviation key := (FullRedisCache.CacheKey s).
Local Abbreviation red := (FullRedisCache.red s).
Local Abbreviation ser := (RedisHashJson.serializer (FullRedisCache.red s)).
Local Abbreviation ttl := (RedisHashJson.ttl (FullRedisCache.red s)).

(** X16. The reload after a mutation writes the listing over the hash and
    removes nothing.  So after a [Delete] that the backend carried out, an
    entity that was in the snapshot and is no longer listed is still
    there: [Get] returns it as found, from the cache, without calling the
    backend. *)
Theorem full_Delete_leaves_deleted_entry (ids : list I) (id : I) (u : T)
    (y : string) (r : list T) (n : Z) (b1 b2 : DB) (w : World DB) :
  Redis.faults (redis w) = [] →
  0 < ttl →
  Redis.not_a_string (Redis.keyspace (redis w)) key →
  Redis.field_at (Redis.keyspace (redis w)) key (Stringify id) = Some y →
  Unmarshal ser y zero = (u, None) →
  db_Delete (FullRedisCache.db s) ids (backend w) = ((n, None), b1) →
  db_ListAll (FullRedisCache.db s) b1 = ((r, None), b2) →
  Forall (RedisHashJson.marshals box red) r →
  Stringify id ∉ RedisHashJson.field_of <$> r →
  ∃ w1, FullRedisCache.Delete box s ids w = (Done (n, None), w1)
    ∧ ∃ w2, FullRedisCache.Get box s id w1 = (Done (u, true, None), w2)
        ∧ backend_calls (trace w2) = backend_calls (trace w1).
Proof.
  intros Hq Httl Hns Hf Hu Hdel Hlist Hall Hid. unfold FullRedisCache.Delete.
  unfold mbind, M_bind at 1. unfold backend_do. rewrite Hdel. simpl.
  unfold mbind, M_bind.
  match goal with |- context [FullRedisCache.load box s ?w0] =>
    destruct (load_quiet box s r b2 w0)
      as (w1 & Hload & Hb & Hq1 & Hcalls & Hns1 & Hother & _);
      [done..|] end.
  rewrite Hload. simpl in *. exists w1. split; [reflexivity|].
  destruct (full_Get_hit_run box s id u y w1) as (w2 & Hget & _ & Hcalls2 & _);
    [unfold Redis.reachable; by rewrite Hq1 | done | | done |].
  { by rewrite (Hother _ Hid). }
  exists w2. by split.
Qed.

(** X17. After a [Create] that the backend carried out and a reload that
    met no failure, [Get] with the ID of the created entity returns it
    from the cache, without calling the backend again. *)
Theorem full_Create_then_Get_hits (r0 u : T) (l : list T) (b1 b2 : DB)
    (w : World DB) :
  Redis.faults (redis w) = [] →
  0 < ttl →
  Redis.not_a_string (Redis.keyspace (redis w)) key →
  db_Create (FullRedisCache.db s) r0 (backend w) = ((u, None), b1) →
  db_ListAll (FullRedisCache.db s) b1 = ((l, None), b2) →
  Forall (RedisHashJson.marshals box red) l →
  NoDup (RedisHashJson.field_of <$> l) →
  u ∈ l →
  Unmarshal ser (RedisHashJson.payload box red u) zero = (u, None) →
  ∃ w1, FullRedisCache.Create box s r0 w = (Done (u, None), w1)
    ∧ ∃ w2, FullRedisCache.Get box s (GetID u) w1 = (Done (u, true, None), w2)
        ∧ backend_calls (trace w2) = backend_calls (trace w1).
Proof.
  intros Hq Httl Hns Hcreate Hlist Hall Hnd Hin Hrt. unfold FullRedisCache.Create.
  unfold mbind, M_bind at 1. unfold backend_do. rewrite Hcreate. simpl.
  unfold mbind, M_bind.
  match goal with |- context [FullRedisCache.load box s ?w0] =>
    destruct (load_quiet box s l b2 w0)
      as (w1 & Hload & Hb & Hq1 & Hcalls & Hns1 & _ & Hfield);
      [done..|] end.
  rewrite Hload. simpl in *. exists w1. split; [reflexivity|].
  destruct (full_Get_hit_run box s (GetID u) u (RedisHashJson.payload box red u) w1)
    as (w2 & Hget & _ & Hcalls2 & _);
    [unfold Redis.reachable; by rewrite Hq1 | done | | done |].
  { by apply (Hfield Hnd u Hin). }
  exists w2. by split.
Qed.

(** X18. [ClearCache] deletes the key of the snapshot, whatever it held
    and whatever entities it is called with; the next [Get] therefore
    reads through to the backend and returns the entity the backend
    lists. *)
Theorem full_ClearCache_then_Get_reads_through (objs : list T) (id : I)
    (u : T) (r : list T) (b1 : DB) (w : World DB) :
  Redis.faults (redis w) = [] →
  0 < ttl →
  db_ListAll (FullRedisCache.db s) (backend w) = ((r, None), b1) →
  Forall (RedisHashJson.marshals box red) r →
  NoDup (RedisHashJson.field_of <$> r) →
  u ∈ r →
  Stringify (GetID u) = Stringify id →
  Unmarshal ser (RedisHashJson.payload box red u) zero = (u, None) →
  ∃ w1, FullRedisCache.ClearCache s objs w = (Done None, w1)
    ∧ Redis.keyspace (redis w1) !! key = None
    ∧ ∃ w2, FullRedisCache.Get box s id w1 = (Done (u, true, None), w2)
        ∧ backend_calls (trace w2) = backend_calls (trace w1) ++ [DbListAll].
Proof.
  intros Hq Httl Hlist Hall Hnd Hin Hid Hrt. unfold FullRedisCache.ClearCache.
  unfold cache_call, Redis.Del. rewrite RedisSteps.send_quiet by done. simpl.
  eexists. split; [reflexivity|]. simpl.
  split; [by rewrite lookup_delete_eq|].
  match goal with |- context [FullRedisCache.Get box s id ?w1] =>
    destruct (full_Get_after_miss box s id r b1 w1)
      as (ks1 & w2 & Hget & _ & Hcalls & _ & Hfield) end; simpl; try done.
  - intros v t. by rewrite lookup_delete_eq.
  - unfold Redis.field_at. by rewrite lookup_delete_eq.
  - specialize (Hfield Hnd u Hin). unfold RedisHashJson.field_of in Hfield.
    rewrite Hid in Hfield. rewrite Hfield, Hrt in Hget. simpl in Hget.
    exists w2. by split.
Qed.

(** X19. [List] reloads only when the key of the snapshot is absent: when
    the key exists, whatever it holds and whatever [List] then returns, the
    backend is not called. *)
Theorem full_List_loaded_skips_backend (ids : list I) (e : Redis.entry)
    (w : World DB) :
  Redis.reachable (redis w) →
  Redis.keyspace (redis w) !! key = Some e →
  backend (FullRedisCache.List box s ids w).2 = backend w
  ∧ backend_calls (trace (FullRedisCache.List box s ids w).2)
      = backend_calls (trace w).
Proof.
  intros Hr Hk. unfold FullRedisCache.List.
  unfold mbind, M_bind, cache_call. unfold Redis.Exists.
  rewrite RedisFacts.send_reachable by done. rewrite Hk. simpl.
  match goal with |- context [RedisHashJson.HMGetJson red key ids ?w1] =>
    destruct (HMGetJson_backend red key ids w1) as [Hb Hcalls] end.
  rewrite Hb, Hcalls. simpl. by rewrite backend_calls_cache.
Qed.

End FullCacheMutations.

(** ** More on the Mongo coordinator *)

Section CoordinatorSteps.
Context {DB Any T Index : Type}.
Context `{!GoZero T, !Table T string Index, !Helpers string Index}.
Context (MakeCacheKey : CacheBase → Index → string).
Context (as_map : Any → option (list (string * Any))).
Context (reflect_SetString : string → string → T → outcome T).
Context (s : RedisMongo.t DB Any T).

Local Abbreviation keys_of v :=
  (RedisMongo.ClearCache_keys MakeCacheKey s (GetID v) (ListIndexes v)).

(** The invalidation loop of [Delete]: one DEL per entity, errors dropped. *)
Lemma Delete_loop_run (objs : list T) (w : World DB) :
  ∃ w', RedisMongo.Delete_loop MakeCacheKey s objs w = (Done tt, w')
    ∧ backend w' = backend w
    ∧ cache_cmds (trace w') =
        cache_cmds (trace w) ++ map (λ v, Redis.CDel (keys_of v)) objs
    ∧ (Redis.faults (redis w) = [] →
       Redis.faults (redis w') = []
       ∧ (∀ k, Redis.keyspace (redis w) !! k = None →
               Redis.keyspace (redis w') !! k = None)
       ∧ (∀ v k, v ∈ objs → k ∈ keys_of v →
               Redis.keyspace (redis w') !! k = None)
       ∧ (∀ k, (∀ v, v ∈ objs → k ∉ keys_of v) →
               Redis.keyspace (redis w') !! k = Redis.keyspace (redis w) !! k)).
Proof.
  revert w. induction objs as [|v objs IH]; intros w.
  - exists w. split; [reflexivity|]. split; [done|]. split.
    + simpl. by rewrite app_nil_r.
    + intros Hq. split; [done|]. split; [done|]. split; [|done].
      intros v k Hin. by apply elem_of_nil in Hin.
  - simpl. unfold mbind, M_bind. rewrite ClearCache_run. simpl.
    match goal with |- context [RedisMongo.Delete_loop MakeCacheKey s objs ?w1] =>
      destruct (IH w1) as (w' & Hrun & Hb & Htrace & Hstate) end.
    rewrite Hrun. exists w'. split; [reflexivity|]. simpl in *.
    split; [done|]. split.
    { rewrite Htrace, cache_cmds_cache. by rewrite <- app_assoc. }
    intros Hq.
    assert (Hdel : Redis.Del (keys_of v) (redis w) =
      (None, Redis.Server (Redis.del_keys (keys_of v) (Redis.keyspace (redis w))) [])).
    { unfold Redis.Del. by rewrite RedisSteps.send_quiet. }
    rewrite Hdel in Hstate. simpl in Hstate.
    destruct (Hstate eq_refl) as (Hq' & Hnone & Hgone & Hkeep).
    split; [done|]. split; [|split].
    + intros k Hk. apply Hnone. rewrite RedisFacts.lookup_del_keys.
      by destruct (decide (k ∈ keys_of v)).
    + intros v' k [->|Hin]%elem_of_cons Hk.
      * apply Hnone. rewrite RedisFacts.lookup_del_keys. by rewrite decide_True.
      * by apply (Hgone v').
    + intros k Hk. rewrite Hkeep.
      * rewrite RedisFacts.lookup_del_keys. rewrite decide_False; [done|].
        apply Hk. left.
      * intros v' Hin. apply Hk. by right.
Qed.

(** X20. [Delete] reads the entities, deletes them in the backend and
    then sends one DEL for each entity it had read, with that entity's
    primary key and index keys.  The count of the backend is returned with
    a nil error whatever those DELs answer.  When they reach the server,
    every such key is gone afterwards and the keys of no deleted entity
    are as they were. *)
Theorem mongo_Delete_invalidates_what_it_read (ids : list string)
    (objs : list T) (n : Z) (b1 b2 : DB) (w : World DB) :
  ids ≠ [] →
  Find (RedisMongo.c s) ids (backend w) = ((None, (objs, None)), b1) →
  DeleteMany (RedisMongo.c s) ids b1 = ((n, None), b2) →
  ∃ w', RedisMongo.Delete MakeCacheKey s ids w = (Done (n, None), w')
    ∧ backend w' = b2
    ∧ cache_cmds (trace w') =
        cache_cmds (trace w) ++ map (λ v, Redis.CDel (keys_of v)) objs
    ∧ (Redis.faults (redis w) = [] →
       (∀ v k, v ∈ objs → k ∈ keys_of v →
               Redis.keyspace (redis w') !! k = None)
       ∧ (∀ k, (∀ v, v ∈ objs → k ∉ keys_of v) →
               Redis.keyspace (redis w') !! k = Redis.keyspace (redis w) !! k)).
Proof.
  intros Hne Hfind Hdel. unfold RedisMongo.Delete, RedisMongo.List.
  destruct (decide (length ids = 0%nat)) as [Hlen|_].
  { destruct ids; [done | discriminate]. }
  run. rewrite Hfind. simpl. rewrite Hdel. simpl.
  match goal with |- context [RedisMongo.Delete_loop MakeCacheKey s objs ?w1] =>
    destruct (Delete_loop_run objs w1) as (w' & Hrun & Hb & Htrace & Hstate) end.
  rewrite Hrun. exists w'. split; [reflexivity|]. simpl in *.
  split; [done|]. split.
  { rewrite Htrace. by rewrite !cache_cmds_backend. }
  intros Hq. destruct (Hstate Hq) as (_ & _ & Hgone & Hkeep). by split.
Qed.

(** X21. [Create] of an entity with an ID: once the insert has gone
    through, one DEL is sent for the primary key and the keys of the
    entity's indexes, and nil is returned whatever the DEL answers.  When
    it reaches the server those keys are gone and no other key changes. *)
Theorem mongo_Create_invalidates_own_keys (u : T) (b1 : DB) (w : World DB) :
  IsNullID (GetID u) = false →
  InsertOne (RedisMongo.c s) u (backend w) = (None, b1) →
  ∃ w', RedisMongo.Create MakeCacheKey reflect_SetString s (Some u) w
          = (Done (Some u, None), w')
    ∧ backend w' = b1
    ∧ cache_cmds (trace w') = cache_cmds (trace w) ++ [Redis.CDel (keys_of u)]
    ∧ (∀ k, k ∈ keys_of u ↔
         k = MakeCacheKey (RedisMongo.base s)
               (NewIndex (idField (RedisMongo.base s)) (GetID u))
         ∨ ∃ i, i ∈ ListIndexes u ∧ k = MakeCacheKey (RedisMongo.base s) i)
    ∧ (Redis.reachable (redis w) →
       ∀ k, Redis.keyspace (redis w') !! k =
              if decide (k ∈ keys_of u) then None
              else Redis.keyspace (redis w) !! k).
Proof.
  intros Hid Hins. unfold RedisMongo.Create. rewrite Hid.
  unfold mbind, M_bind at 1. unfold mret, M_ret at 1.
  unfold mbind, M_bind at 1. unfold backend_do. rewrite Hins. simpl.
  unfold mbind, M_bind. rewrite ClearCache_run. simpl.
  eexists. split; [reflexivity|]. simpl. split; [done|]. split.
  { by rewrite cache_cmds_cache, cache_cmds_backend. }
  split.
  - intros k. by apply elem_of_ClearCache_keys.
  - intros Hr k. unfold Redis.Del. rewrite RedisFacts.send_reachable by done.
    simpl. apply RedisFacts.lookup_del_keys.
Qed.

(** X22. [Save] of an entity with an ID first looks it up.  When that
    lookup fails, with an error of the query other than "no documents" or
    with an error of the decoder, [Save] returns nil all the same: nothing
    is written to the backend and no command is sent to the cache. *)
Theorem mongo_Save_drops_probe_error (u : T) (r0 : SingleResult T) (b1 : DB)
    (w : World DB) :
  IsNullID (GetID u) = false →
  FindOne (RedisMongo.c s) (GetID u) (backend w) = (r0, b1) →
  (∃ e, sr_Err r0 = Some e ∧ e ≠ ErrNoDocuments)
  ∨ (sr_Err r0 = None ∧ ∃ e, (sr_Decode r0 zero).2 = Some e) →
  RedisMongo.Save MakeCacheKey reflect_SetString s (Some u) w =
    (Done (Some u, None),
     mkWorld b1 (redis w) (trace w ++ [Backend MgFindOne])).
Proof.
  intros Hid Hf Hfail. unfold RedisMongo.Save. rewrite Hid.
  unfold RedisMongo.Get. run. rewrite Hf. simpl.
  destruct Hfail as [(e & He & Hne)|(He & e & Hd)]; rewrite He.
  - rewrite decide_False by congruence. reflexivity.
  - destruct (sr_Decode r0 zero) as [t err]. simpl in Hd. subst err. reflexivity.
Qed.

(** X23. [Save] of an entity with an ID that the collection does not
    hold inserts it and invalidates its keys, as [Create] does: one
    lookup, one insert, one DEL. *)
Theorem mongo_Save_absent_inserts (u : T) (r0 : SingleResult T) (b1 b2 : DB)
    (w : World DB) :
  IsNullID (GetID u) = false →
  FindOne (RedisMongo.c s) (GetID u) (backend w) = (r0, b1) →
  sr_Err r0 = Some ErrNoDocuments →
  InsertOne (RedisMongo.c s) u b1 = (None, b2) →
  RedisMongo.Save MakeCacheKey reflect_SetString s (Some u) w =
    (Done (Some u, None),
     mkWorld b2 (Redis.Del (keys_of u) (redis w)).2
       (trace w ++ [Backend MgFindOne; Backend MgInsertOne;
                    Cache (Redis.CDel (keys_of u))])).
Proof.
  intros Hid Hf He Hins. unfold RedisMongo.Save. rewrite Hid.
  unfold RedisMongo.Get, RedisMongo.Create. rewrite Hid.
  unfold mbind, M_bind, mret, M_ret, backend_do. simpl. rewrite Hf. simpl.
  rewrite He. rewrite decide_True by done. simpl. rewrite Hins. simpl.
  rewrite ClearCache_run. simpl.
  by rewrite <- !app_assoc.
Qed.

(** X24. [Update] takes a map of fields and nothing else.  With any other
    value it returns an error after the entity has been read: the backend
    is not written and the cache is not touched. *)
Theorem mongo_Update_rejects_other_values (id : string) (values : Any)
    (w : World DB) :
  IsNullID id = false →
  (∃ old found, (RedisMongo.Get s id w).1 = Done (old, found, None)) →
  as_map values = None →
  ∃ msg, RedisMongo.Update MakeCacheKey as_map s id values w =
    (Done (0, Some (ErrorsNew msg)),
     mkWorld (FindOne (RedisMongo.c s) id (backend w)).2 (redis w)
             (trace w ++ [Backend MgFindOne])).
Proof.
  intros Hid (old & fnd & Hget) Hmap.
  destruct (mongo_Get_run s id w) as [res Hrun].
  rewrite Hrun in Hget. simpl in Hget. injection Hget as ->.
  unfold RedisMongo.Update. rewrite Hid. unfold mbind, M_bind.
  rewrite Hrun. rewrite Hmap. eexists. reflexivity.
Qed.

(** X25. When the DEL at the end of a successful [Update] does not reach
    the server, [Update] still returns the matched count with a nil
    error, and the key space is what it was: the entries of the entity
    stay cached. *)
Theorem mongo_Update_drops_invalidation_failure (id : string) (values : Any)
    (m : list (string * Any)) (n : Z) (old new : T) (r0 r1 : SingleResult T)
    (b1 b2 b3 : DB) (w : World DB) :
  IsNullID id = false →
  FindOne (RedisMongo.c s) id (backend w) = (r0, b1) →
  sr_Err r0 = None → sr_Decode r0 zero = (old, None) →
  as_map values = Some m →
  UpdateOne (RedisMongo.c s) id m b1 = ((n, None), b2) →
  FindOne (RedisMongo.c s) id b2 = (r1, b3) →
  sr_Err r1 = None → sr_Decode r1 zero = (new, None) →
  hd false (Redis.faults (redis w)) = true →
  ∃ w', RedisMongo.Update MakeCacheKey as_map s id values w = (Done (n, None), w')
    ∧ backend w' = b3
    ∧ Redis.keyspace (redis w') = Redis.keyspace (redis w).
Proof.
  intros Hid Hf0 He0 Hd0 Hmap Hupd Hf1 He1 Hd1 Hfault.
  rewrite (Update_run MakeCacheKey as_map s id values m n old new r0 r1 b1 b2 b3 w)
    by done.
  simpl. eexists. split; [reflexivity|]. simpl. split; [done|].
  unfold Redis.Del. by rewrite RedisSteps.send_unreachable.
Qed.

End CoordinatorSteps.

(** ** The GORM adapter *)

Section GormFacts.
Context {DB Any T I Index : Type}.
Context `{!GoZero T, !Table T I Index}.
Context (db : GormDB T I Any DB).

(** X26. The adapter looks the entity up before it saves or updates.
    When the lookup fails with an error other than "record not found",
    [Save] and [Update] return that error and write nothing.  When the
    record is not found, [Update] returns [(0, nil)] without writing, and
    [Save] creates the entity. *)
Theorem gorm_lookup_decides (r : T) (id : I) (values : Any) (d : DB) :
  (∀ t e d1,
     gorm_First db (GetID r) zero d = ((t, Some e), d1) →
     e ≠ Gorm.ErrRecordNotFound →
     Gorm.Save db r d = ((r, Some e), d1))
  ∧ (∀ t e d1,
     gorm_First db id zero d = ((t, Some e), d1) →
     e ≠ Gorm.ErrRecordNotFound →
     Gorm.Update db id values d = ((0, Some e), d1))
  ∧ (∀ t d1,
     gorm_First db id zero d = ((t, Some Gorm.ErrRecordNotFound), d1) →
     Gorm.Update db id values d = ((0, None), d1))
  ∧ (∀ t d1,
     gorm_First db (GetID r) zero d = ((t, Some Gorm.ErrRecordNotFound), d1) →
     Gorm.Save db r d = Gorm.Create db r d1).
Proof.
  split; [|split; [|split]].
  - intros t e d1 Hf Hne. unfold Gorm.Save, Gorm.Get. rewrite Hf.
    by rewrite decide_False.
  - intros t e d1 Hf Hne. unfold Gorm.Update, Gorm.Get. rewrite Hf.
    by rewrite decide_False.
  - intros t d1 Hf. unfold Gorm.Update, Gorm.Get. rewrite Hf.
    by rewrite decide_True.
  - intros t d1 Hf. unfold Gorm.Save, Gorm.Get. rewrite Hf.
    by rewrite decide_True.
Qed.

End GormFacts.

(** ** The further properties on the user table *)

(** Closes a decidable goal about concrete data by evaluation. *)
Ltac by_evaluation := refine (bool_decide_unpack _ _); vm_compute; exact I.

(** A lookup, a miss and an unreachable server. *)
Lemma GetJson_outcomes_witness :
  (∃ w', RedisJson.GetJson json_store "app/users/id/u9" w_cached
           = (Done (zero, false, None), w')
         ∧ Redis.keyspace (redis w') = Redis.keyspace (redis w_cached))
  ∧ (∃ w', RedisJson.GetJson json_store "app/users/id/u1" w_cached
             = (Done (alice, true, None), w')
           ∧ Redis.keyspace (redis w') = Redis.keyspace (redis w_cached))
  ∧ (∃ w', RedisJson.GetJson json_store "app/users/id/u3" w_garbage
             = (Done (zero, true, Some (SerializeErr "malformed")), w')
           ∧ Redis.keyspace (redis w') = Redis.keyspace (redis w_garbage))
  ∧ (∃ w', RedisJson.GetJson json_store "app/users/id/u1" w_cached_redis_down
             = (Done (zero, false, Some RedisConn), w')
           ∧ Redis.keyspace (redis w') = Redis.keyspace (redis w_cached_redis_down)).
Proof.
  split; [|split; [|split]].
  - destruct (GetJson_outcomes json_store "app/users/id/u9" w_cached) as (Hmiss & _ & _).
    by apply Hmiss.
  - destruct (GetJson_outcomes json_store "app/users/id/u1" w_cached) as (_ & Hhit & _).
    by apply (Hhit "u1|alice|a@x.org" (Some ttl)).
  - destruct (GetJson_outcomes json_store "app/users/id/u3" w_garbage) as (_ & Hhit & _).
    by apply (Hhit "garbage" (Some ttl)).
  - destruct (GetJson_outcomes json_store "app/users/id/u1" w_cached_redis_down)
      as (_ & _ & Hdown).
    by apply Hdown.
Defined.

(** Two keys are refreshed; the one that is missing is not created. *)
Lemma Expires_refreshes_present_keys_witness :
  ∃ w', RedisJson.Expires json_store ["app/users/id/u1"; "app/users/id/u9"] w_cached
          = (Done None, w')
    ∧ ∀ k, Redis.keyspace (redis w') !! k =
        if decide (k ∈ ["app/users/id/u1"; "app/users/id/u9"])
        then Redis.with_ttl ttl <$> Redis.keyspace (redis w_cached) !! k
        else Redis.keyspace (redis w_cached) !! k.
Proof.
  destruct (Expires_refreshes_present_keys json_store
              ["app/users/id/u1"; "app/users/id/u9"] w_cached) as [_ Hrun].
  by apply Hrun.
Defined.

(** Two sentinels written at once. *)
Lemma MSetNull_writes_sentinel_witness :
  ∃ w', RedisJson.MSetNull json_store ["app/users/id/u8"; "app/users/id/u9"] w_cached
          = (Done None, w')
    ∧ cache_cmds (trace w') =
        cache_cmds (trace w_cached)
        ++ [Redis.CExec (RedisJson.null_batch json_store
                           ["app/users/id/u8"; "app/users/id/u9"])]
    ∧ ∀ k, Redis.keyspace (redis w') !! k =
        if decide (k ∈ ["app/users/id/u8"; "app/users/id/u9"])
        then Some (Redis.Entry (Redis.RString "null") (Some ttl))
        else Redis.keyspace (redis w_cached) !! k.
Proof.
  destruct (MSetNull_writes_sentinel json_store
              ["app/users/id/u8"; "app/users/id/u9"] w_cached) as [_ Hrun].
  by apply Hrun.
Defined.

(** The batch of two users, written and given its time-to-live. *)
Lemma MSetJson_stores_every_pair_witness :
  ∃ w', RedisJson.MSetJson json_store good_batch w_empty = (Done None, w')
    ∧ (∀ k v, (k, v) ∈ good_batch →
         Redis.keyspace (redis w') !! k =
           Some (Redis.Entry (Redis.RString (marshal v).1) (Some ttl)))
    ∧ (∀ k, k ∉ good_batch.*1 →
         Redis.keyspace (redis w') !! k = Redis.keyspace (redis w_empty) !! k).
Proof.
  apply (MSetJson_stores_every_pair json_store good_batch w_empty).
  - repeat constructor.
  - discriminate.
  - by_evaluation.
  - reflexivity.
  - reflexivity.
Defined.

(** The same batch when the pipeline does not get through. *)
Lemma MSetJson_failed_expiry_leaves_persistent_keys_witness :
  ∃ w', RedisJson.MSetJson json_store good_batch w_second_cmd_down
          = (Done (Some RedisConn), w')
    ∧ (∀ k v, (k, v) ∈ good_batch →
         Redis.keyspace (redis w') !! k =
           Some (Redis.Entry (Redis.RString (marshal v).1) None))
    ∧ (∀ k, k ∉ good_batch.*1 →
         Redis.keyspace (redis w') !! k
           = Redis.keyspace (redis w_second_cmd_down) !! k).
Proof.
  apply (MSetJson_failed_expiry_leaves_persistent_keys json_store good_batch
           w_second_cmd_down).
  - repeat constructor.
  - discriminate.
  - by_evaluation.
  - reflexivity.
  - reflexivity.
Defined.


(** A string that does not decode, between a hit and a miss. *)
Lemma MGetJson_decode_error_aborts_witness :
  ∃ missed w',
    RedisJson.MGetJson json_store
      (["app/users/id/u1"] ++ "app/users/id/u3" :: ["app/users/id/u9"]) w_garbage
      = (Done ([], missed, Some (SerializeErr "malformed")), w')
    ∧ cache_cmds (trace w') =
        cache_cmds (trace w_garbage)
        ++ [Redis.CMGet (["app/users/id/u1"] ++ "app/users/id/u3"
                           :: ["app/users/id/u9"])]
    ∧ Redis.keyspace (redis w') = Redis.keyspace (redis w_garbage).
Proof.
  apply (MGetJson_decode_error_aborts json_store ["app/users/id/u1"]
           ["app/users/id/u9"] "app/users/id/u3" "garbage"
           (SerializeErr "malformed") w_garbage).
  - reflexivity.
  - intros k Hk y Hy. apply list_elem_of_singleton in Hk as ->.
    vm_compute in Hy. injection Hy as <-. reflexivity.
  - reflexivity.
  - reflexivity.
Defined.

(** Two users written to the hash and one of them read back. *)
Lemma HSetJson_HGetJson_round_trip_witness :
  ∃ w1, RedisHashJson.HSetJson AUser hash_store "app/users/full" [alice; bob] w_users
          = (Done None, w1)
    ∧ ∃ w2, RedisHashJson.HGetJson hash_store "app/users/full" "u2" w1
              = (Done (bob, true, None), w2).
Proof.
  destruct (HSetJson_HGetJson_round_trip AUser hash_store "app/users/full"
              [alice; bob] w_users) as (w1 & Hset & Hget).
  - repeat constructor.
  - by_evaluation.
  - intros v t. vm_compute. discriminate.
  - reflexivity.
  - exists w1. split; [exact Hset|]. apply (Hget bob); [by_evaluation | reflexivity].
Defined.

(** One user rewritten in a snapshot of two. *)
Lemma HSetJson_keeps_other_fields_witness :
  ∃ h' w', RedisHashJson.HSetJson AUser hash_store "app/users/full" [alicia] w_loaded
             = (Done None, w')
    ∧ Redis.keyspace (redis w') !! "app/users/full"
        = Some (Redis.Entry (Redis.RHash h') (Some ttl))
    ∧ (∀ f, f ∉ RedisHashJson.field_of <$> [alicia] → h' !! f = snapshot !! f)
    ∧ (∀ k, k ≠ "app/users/full" →
         Redis.keyspace (redis w') !! k = Redis.keyspace (redis w_loaded) !! k).
Proof.
  apply (HSetJson_keeps_other_fields AUser hash_store "app/users/full" [alicia]
           snapshot (Some ttl) w_loaded).
  - repeat constructor.
  - reflexivity.
  - reflexivity.
Defined.

(** Both users asked for, in the opposite order. *)
Lemma HMGetJson_returns_stored_witness :
  ∃ w', RedisHashJson.HMGetJson hash_store "app/users/full" ["u2"; "u1"] w_loaded
          = (Done ([bob; alice], None), w')
    ∧ Redis.keyspace (redis w') = Redis.keyspace (redis w_loaded).
Proof.
  apply (HMGetJson_returns_stored hash_store "app/users/full" ["u2"; "u1"]
           [bob; alice] snapshot (Some ttl) w_loaded).
  - discriminate.
  - reflexivity.
  - reflexivity.
  - repeat constructor; eexists; split; reflexivity.
Defined.

(** The entry of [u3] does not decode: [u2], asked for after it, is lost. *)
Lemma HMGetJson_drops_decode_error_witness :
  ∃ w', RedisHashJson.HMGetJson hash_store "app/users/full"
          (["u1"] ++ "u3" :: ["u2"]) w_corrupt
          = (Done ([alice], None), w').
Proof.
  apply (HMGetJson_drops_decode_error hash_store "app/users/full" ["u1"] ["u2"]
           "u3" [alice] "garbage" (SerializeErr "malformed")
           (<["u3" := "garbage"]> snapshot) (Some ttl) w_corrupt).
  - reflexivity.
  - reflexivity.
  - repeat constructor; eexists; split; reflexivity.
  - reflexivity.
  - reflexivity.
Defined.

(** A user of the loaded snapshot. *)
Lemma full_Get_hit_skips_backend_witness :
  ∃ w', FullRedisCache.Get AUser full_cache "u1" w_loaded = (Done (alice, true, None), w')
    ∧ backend w' = backend w_loaded
    ∧ backend_calls (trace w') = backend_calls (trace w_loaded)
    ∧ cache_cmds (trace w') =
        cache_cmds (trace w_loaded) ++ [Redis.CHGet "app/users/full" "u1"]
    ∧ Redis.keyspace (redis w') = Redis.keyspace (redis w_loaded).
Proof.
  destruct (full_Get_hit_skips_backend AUser full_cache "u1" alice
              "u1|alice|a@x.org" w_loaded) as (w' & Hget & Hb & Hcalls & Hcmds & Hks).
  - reflexivity.
  - intros v t. vm_compute. discriminate.
  - reflexivity.
  - reflexivity.
  - exists w'. split; [exact Hget|]. split; [exact Hb|]. split; [exact Hcalls|].
    split; [exact Hcmds | exact Hks].
Defined.

(** A user of the backend, read with an empty cache. *)
Lemma full_Get_miss_reads_through_witness :
  ∃ w', FullRedisCache.Get AUser full_cache "u2" w_users = (Done (bob, true, None), w')
    ∧ backend_calls (trace w') = backend_calls (trace w_users) ++ [DbListAll].
Proof.
  apply (full_Get_miss_reads_through AUser full_cache "u2" bob [alice; bob]
           (Store [alice; bob] []) w_users).
  - reflexivity.
  - reflexivity.
  - intros v t. vm_compute. discriminate.
  - reflexivity.
  - reflexivity.
  - repeat constructor.
  - by_evaluation.
  - by_evaluation.
  - reflexivity.
  - reflexivity.
Defined.

(** An ID that nobody has. *)
Lemma full_Get_absent_lists_backend_witness :
  ∃ w', FullRedisCache.Get AUser full_cache "u9" w_users = (Done (zero, false, None), w')
    ∧ backend_calls (trace w') = backend_calls (trace w_users) ++ [DbListAll]
    ∧ Redis.field_at (Redis.keyspace (redis w')) "app/users/full" "u9" = None.
Proof.
  destruct (full_Get_absent_lists_backend AUser full_cache "u9" [alice; bob]
              (Store [alice; bob] []) w_users) as (w' & Hget & Hcalls & Hf).
  - reflexivity.
  - reflexivity.
  - intros v t. vm_compute. discriminate.
  - reflexivity.
  - reflexivity.
  - repeat constructor.
  - by_evaluation.
  - exists w'. split; [exact Hget|]. split; [exact Hcalls | exact Hf].
Defined.

(** [alice] is deleted from the backend and still read from the cache. *)
Lemma full_Delete_leaves_deleted_entry_witness :
  ∃ w1, FullRedisCache.Delete AUser full_cache ["u1"] w_loaded = (Done (1, None), w1)
    ∧ rows (backend w1) = [bob]
    ∧ ∃ w2, FullRedisCache.Get AUser full_cache "u1" w1 = (Done (alice, true, None), w2)
        ∧ backend_calls (trace w2) = backend_calls (trace w1).
Proof.
  destruct (full_Delete_leaves_deleted_entry AUser full_cache ["u1"] "u1" alice
              "u1|alice|a@x.org" [bob] 1 (Store [bob] []) (Store [bob] []) w_loaded)
    as (w1 & Hdel & Hget).
  - reflexivity.
  - reflexivity.
  - intros v t. vm_compute. discriminate.
  - reflexivity.
  - reflexivity.
  - reflexivity.
  - reflexivity.
  - repeat constructor.
  - by_evaluation.
  - exists w1. split; [exact Hdel|]. split; [|exact Hget].
    vm_compute in Hdel. injection Hdel as <-. reflexivity.
Defined.

(** [carol] is created and then read from the cache. *)
Lemma full_Create_then_Get_hits_witness :
  ∃ w1, FullRedisCache.Create AUser full_cache carol w_users = (Done (carol, None), w1)
    ∧ ∃ w2, FullRedisCache.Get AUser full_cache "u3" w1 = (Done (carol, true, None), w2)
        ∧ backend_calls (trace w2) = backend_calls (trace w1).
Proof.
  destruct (full_Create_then_Get_hits AUser full_cache carol carol
              [alice; bob; carol] (Store [alice; bob; carol] [])
              (Store [alice; bob; carol] []) w_users) as (w1 & Hcreate & Hget).
  - reflexivity.
  - reflexivity.
  - intros v t. vm_compute. discriminate.
  - reflexivity.
  - reflexivity.
  - repeat constructor.
  - by_evaluation.
  - by_evaluation.
  - reflexivity.
  - exists w1. split; [exact Hcreate | exact Hget].
Defined.

(** The snapshot with the entry that does not decode is dropped and read
    anew. *)
Lemma full_ClearCache_then_Get_reads_through_witness :
  ∃ w1, FullRedisCache.ClearCache full_cache [alice] w_corrupt = (Done None, w1)
    ∧ Redis.keyspace (redis w1) !! "app/users/full" = None
    ∧ ∃ w2, FullRedisCache.Get AUser full_cache "u1" w1 = (Done (alice, true, None), w2)
        ∧ backend_calls (trace w2) = backend_calls (trace w1) ++ [DbListAll].
Proof.
  destruct (full_ClearCache_then_Get_reads_through AUser full_cache [alice] "u1"
              alice [alice; bob] (Store [alice; bob] []) w_corrupt)
    as (w1 & Hclear & Hkey & Hget).
  - reflexivity.
  - reflexivity.
  - reflexivity.
  - repeat constructor.
  - by_evaluation.
  - by_evaluation.
  - reflexivity.
  - reflexivity.
  - exists w1. split; [exact Hclear|]. split; [exact Hkey | exact Hget].
Defined.

(** A loaded snapshot and an ID it does not hold. *)
Lemma full_List_loaded_skips_backend_witness :
  backend (FullRedisCache.List AUser full_cache ["u1"; "u9"] w_loaded).2
    = backend w_loaded
  ∧ backend_calls (trace (FullRedisCache.List AUser full_cache ["u1"; "u9"] w_loaded).2)
    = backend_calls (trace w_loaded).
Proof.
  apply (full_List_loaded_skips_backend AUser full_cache ["u1"; "u9"]
           (Redis.Entry (Redis.RHash snapshot) (Some ttl)) w_loaded).
  - reflexivity.
  - reflexivity.
Defined.

(** [alice] is deleted: her primary key and her two index keys go. *)
Lemma mongo_Delete_invalidates_what_it_read_witness :
  ∃ w', RedisMongo.Delete MakeCacheKey coordinator ["u1"] w_cached = (Done (1, None), w')
    ∧ backend w' = Store [bob] []
    ∧ cache_cmds (trace w') =
        cache_cmds (trace w_cached)
        ++ [Redis.CDel ["app/users/id/u1"; "app/users/name/alice";
                        "app/users/email/a@x.org"]]
    ∧ Redis.keyspace (redis w') !! "app/users/id/u1" = None
    ∧ Redis.keyspace (redis w') !! "app/users/name/alice" = None
    ∧ Redis.keyspace (redis w') !! "app/users/id/u2"
        = Redis.keyspace (redis w_cached) !! "app/users/id/u2".
Proof.
  destruct (mongo_Delete_invalidates_what_it_read MakeCacheKey coordinator ["u1"]
              [alice] 1 (Store [alice; bob] []) (Store [bob] []) w_cached)
    as (w' & Hrun & Hb & Htrace & Hstate);
    [discriminate | reflexivity | reflexivity |].
  destruct (Hstate eq_refl) as [Hgone Hkeep].
  exists w'. split; [exact Hrun|]. split; [exact Hb|]. split; [exact Htrace|].
  split; [|split].
  - apply (Hgone alice); by_evaluation.
  - apply (Hgone alice); by_evaluation.
  - apply Hkeep. intros v Hv. apply list_elem_of_singleton in Hv as ->.
    by_evaluation.
Defined.

(** [carol] is inserted. *)
Lemma mongo_Create_invalidates_own_keys_witness :
  ∃ w', RedisMongo.Create MakeCacheKey reflect_SetString coordinator (Some carol) w_cached
          = (Done (Some carol, None), w')
    ∧ backend w' = Store [alice; bob; carol] []
    ∧ cache_cmds (trace w') =
        cache_cmds (trace w_cached)
        ++ [Redis.CDel ["app/users/id/u3"; "app/users/name/carol";
                        "app/users/email/c@x.org"]].
Proof.
  destruct (mongo_Create_invalidates_own_keys MakeCacheKey reflect_SetString
              coordinator carol (Store [alice; bob; carol] []) w_cached)
    as (w' & Hrun & Hb & Htrace & _); [reflexivity | reflexivity |].
  exists w'. split; [exact Hrun|]. split; [exact Hb | exact Htrace].
Defined.

(** The lookup of [Save] fails and [Save] returns nil. *)
Lemma mongo_Save_drops_probe_error_witness :
  RedisMongo.Save MakeCacheKey reflect_SetString coordinator (Some alicia) w_db_down
    = (Done (Some alicia, None),
       mkWorld (Store [alice] []) (redis w_db_down) [Backend MgFindOne]).
Proof.
  apply (mongo_Save_drops_probe_error MakeCacheKey reflect_SetString coordinator
           alicia (failed down) (Store [alice] []) w_db_down).
  - reflexivity.
  - reflexivity.
  - left. exists down. split; [reflexivity | discriminate].
Defined.

(** [carol] is saved for the first time. *)
Lemma mongo_Save_absent_inserts_witness :
  RedisMongo.Save MakeCacheKey reflect_SetString coordinator (Some carol) w_cached
    = (Done (Some carol, None),
       mkWorld (Store [alice; bob; carol] []) (redis w_cached)
         [Backend MgFindOne; Backend MgInsertOne;
          Cache (Redis.CDel ["app/users/id/u3"; "app/users/name/carol";
                             "app/users/email/c@x.org"])]).
Proof.
  rewrite (mongo_Save_absent_inserts MakeCacheKey reflect_SetString coordinator carol
             (failed ErrNoDocuments) (Store [alice; bob] [])
             (Store [alice; bob; carol] []) w_cached);
    reflexivity.
Defined.

(** A string where a map of fields is expected. *)
Lemma mongo_Update_rejects_other_values_witness :
  ∃ msg, RedisMongo.Update MakeCacheKey as_map coordinator "u1" (AStr "al") w_cached
    = (Done (0, Some (ErrorsNew msg)),
       mkWorld (Store [alice; bob] []) (redis w_cached) [Backend MgFindOne]).
Proof.
  apply (mongo_Update_rejects_other_values MakeCacheKey as_map coordinator "u1"
           (AStr "al") w_cached).
  - reflexivity.
  - eexists _, _. reflexivity.
  - reflexivity.
Defined.

(** [alice] is renamed while Redis is away: her old entries stay. *)
Lemma mongo_Update_drops_invalidation_failure_witness :
  ∃ w', RedisMongo.Update MakeCacheKey as_map coordinator "u1"
          (AMap [("name", "al")]) w_cached_redis_down = (Done (1, None), w')
    ∧ backend w' = Store [User "u1" "al" "a@x.org"; bob] []
    ∧ Redis.keyspace (redis w') = Redis.keyspace (redis w_cached_redis_down).
Proof.
  apply (mongo_Update_drops_invalidation_failure MakeCacheKey as_map coordinator
           "u1" (AMap [("name", "al")]) [("name", AStr "al")] 1
           alice (User "u1" "al" "a@x.org")
           (found alice) (found (User "u1" "al" "a@x.org"))
           (Store [alice; bob] [])
           (Store [User "u1" "al" "a@x.org"; bob] [])
           (Store [User "u1" "al" "a@x.org"; bob] [])
           w_cached_redis_down);
    reflexivity.
Defined.

(** A handle that is down, and an ID that is not in the table. *)
Lemma gorm_lookup_decides_witness :
  Gorm.Save gorm_db alicia (Store [alice] [true]) = ((alicia, Some down), Store [alice] [])
  ∧ Gorm.Update gorm_db "u1" (AMap [("name", "al")]) (Store [alice] [true])
    = ((0, Some down), Store [alice] [])
  ∧ Gorm.Update gorm_db "u9" (AMap [("name", "al")]) (Store [alice] [])
    = ((0, None), Store [alice] [])
  ∧ Gorm.Save gorm_db carol (Store [alice] [])
    = ((carol, None), Store [alice; carol] []).
Proof.
  split; [|split; [|split]].
  - destruct (gorm_lookup_decides gorm_db alicia "u1" (AMap [("name", "al")])
                (Store [alice] [true])) as (Hsave & _).
    apply (Hsave zero); [reflexivity | discriminate].
  - destruct (gorm_lookup_decides gorm_db alicia "u1" (AMap [("name", "al")])
                (Store [alice] [true])) as (_ & Hupd & _).
    apply (Hupd zero); [reflexivity | discriminate].
  - destruct (gorm_lookup_decides gorm_db carol "u9" (AMap [("name", "al")])
                (Store [alice] [])) as (_ & _ & Hnone & _).
    apply (Hnone zero). reflexivity.
  - destruct (gorm_lookup_decides gorm_db carol "u9" (AMap [("name", "al")])
                (Store [alice] [])) as (_ & _ & _ & Hcreate).
    rewrite (Hcreate zero (Store [alice] [])); reflexivity.
Defined.
